(** * short: a short-term memory tester (kovetskiy/short)

    A shallow embedding of the two programs of the repository, the plain-text
    one ([main.go], module [Plain]) and the full-screen one built on termbox
    (module [Termbox]), and the properties of their scorer, random sequence
    generator, input collector and result store.

    Conventions.
    - A Go [int] is 64 bits wide and is a [Z] here.  The programs never
      compute with an element of a sequence (they compare and copy it), and
      every counter stays within the length of a slice, so the only places
      where the width shows are [strconv.Atoi] and the JSON decoder, which
      write their range checks out.
    - A Go [string] and a [[]byte] are sequences of bytes: [bytes].
    - A [float64] is a primitive binary64 float.
    - Whatever the program asks of its environment (the random source, the
      terminal, the clock) is answered by an [Env]: the k-th call of a kind
      gets the k-th answer.  The [World] counts the calls and holds the disk.
    - A run-time panic, [os.Exit] and a loop that has not finished within the
      fuel given are outcomes of their own, see [outcome]. *)

From Stdlib Require Import ZArith List String Ascii Bool Lia PeanoNat.
From Stdlib Require Import DecimalString.
From Stdlib Require Decimal DecimalPos.
From Stdlib Require Import Floats.
Import ListNotations.
Local Open Scope Z_scope.

(** ** Bytes and strings *)

Definition bytes : Type := list ascii.

Definition B (s : string) : bytes := list_ascii_of_string s.

Definition code (c : ascii) : Z := Z.of_N (N_of_ascii c).

Definition byte_of (z : Z) : ascii := ascii_of_N (Z.to_N z).

Definition byte_eqb (a b : ascii) : bool := Ascii.eqb a b.

Definition dquote : ascii := "034"%char.
Definition backslash : ascii := "092"%char.

Fixpoint bytes_eqb (a b : bytes) : bool :=
  match a, b with
  | [], [] => true
  | x :: a', y :: b' => byte_eqb x y && bytes_eqb a' b'
  | _, _ => false
  end.

(** [len(s)] of a slice or a string. *)
Definition len {A} (s : list A) : Z := Z.of_nat (List.length s).

(** ** Outcomes of a Go call *)

Inductive outcome (A : Type) : Type :=
| Returned (a : A)        (* the call returns [a] *)
| Panicked (why : string) (* a run-time panic unwinds the program *)
| Exited (status : Z)     (* [os.Exit] *)
| OutOfFuel.              (* the fuel of the model is used up: no verdict *)
Arguments Returned {A} a.
Arguments Panicked {A} why.
Arguments Exited {A} status.
Arguments OutOfFuel {A}.

Definition obind {A B} (m : outcome A) (k : A -> outcome B) : outcome B :=
  match m with
  | Returned a => k a
  | Panicked why => Panicked why
  | Exited c => Exited c
  | OutOfFuel => OutOfFuel
  end.

(** [s[index]]: an index out of range panics. *)
Definition index_at (s : list Z) (index : Z) : outcome Z :=
  if (index <? 0) || (len s <=? index) then Panicked "index out of range"
  else match nth_error s (Z.to_nat index) with
       | Some v => Returned v
       | None => Panicked "index out of range"
       end.

(** ** strconv *)

Inductive NumError : Type := ErrSyntax | ErrRange.

Definition is_digit (c : ascii) : bool := (48 <=? code c) && (code c <=? 57).

Definition maxUint64 : Z := 18446744073709551615.
Definition maxInt64 : Z := 9223372036854775807.
Definition minInt64 : Z := -9223372036854775808.

(** The loop of [strconv.ParseUint(s, 10, 64)] over the bytes of [s]; [n] is
    a [uint64], so the sum is taken modulo [2^64] and the wrap detected as
    the code does. *)
Fixpoint ParseUint_loop (s : bytes) (n : Z) : Z * option NumError :=
  match s with
  | [] => (n, None)
  | c :: rest =>
    if negb (is_digit c) then (0, Some ErrSyntax)
    else
      let d := code c - 48 in
      if maxUint64 / 10 + 1 <=? n then (maxUint64, Some ErrRange)
      else
        let n := n * 10 in
        let n1 := (n + d) mod 2 ^ 64 in
        if (n1 <? n) || (maxUint64 <? n1) then (maxUint64, Some ErrRange)
        else ParseUint_loop rest n1
  end.

Definition ParseUint (s : bytes) : Z * option NumError :=
  match s with
  | [] => (0, Some ErrSyntax)
  | _ => ParseUint_loop s 0
  end.

(** [strconv.ParseInt(s, 10, 64)]. *)
Definition ParseInt (s : bytes) : Z * option NumError :=
  match s with
  | [] => (0, Some ErrSyntax)
  | c :: rest =>
    let neg := byte_eqb c "-" in
    let s' := if byte_eqb c "+" || neg then rest else s in
    match ParseUint s' with
    | (_, Some ErrSyntax) => (0, Some ErrSyntax)
    | (un, _) =>
      let cutoff := 2 ^ 63 in
      if negb neg && (cutoff <=? un) then (cutoff - 1, Some ErrRange)
      else if neg && (cutoff <? un) then (- cutoff, Some ErrRange)
      else (if neg then - un else un, None)
    end
  end.

(** The fast path of [strconv.Atoi], taken for 1 to 18 bytes. *)
Fixpoint Atoi_fast_loop (s : bytes) (n : Z) : option Z :=
  match s with
  | [] => Some n
  | ch :: rest =>
    let ch := (code ch - 48) mod 256 in
    if 9 <? ch then None else Atoi_fast_loop rest (n * 10 + ch)
  end.

Definition Atoi (s : bytes) : Z * option NumError :=
  let sLen := len s in
  if (0 <? sLen) && (sLen <? 19) then
    match s with
    | [] => (0, Some ErrSyntax)
    | c0 :: rest =>
      let signed := byte_eqb c0 "-" || byte_eqb c0 "+" in
      let s' := if signed then rest else s in
      if signed && (len s' <? 1) then (0, Some ErrSyntax)
      else match Atoi_fast_loop s' 0 with
           | None => (0, Some ErrSyntax)
           | Some n => (if byte_eqb c0 "-" then - n else n, None)
           end
    end
  else ParseInt s.

(** [strconv.Itoa]. *)
Definition Itoa (n : Z) : bytes := B (NilZero.string_of_int (Z.to_int n)).

(** ** strings *)

(** [strings.Split(s, sep)] for a separator of one byte. *)
Fixpoint Split (s : bytes) (sep : ascii) : list bytes :=
  match s with
  | [] => [[]]
  | c :: rest =>
    if byte_eqb c sep then [] :: Split rest sep
    else match Split rest sep with
         | piece :: pieces => (c :: piece) :: pieces
         | [] => [[c]]
         end
  end.

(** [strings.Join(elems, sep)]. *)
Fixpoint Join (elems : list bytes) (sep : bytes) : bytes :=
  match elems with
  | [] => []
  | [e] => e
  | e :: rest => e ++ sep ++ Join rest sep
  end.

(** ** The environment and the world *)

Record Time : Type := { mono : Z; Time_String : bytes }.

Inductive Key : Type :=
| KeyEnter | KeySpace | KeyBackspace2 | KeyCtrlC | KeyCtrlZ | KeyOther (k : Z).

Record Event : Type := { isEventKey : bool; EvKey : Key; Ch : Z }.

Record Env : Type := {
  (** the result of the k-th [rand.Int(rand.Reader, max)] with [0 < max]:
      [Some n], or [None] when the reader failed and the result is [nil] *)
  rand_Int_result : nat -> option Z;
  (** the k-th [scanner.Scan()] on a fresh scanner of stdin: [Some text] when
      it returns true and [scanner.Text()] is [text], [None] when false *)
  Scan_result : nat -> option bytes;
  (** the k-th [time.Now()] *)
  Now_result : nat -> Time;
  (** the k-th [termbox.PollEvent()] *)
  PollEvent_result : nat -> Event;
  (** whether the k-th [termbox.Flush()] returns an error *)
  Flush_error : nat -> bool;
  (** whether [termbox.Init()] returns an error *)
  Init_error : bool;
  (** [termbox.Size()] *)
  Size : Z * Z;
  (** [os.Getenv("HOME")] *)
  HOME : bytes
}.

Inductive node : Type :=
| NoFile                    (* nothing at this path; it can be created *)
| File (content : bytes)    (* a regular file the user may read and write *)
| Unreadable (content : bytes) (* opens, but reading it fails *)
| NoAccess.                 (* [os.OpenFile] fails *)

Record World : Type := {
  rand_calls : nat;
  scan_calls : nat;
  now_calls : nat;
  poll_calls : nat;
  flush_calls : nat;
  disk : bytes -> node
}.

(** A Go function with effects. *)
Definition Go (A : Type) : Type := World -> outcome (A * World).

Definition ret {A} (a : A) : Go A := fun w => Returned (a, w).

Definition bind {A B} (m : Go A) (k : A -> Go B) : Go B :=
  fun w => match m w with
           | Returned (a, w') => k a w'
           | Panicked why => Panicked why
           | Exited c => Exited c
           | OutOfFuel => OutOfFuel
           end.

Definition lift {A} (o : outcome A) : Go A :=
  fun w => match o with
           | Returned a => Returned (a, w)
           | Panicked why => Panicked why
           | Exited c => Exited c
           | OutOfFuel => OutOfFuel
           end.

Definition panic {A} (why : string) : Go A := fun _ => Panicked why.
Definition os_Exit {A} (status : Z) : Go A := fun _ => Exited status.
Definition out_of_fuel {A} : Go A := fun _ => OutOfFuel.

Declare Scope go_scope.
Delimit Scope go_scope with go.
Notation "x <- m ;; k" := (bind m (fun x => k))
  (at level 61, m at next level, right associativity) : go_scope.
Notation "m ;;; k" := (bind m (fun _ => k))
  (at level 61, right associativity) : go_scope.
Local Open Scope go_scope.

(** [rand.Int(rand.Reader, big.NewInt(int64(max)))]: panics unless
    [0 < max]; otherwise the reader's answer, a [*big.Int] or [nil]. *)
Definition rand_Int (env : Env) (max : Z) : Go (option Z) :=
  fun w =>
    if max <=? 0 then Panicked "crypto/rand: argument to Int is <= 0"
    else Returned (rand_Int_result env (rand_calls w),
                   {| rand_calls := S (rand_calls w); scan_calls := scan_calls w;
                      now_calls := now_calls w; poll_calls := poll_calls w;
                      flush_calls := flush_calls w; disk := disk w |}).

(** [bigNumber.Int64()]: on [nil] the method dereferences a nil pointer. *)
Definition Int64 (bigNumber : option Z) : Go Z :=
  match bigNumber with
  | Some n => ret n
  | None => panic "invalid memory address or nil pointer dereference"
  end.

Definition Scan (env : Env) : Go (option bytes) :=
  fun w =>
    Returned (Scan_result env (scan_calls w),
              {| rand_calls := rand_calls w; scan_calls := S (scan_calls w);
                 now_calls := now_calls w; poll_calls := poll_calls w;
                 flush_calls := flush_calls w; disk := disk w |}).

Definition time_Now (env : Env) : Go Time :=
  fun w =>
    Returned (Now_result env (now_calls w),
              {| rand_calls := rand_calls w; scan_calls := scan_calls w;
                 now_calls := S (now_calls w); poll_calls := poll_calls w;
                 flush_calls := flush_calls w; disk := disk w |}).

Definition PollEvent (env : Env) : Go Event :=
  fun w =>
    Returned (PollEvent_result env (poll_calls w),
              {| rand_calls := rand_calls w; scan_calls := scan_calls w;
                 now_calls := now_calls w; poll_calls := S (poll_calls w);
                 flush_calls := flush_calls w; disk := disk w |}).

(** [termbox.Flush()]: [true] when it returns an error. *)
Definition Flush (env : Env) : Go bool :=
  fun w =>
    Returned (Flush_error env (flush_calls w),
              {| rand_calls := rand_calls w; scan_calls := scan_calls w;
                 now_calls := now_calls w; poll_calls := poll_calls w;
                 flush_calls := S (flush_calls w); disk := disk w |}).

(** ** Durations *)

(** [float64(n)] for an [int64] of magnitude below [2^62]. *)
Definition float64_of_int (n : Z) : float :=
  if n <? 0 then PrimFloat.opp (PrimFloat.of_uint63 (Uint63.of_Z (- n)))
  else PrimFloat.of_uint63 (Uint63.of_Z n).

(** [t.Sub(u)]: the difference of the monotonic readings, saturated to the
    range of a [Duration] (an [int64] of nanoseconds). *)
Definition Time_Sub (t u : Time) : Z :=
  let d := mono t - mono u in
  if maxInt64 <? d then maxInt64 else if d <? minInt64 then minInt64 else d.

(** [d.Seconds()]. *)
Definition Seconds (d : Z) : float :=
  let sec := Z.quot d 1000000000 in
  let nsec := Z.rem d 1000000000 in
  (float64_of_int sec + float64_of_int nsec / 1e9)%float.

(** ** Test results *)

Record Result : Type := { Score : Z; Duration : float; Count : Z }.

(** ** encoding/json: the decoder

    [json.Unmarshal] first checks that the whole input is one well-formed
    JSON text and touches nothing when it is not; then it stores what fits
    into the target, remembers the first value that does not fit, skips it
    and goes on. *)

#[warnings="-register-all"] Inductive json : Type :=
| JNull
| JTrue
| JFalse
| JNumber (literal : bytes)
| JString (s : bytes)
| JArray (elems : list json)
| JObject (members : list (bytes * json)).

Definition is_space (c : ascii) : bool :=
  byte_eqb c " " || (code c =? 9) || (code c =? 13) || (code c =? 10).

Fixpoint skip_space (s : bytes) : bytes :=
  match s with
  | c :: rest => if is_space c then skip_space rest else s
  | [] => []
  end.

Definition hex_val (c : ascii) : option Z :=
  let n := code c in
  if (48 <=? n) && (n <=? 57) then Some (n - 48)
  else if (97 <=? n) && (n <=? 102) then Some (n - 97 + 10)
  else if (65 <=? n) && (n <=? 70) then Some (n - 65 + 10)
  else None.

(** [getu4]: the value of four hexadecimal digits. *)
Definition getu4 (a b c d : ascii) : option Z :=
  match hex_val a, hex_val b, hex_val c, hex_val d with
  | Some x, Some y, Some z, Some t => Some (((x * 16 + y) * 16 + z) * 16 + t)
  | _, _, _, _ => None
  end.

(** The scanner inside a string, after the opening quote: the raw body up to
    the closing quote, and what follows it. *)
Fixpoint string_body (s : bytes) : option (bytes * bytes) :=
  match s with
  | [] => None
  | c :: rest =>
    if byte_eqb c dquote then Some ([], rest)
    else if byte_eqb c backslash then
      match rest with
      | [] => None
      | e :: rest' =>
        if byte_eqb e "u" then
          match rest' with
          | h1 :: h2 :: h3 :: h4 :: rest'' =>
            match getu4 h1 h2 h3 h4 with
            | Some _ =>
              match string_body rest'' with
              | Some (body, after) => Some (c :: e :: h1 :: h2 :: h3 :: h4 :: body, after)
              | None => None
              end
            | None => None
            end
          | _ => None
          end
        else if byte_eqb e dquote || byte_eqb e backslash || byte_eqb e "/" || byte_eqb e "b"
                || byte_eqb e "f" || byte_eqb e "n" || byte_eqb e "r" || byte_eqb e "t" then
          match string_body rest' with
          | Some (body, after) => Some (c :: e :: body, after)
          | None => None
          end
        else None
      end
    else if code c <? 32 then None
    else match string_body rest with
         | Some (body, after) => Some (c :: body, after)
         | None => None
         end
  end.

(** The longest run of digits at the head of [s]. *)
Fixpoint digits (s : bytes) : bytes * bytes :=
  match s with
  | c :: rest => if is_digit c then let (ds, after) := digits rest in (c :: ds, after)
                 else ([], s)
  | [] => ([], [])
  end.

(** The scanner on a number: the literal and what follows it. *)
Definition number_literal (s : bytes) : option (bytes * bytes) :=
  let (sign, s1) := match s with
                    | c :: rest => if byte_eqb c "-" then ([c], rest) else ([], s)
                    | [] => ([], s)
                    end in
  let '(int_part, s2) := digits s1 in
  match int_part with
  | [] => None
  | d :: more =>
    if byte_eqb d "0" && negb (len more =? 0) then
      (* a leading 0 ends the integer part: what follows must end the value *)
      Some (sign ++ [d], more ++ s2)
    else
      let frac :=
        match s2 with
        | c :: rest =>
          if byte_eqb c "." then
            let (fd, s3) := digits rest in
            match fd with [] => None | _ => Some (c :: fd, s3) end
          else Some ([], s2)
        | [] => Some ([], s2)
        end in
      match frac with
      | None => None
      | Some (frac_part, s3) =>
        let exp :=
          match s3 with
          | c :: rest =>
            if byte_eqb c "e" || byte_eqb c "E" then
              let (esign, s4) :=
                match rest with
                | g :: rest' => if byte_eqb g "+" || byte_eqb g "-" then ([g], rest') else ([], rest)
                | [] => ([], rest)
                end in
              let (ed, s5) := digits s4 in
              match ed with [] => None | _ => Some (c :: esign ++ ed, s5) end
            else Some ([], s3)
          | [] => Some ([], s3)
          end in
        match exp with
        | None => None
        | Some (exp_part, s5) => Some (sign ++ int_part ++ frac_part ++ exp_part, s5)
        end
      end
  end.

Fixpoint strip_prefix (p s : bytes) : option bytes :=
  match p, s with
  | [], _ => Some s
  | a :: p', b :: s' => if byte_eqb a b then strip_prefix p' s' else None
  | _ :: _, [] => None
  end.

(** [utf8.EncodeRune] for a rune that is not a surrogate and at most
    [0x10FFFF]. *)
Definition EncodeRune (r : Z) : bytes :=
  if r <? 128 then [byte_of r]
  else if r <? 2048 then
    [byte_of (192 + r / 64); byte_of (128 + r mod 64)]
  else if r <? 65536 then
    [byte_of (224 + r / 4096); byte_of (128 + (r / 64) mod 64); byte_of (128 + r mod 64)]
  else
    [byte_of (240 + r / 262144); byte_of (128 + (r / 4096) mod 64);
     byte_of (128 + (r / 64) mod 64); byte_of (128 + r mod 64)].

Definition ReplacementChar : Z := 65533.

Definition in_range (lo hi : Z) (c : ascii) : bool := (lo <=? code c) && (code c <=? hi).

(** [utf8.DecodeRune] at a byte of [0x80] and more: the size of the
    well-formed encoding that starts [s], or [None] for an ill-formed one
    (for which Go answers [RuneError] and size 1). *)
Definition rune_size (s : bytes) : option nat :=
  match s with
  | [] => None
  | c0 :: rest =>
    let n := code c0 in
    if (194 <=? n) && (n <=? 223) then
      match rest with
      | c1 :: _ => if in_range 128 191 c1 then Some 2%nat else None
      | _ => None
      end
    else if (224 <=? n) && (n <=? 239) then
      let lo := if n =? 224 then 160 else 128 in
      let hi := if n =? 237 then 159 else 191 in
      match rest with
      | c1 :: c2 :: _ =>
        if in_range lo hi c1 && in_range 128 191 c2 then Some 3%nat else None
      | _ => None
      end
    else if (240 <=? n) && (n <=? 244) then
      let lo := if n =? 240 then 144 else 128 in
      let hi := if n =? 244 then 143 else 191 in
      match rest with
      | c1 :: c2 :: c3 :: _ =>
        if in_range lo hi c1 && in_range 128 191 c2 && in_range 128 191 c3
        then Some 4%nat else None
      | _ => None
      end
    else None
  end.

Definition IsSurrogate (r : Z) : bool := (55296 <=? r) && (r <? 57344).

(** [utf16.DecodeRune]. *)
Definition utf16_DecodeRune (r1 r2 : Z) : Z :=
  if (55296 <=? r1) && (r1 <? 56320) && (56320 <=? r2) && (r2 <? 57344)
  then (r1 - 55296) * 1024 + (r2 - 56320) + 65536
  else ReplacementChar.

(** The [\uXXXX] at the head of [s], or [-1]. *)
Definition getu4_at (s : bytes) : Z :=
  match s with
  | b :: u :: h1 :: h2 :: h3 :: h4 :: _ =>
    if byte_eqb b backslash && byte_eqb u "u" then
      match getu4 h1 h2 h3 h4 with Some r => r | None => -1 end
    else -1
  | _ => -1
  end.

(** [unquoteBytes] on the body of a string literal the scanner has accepted:
    escapes are replaced and ill-formed UTF-8 is coerced to U+FFFD.  The
    fuel is the number of bytes left. *)
Fixpoint unquote_loop (fuel : nat) (s : bytes) : bytes :=
  match fuel with
  | O => []
  | S fuel' =>
    match s with
    | [] => []
    | c :: rest =>
      if byte_eqb c backslash then
        match rest with
        | [] => []
        | e :: rest' =>
          if byte_eqb e "u" then
            let rr := getu4_at s in
            let after := skipn 4 rest' in
            if IsSurrogate rr then
              let dec := utf16_DecodeRune rr (getu4_at after) in
              if negb (dec =? ReplacementChar)
              then EncodeRune dec ++ unquote_loop fuel' (skipn 6 after)
              else EncodeRune ReplacementChar ++ unquote_loop fuel' after
            else EncodeRune rr ++ unquote_loop fuel' after
          else
            let b := if byte_eqb e "b" then byte_of 8
                     else if byte_eqb e "f" then byte_of 12
                     else if byte_eqb e "n" then byte_of 10
                     else if byte_eqb e "r" then byte_of 13
                     else if byte_eqb e "t" then byte_of 9
                     else e in
            b :: unquote_loop fuel' rest'
        end
      else if code c <? 128 then c :: unquote_loop fuel' rest
      else match rune_size s with
           | Some size => firstn size s ++ unquote_loop fuel' (skipn size s)
           | None => EncodeRune ReplacementChar ++ unquote_loop fuel' rest
           end
    end
  end.

Definition unquote (body : bytes) : bytes := unquote_loop (List.length body) body.

Definition maxNestingDepth : Z := 10000.

(** The scanner and the reader of values: the value at the head of [s],
    after white space, and what follows it.  [depth] counts the arrays and
    objects that are open. *)
Fixpoint parse_value (fuel : nat) (depth : Z) (s : bytes) : option (json * bytes) :=
  match fuel with
  | O => None
  | S fuel' =>
    match skip_space s with
    | [] => None
    | c :: rest =>
      if byte_eqb c "[" then
        if maxNestingDepth <? depth + 1 then None
        else match skip_space rest with
             | c' :: rest' =>
               if byte_eqb c' "]" then Some (JArray [], rest')
               else parse_elements fuel' (depth + 1) rest []
             | [] => None
             end
      else if byte_eqb c "{" then
        if maxNestingDepth <? depth + 1 then None
        else match skip_space rest with
             | c' :: rest' =>
               if byte_eqb c' "}" then Some (JObject [], rest')
               else parse_members fuel' (depth + 1) rest []
             | [] => None
             end
      else if byte_eqb c dquote then
        match string_body rest with
        | Some (body, after) => Some (JString (unquote body), after)
        | None => None
        end
      else if byte_eqb c "-" || is_digit c then
        match number_literal (c :: rest) with
        | Some (literal, after) => Some (JNumber literal, after)
        | None => None
        end
      else if byte_eqb c "t" then
        match strip_prefix (B "rue") rest with
        | Some after => Some (JTrue, after)
        | None => None
        end
      else if byte_eqb c "f" then
        match strip_prefix (B "alse") rest with
        | Some after => Some (JFalse, after)
        | None => None
        end
      else if byte_eqb c "n" then
        match strip_prefix (B "ull") rest with
        | Some after => Some (JNull, after)
        | None => None
        end
      else None
    end
  end
with parse_elements (fuel : nat) (depth : Z) (s : bytes) (acc : list json)
  : option (json * bytes) :=
  match fuel with
  | O => None
  | S fuel' =>
    match parse_value fuel' depth s with
    | Some (v, after) =>
      match skip_space after with
      | c :: rest =>
        if byte_eqb c "," then parse_elements fuel' depth rest (v :: acc)
        else if byte_eqb c "]" then Some (JArray (rev (v :: acc)), rest)
        else None
      | [] => None
      end
    | None => None
    end
  end
with parse_members (fuel : nat) (depth : Z) (s : bytes) (acc : list (bytes * json))
  : option (json * bytes) :=
  match fuel with
  | O => None
  | S fuel' =>
    match skip_space s with
    | q :: rest =>
      if byte_eqb q dquote then
        match string_body rest with
        | Some (body, after) =>
          match skip_space after with
          | c :: rest1 =>
            if byte_eqb c ":" then
              match parse_value fuel' depth rest1 with
              | Some (v, after') =>
                match skip_space after' with
                | c' :: rest2 =>
                  if byte_eqb c' "," then parse_members fuel' depth rest2 ((unquote body, v) :: acc)
                  else if byte_eqb c' "}" then Some (JObject (rev ((unquote body, v) :: acc)), rest2)
                  else None
                | [] => None
                end
              | None => None
              end
            else None
          | [] => None
          end
        | None => None
        end
      else None
    | [] => None
    end
  end.

(** [checkValid] and the reading of the text in one: the value of a
    well-formed JSON text, [None] for a syntax error. *)
Definition parse (data : bytes) : option json :=
  match parse_value (2 * List.length data + 2) 0 data with
  | Some (v, after) =>
    match skip_space after with
    | [] => Some v
    | _ :: _ => None
    end
  | None => None
  end.

(** The value of a run of decimal digits. *)
Fixpoint decimal_value (ds : bytes) (n : Z) : Z :=
  match ds with
  | [] => n
  | c :: rest => decimal_value rest (n * 10 + (code c - 48))
  end.

(** [strconv.ParseFloat(literal, 64)] on a literal of the JSON number
    grammar: the binary64 nearest to the decimal value, ties to even, and
    whether the value is out of range (the result is then an infinity).
    The decimal is [mant * 10^e10]; a quotient is taken with 70 bits and
    more, the last of which says whether a remainder was dropped. *)
Definition ParseFloat (literal : bytes) : float * bool :=
  let (neg, s1) := match literal with
                   | c :: rest => if byte_eqb c "-" then (true, rest) else (false, literal)
                   | [] => (false, literal)
                   end in
  let (int_part, s2) := digits s1 in
  let (frac_part, s3) := match s2 with
                         | c :: rest => if byte_eqb c "." then digits rest else ([], s2)
                         | [] => ([], s2)
                         end in
  let e := match s3 with
           | _ :: g :: rest =>
             if byte_eqb g "-" then - decimal_value rest 0
             else if byte_eqb g "+" then decimal_value rest 0
             else decimal_value (g :: rest) 0
           | _ => 0
           end in
  let mant := decimal_value (int_part ++ frac_part) 0 in
  let e10 := e - len frac_part in
  let ndigits := len (int_part ++ frac_part) in
  let magnitude : spec_float :=
    if mant =? 0 then S754_zero false
    else if 400 <? e10 then S754_infinity false
    else if e10 + ndigits <? -400 then S754_zero false
    else if 0 <=? e10 then binary_normalize prec emax (mant * 10 ^ e10) 0 false
    else
      let den := 10 ^ (- e10) in
      let shift := Z.log2 den + 70 in
      let q := (mant * 2 ^ shift) / den in
      let sticky := if (mant * 2 ^ shift) mod den =? 0 then 0 else 1 in
      binary_normalize prec emax (2 * q + sticky) (- shift - 1) false in
  let f := SF2Prim magnitude in
  (if neg then PrimFloat.opp f else f, PrimFloat.is_infinity f).

(** ** The records of the log *)

(** A slice of results is [nil] ([None]) or has elements; the encoder
    tells the two apart. *)
Record DatabaseItem : Type := {
  Date : bytes;
  AvgDuration : float;
  TotalScore : Z;
  Results : option (list Result)
}.

Definition zero_Result : Result := {| Score := 0; Duration := 0; Count := 0 |}.

Definition zero_DatabaseItem : DatabaseItem :=
  {| Date := []; AvgDuration := 0; TotalScore := 0; Results := None |}.

(** The name of a key as the decoder folds it to find a field: the letters
    of ASCII in lower case, and the two runes that fold to a letter of
    ASCII, U+017F to [s] and U+212A to [k]. *)
Fixpoint fold_name (key : bytes) : bytes :=
  match key with
  | [] => []
  | c :: rest =>
    let n := code c in
    if (65 <=? n) && (n <=? 90) then byte_of (n + 32) :: fold_name rest
    else match rest with
         | c1 :: rest1 =>
           if (n =? 197) && (code c1 =? 191) then "s"%char :: fold_name rest1
           else match rest1 with
                | c2 :: rest2 =>
                  if (n =? 226) && (code c1 =? 132) && (code c2 =? 170)
                  then "k"%char :: fold_name rest2
                  else c :: fold_name rest
                | [] => c :: fold_name rest
                end
         | [] => c :: fold_name rest
         end
  end.

(** Whether [key] names the field whose tag is [name]: the same bytes, or
    the same under folding. *)
Definition names_field (key : bytes) (name : string) : bool :=
  bytes_eqb key (B name) || bytes_eqb (fold_name key) (B name).

(** What decoding one value into a field gives: the field, and whether the
    value did not fit. *)
Definition store_int (cur : Z) (v : json) : Z * bool :=
  match v with
  | JNull => (cur, false)
  | JNumber literal =>
    match ParseInt literal with
    | (n, None) => (n, false)
    | (_, Some _) => (cur, true)
    end
  | _ => (cur, true)
  end.

Definition store_float (cur : float) (v : json) : float * bool :=
  match v with
  | JNull => (cur, false)
  | JNumber literal =>
    let (f, range) := ParseFloat literal in
    if range then (cur, true) else (f, false)
  | _ => (cur, true)
  end.

Definition store_string (cur : bytes) (v : json) : bytes * bool :=
  match v with
  | JNull => (cur, false)
  | JString s => (s, false)
  | _ => (cur, true)
  end.

(** The members of an object, in order, into a [Result]. *)
Fixpoint store_Result_members (members : list (bytes * json)) (cur : Result) : Result * bool :=
  match members with
  | [] => (cur, false)
  | (key, v) :: rest =>
    let '(cur', bad) :=
      if names_field key "score" then
        let (n, bad) := store_int (Score cur) v in
        ({| Score := n; Duration := Duration cur; Count := Count cur |}, bad)
      else if names_field key "duration" then
        let (f, bad) := store_float (Duration cur) v in
        ({| Score := Score cur; Duration := f; Count := Count cur |}, bad)
      else if names_field key "count" then
        let (n, bad) := store_int (Count cur) v in
        ({| Score := Score cur; Duration := Duration cur; Count := n |}, bad)
      else (cur, false) in
    let '(final, bad') := store_Result_members rest cur' in
    (final, bad || bad')
  end.

Definition store_Result (cur : Result) (v : json) : Result * bool :=
  match v with
  | JNull => (cur, false)
  | JObject members => store_Result_members members cur
  | _ => (cur, true)
  end.

(** The elements of an array into a slice: element [i] is decoded into what
    the slice has at [i], or into a zero value beyond its length. *)
Fixpoint store_Result_elements (elems : list json) (old : list Result)
  : list Result * bool :=
  match elems with
  | [] => ([], false)
  | v :: rest =>
    let (r, bad) := store_Result (hd zero_Result old) v in
    let (rs, bad') := store_Result_elements rest (tl old) in
    (r :: rs, bad || bad')
  end.

Definition store_Results (cur : option (list Result)) (v : json)
  : option (list Result) * bool :=
  match v with
  | JNull => (None, false)
  | JArray elems =>
    let (rs, bad) :=
      store_Result_elements elems (match cur with Some old => old | None => [] end) in
    (Some rs, bad)
  | _ => (cur, true)
  end.

Fixpoint store_DatabaseItem_members (members : list (bytes * json)) (cur : DatabaseItem)
  : DatabaseItem * bool :=
  match members with
  | [] => (cur, false)
  | (key, v) :: rest =>
    let '(cur', bad) :=
      if names_field key "date" then
        let (s, bad) := store_string (Date cur) v in
        ({| Date := s; AvgDuration := AvgDuration cur;
            TotalScore := TotalScore cur; Results := Results cur |}, bad)
      else if names_field key "avg_duration" then
        let (f, bad) := store_float (AvgDuration cur) v in
        ({| Date := Date cur; AvgDuration := f;
            TotalScore := TotalScore cur; Results := Results cur |}, bad)
      else if names_field key "total_score" then
        let (n, bad) := store_int (TotalScore cur) v in
        ({| Date := Date cur; AvgDuration := AvgDuration cur;
            TotalScore := n; Results := Results cur |}, bad)
      else if names_field key "results" then
        let (rs, bad) := store_Results (Results cur) v in
        ({| Date := Date cur; AvgDuration := AvgDuration cur;
            TotalScore := TotalScore cur; Results := rs |}, bad)
      else (cur, false) in
    let '(final, bad') := store_DatabaseItem_members rest cur' in
    (final, bad || bad')
  end.

Definition store_DatabaseItem (cur : DatabaseItem) (v : json) : DatabaseItem * bool :=
  match v with
  | JNull => (cur, false)
  | JObject members => store_DatabaseItem_members members cur
  | _ => (cur, true)
  end.

Fixpoint store_DatabaseItem_elements (elems : list json) (old : list DatabaseItem)
  : list DatabaseItem * bool :=
  match elems with
  | [] => ([], false)
  | v :: rest =>
    let (item, bad) := store_DatabaseItem (hd zero_DatabaseItem old) v in
    let (items, bad') := store_DatabaseItem_elements rest (tl old) in
    (item :: items, bad || bad')
  end.

Definition store_database (cur : list DatabaseItem) (v : json) : list DatabaseItem * bool :=
  match v with
  | JNull => ([], false)
  | JArray elems => store_DatabaseItem_elements elems cur
  | _ => (cur, true)
  end.

Inductive UnmarshalError : Type := SyntaxError | UnmarshalTypeError.

(** [json.Unmarshal(data, &database)]: the database afterwards, and the
    error returned. *)
Definition json_Unmarshal (data : bytes) (database : list DatabaseItem)
  : list DatabaseItem * option UnmarshalError :=
  match parse data with
  | None => (database, Some SyntaxError)
  | Some v =>
    let (database', bad) := store_database database v in
    (database', if bad then Some UnmarshalTypeError else None)
  end.

(** ** encoding/json: the encoder

    [json.Marshal] refuses a float that is not finite; the text it gives
    for the rest is [encode], which this development leaves open. *)

Definition finite_Result (r : Result) : bool := PrimFloat.is_finite (Duration r).

Definition finite_DatabaseItem (item : DatabaseItem) : bool :=
  PrimFloat.is_finite (AvgDuration item) &&
  match Results item with
  | Some rs => forallb finite_Result rs
  | None => true
  end.

Definition json_Marshal (encode : list DatabaseItem -> bytes) (database : list DatabaseItem)
  : option bytes :=
  if forallb finite_DatabaseItem database then Some (encode database) else None.

(** ** The log file *)

(** [fd.WriteAt(b, off)] on a file of content [old]: the bytes of [b] replace
    those at [off] and after, the file grows when they reach past its end,
    and nothing else moves. *)
Definition WriteAt (old b : bytes) (off : Z) : bytes :=
  if off <? 0 then old
  else
    let n := Z.to_nat off in
    firstn n old ++ repeat Ascii.zero (n - List.length old) ++ b
           ++ skipn (n + List.length b) old.

Definition set_disk (w : World) (file : bytes) (n : node) : World :=
  {| rand_calls := rand_calls w; scan_calls := scan_calls w;
     now_calls := now_calls w; poll_calls := poll_calls w;
     flush_calls := flush_calls w;
     disk := fun path => if bytes_eqb path file then n else disk w path |}.

(** [os.OpenFile(file, os.O_RDWR|os.O_CREATE, 0600)]: the descriptor, which
    is the path here, or [None] for an error.  A file that is not there is
    created empty. *)
Definition os_OpenFile (file : bytes) : Go (option bytes) :=
  fun w =>
    match disk w file with
    | NoAccess => Returned (None, w)
    | NoFile => Returned (Some file, set_disk w file (File []))
    | File _ | Unreadable _ => Returned (Some file, w)
    end.

(** [ioutil.ReadAll(fd)] on a descriptor just opened: the whole content, or
    [None] for an error. *)
Definition ioutil_ReadAll (fd : bytes) : Go (option bytes) :=
  fun w =>
    match disk w fd with
    | File content => Returned (Some content, w)
    | _ => Returned (None, w)
    end.

(** [fd.WriteAt(b, off)] with its results dropped. *)
Definition fd_WriteAt (fd : bytes) (b : bytes) (off : Z) : Go unit :=
  fun w =>
    match disk w fd with
    | File old => Returned (tt, set_disk w fd (File (WriteAt old b off)))
    | _ => Returned (tt, w)
    end.

(** What [docopt.Parse] hands to [main]: the values of the options. *)
Record Args : Type := {
  arg_dry : bool;
  arg_f : bytes;
  arg_n : bytes;
  arg_c : bytes;
  arg_i : bytes;
  arg_a : bytes
}.

(** [file[:2] == "~/"] and [os.Getenv("HOME") + file[1:]]: slicing a string
    shorter than two bytes panics. *)
Definition expand_home (env : Env) (file : bytes) : Go bytes :=
  if len file <? 2 then panic "slice bounds out of range"
  else if bytes_eqb (firstn 2 file) (B "~/") then ret (HOME env ++ skipn 1 file)
  else ret file.

(** [sumScore += result.Score] on an [int]. *)
Definition add_int (a b : Z) : Z := (a + b + 2 ^ 63) mod 2 ^ 64 - 2 ^ 63.

(** ** The two programs *)

Module Plain.

(** The [for index := 0; index < length; index++] loop of [compare]. *)
Fixpoint compare_loop (fuel : nat) (validNumbers inputNumbers : list Z)
         (length index score : Z) : outcome Z :=
  if index <? length then
    match fuel with
    | O => OutOfFuel
    | S fuel' =>
      obind (index_at validNumbers index) (fun v =>
      obind (index_at inputNumbers index) (fun u =>
      if v =? u
      then compare_loop fuel' validNumbers inputNumbers length (index + 1) (score + 1)
      else Returned score))
    end
  else Returned score.

Definition compare (validNumbers inputNumbers : list Z) : outcome Z :=
  let length := len inputNumbers in
  let length := if len validNumbers <? length then len validNumbers else length in
  compare_loop (Z.to_nat length) validNumbers inputNumbers length 0 0.

(** The loop of [generateRandomNumbers]; a rejected draw takes [i] back by
    one before the loop's [i++]. *)
Fixpoint generate_loop (fuel : nat) (env : Env) (min max count i : Z)
         (numbers : list Z) : Go (list Z) :=
  if i <? count then
    match fuel with
    | O => out_of_fuel
    | S fuel' =>
      bigNumber <- rand_Int env max ;;
      number <- Int64 bigNumber ;;
      if number <? min
      then generate_loop fuel' env min max count (i - 1 + 1) numbers
      else generate_loop fuel' env min max count (i + 1) (numbers ++ [number])
    end
  else ret numbers.

Definition generateRandomNumbers (fuel : nat) (env : Env) (min max count : Z)
  : Go (list Z) :=
  generate_loop fuel env min max count 0 [].

(** The [for _, piece := range pieces] loop of the input collector. *)
Fixpoint pieces_loop (pieces : list bytes) (numbers : list Z) : list Z :=
  match pieces with
  | [] => numbers
  | piece :: rest =>
    let number := fst (Atoi piece) in
    pieces_loop rest (numbers ++ [number])
  end.

(** The input collector: one line of stdin, split at the spaces. *)
Definition getNumbersFromStdin (env : Env) : Go (list Z) :=
  let numbers := [] in
  scanned <- Scan env ;;
  match scanned with
  | Some text =>
    let pieces := Split text " " in
    ret (pieces_loop pieces numbers)
  | None => ret numbers
  end.

(** [exec.Command("clear")] run with its result dropped, and
    [fmt.Scanf("%s", &ready)] with its results dropped: what they do to the
    terminal shows in the answers of the environment only. *)
Definition clearScreen : Go unit := ret tt.
Definition wait : Go unit := ret tt.

(** One trial.  What [fmt.Println] prints ([shown]) is not part of the
    world. *)
Definition runTest (fuel : nat) (env : Env) (minNumber maxNumber numbersCount : Z)
  : Go Result :=
  validNumbers <- generateRandomNumbers fuel env minNumber maxNumber numbersCount ;;
  let strs := map Itoa validNumbers in
  timeStart <- time_Now env ;;
  let shown := Join strs (B " ") in
  wait ;;;
  clearScreen ;;;
  userNumbers <- getNumbersFromStdin env ;;
  timeFinish <- time_Now env ;;
  clearScreen ;;;
  score <- lift (compare validNumbers userNumbers) ;;
  let duration := Seconds (Time_Sub timeFinish timeStart) in
  ret {| Score := score; Duration := duration; Count := numbersCount |}.

(** The result store.  [fd.Close] is deferred and its result dropped, as
    are the results of [json.Unmarshal] and of [fd.WriteAt]. *)
Definition saveResults (encode : list DatabaseItem -> bytes) (env : Env) (file : bytes)
           (results : list Result) (totalScore : Z) (avgDuration : float) : Go unit :=
  fd <- os_OpenFile file ;;
  match fd with
  | None => panic "open"
  | Some fd =>
    content <- ioutil_ReadAll fd ;;
    match content with
    | None => panic "read"
    | Some content =>
      let database := [] in
      let database := fst (json_Unmarshal content database) in
      now <- time_Now env ;;
      let database := database ++ [{| Date := Time_String now;
                                      AvgDuration := avgDuration;
                                      TotalScore := totalScore;
                                      Results := Some results |}] in
      match json_Marshal encode database with
      | None => panic "json: unsupported value"
      | Some content => fd_WriteAt fd content 0
      end
    end
  end.

(** The two sums of [main], over the results in order. *)
Definition sum_results (results : list Result) : Z * float :=
  fold_left (fun sums result =>
               (add_int (fst sums) (Score result),
                (snd sums + Duration result)%float))
            results (0, 0%float).

(** The [for i := 0; i < testsCount; i++] loop of [main]. *)
Fixpoint main_loop (fuel : nat) (env : Env) (dry : bool)
         (minNumber maxNumber numbersCount testsCount i : Z) (results : list Result)
  : Go (list Result) :=
  if i <? testsCount then
    match fuel with
    | O => out_of_fuel
    | S fuel' =>
      result <- runTest fuel' env minNumber maxNumber numbersCount ;;
      (if dry then wait ;;; clearScreen else ret tt) ;;;
      main_loop fuel' env dry minNumber maxNumber numbersCount testsCount (i + 1)
                (results ++ [result])
    end
  else ret results.

(** [main], from the options on.  With [--dry] it prints the score and the
    duration of each trial and their totals; the printing is not part of
    the world. *)
Definition main (fuel : nat) (encode : list DatabaseItem -> bytes) (env : Env) (args : Args)
  : Go unit :=
  let dry := arg_dry args in
  file <- expand_home env (arg_f args) ;;
  let testsCount := fst (Atoi (arg_n args)) in
  let numbersCount := fst (Atoi (arg_c args)) in
  let minNumber := fst (Atoi (arg_i args)) in
  let maxNumber := fst (Atoi (arg_a args)) in
  clearScreen ;;;
  results <- main_loop fuel env dry minNumber maxNumber numbersCount testsCount 0 [] ;;
  let (sumScore, sumDuration) := sum_results results in
  let avgDuration := (sumDuration / float64_of_int (len results))%float in
  saveResults encode env file results sumScore avgDuration.

End Plain.

Module Termbox.

Fixpoint compare_loop (fuel : nat) (validNumbers inputNumbers : list Z)
         (length index score : Z) : outcome Z :=
  if index <? length then
    match fuel with
    | O => OutOfFuel
    | S fuel' =>
      obind (index_at validNumbers index) (fun v =>
      obind (index_at inputNumbers index) (fun u =>
      if v =? u
      then compare_loop fuel' validNumbers inputNumbers length (index + 1) (score + 1)
      else Returned score))
    end
  else Returned score.

Definition compare (validNumbers inputNumbers : list Z) : outcome Z :=
  let length := len inputNumbers in
  let length := if len validNumbers <? length then len validNumbers else length in
  compare_loop (Z.to_nat length) validNumbers inputNumbers length 0 0.

Fixpoint generate_loop (fuel : nat) (env : Env) (min max count i : Z)
         (numbers : list Z) : Go (list Z) :=
  if i <? count then
    match fuel with
    | O => out_of_fuel
    | S fuel' =>
      bigNumber <- rand_Int env max ;;
      number <- Int64 bigNumber ;;
      if number <? min
      then generate_loop fuel' env min max count (i - 1 + 1) numbers
      else generate_loop fuel' env min max count (i + 1) (numbers ++ [number])
    end
  else ret numbers.

Definition generateRandomNumbers (fuel : nat) (env : Env) (min max count : Z)
  : Go (list Z) :=
  generate_loop fuel env min max count 0 [].

(** [termbox.Clear] and a [Flush] whose error panics. *)
Definition clearScreen (env : Env) : Go unit :=
  err <- Flush env ;;
  if err then panic "termbox.Flush" else ret tt.

(** The cells drawn are not part of the world; the [Flush] is, and its
    error is dropped. *)
Definition printText (env : Env) (text : bytes) (x y : Z) : Go unit :=
  _ <- Flush env ;; ret tt.

(** [termbox.Close()] then [os.Exit(0)]. *)
Definition quit {A} : Go A := os_Exit 0.

(** Events are polled until Enter is pressed. *)
Fixpoint wait (fuel : nat) (env : Env) : Go unit :=
  match fuel with
  | O => out_of_fuel
  | S fuel' =>
    event <- PollEvent env ;;
    if negb (isEventKey event) then wait fuel' env
    else match EvKey event with
         | KeyEnter => ret tt
         | KeyCtrlC | KeyCtrlZ => quit
         | _ => wait fuel' env
         end
  end.

(** The text typed up to Enter: a digit is appended, Space appends a
    space, Backspace takes the last byte away. *)
Fixpoint readText (fuel : nat) (env : Env) (x y : Z) (text : bytes) : Go bytes :=
  match fuel with
  | O => out_of_fuel
  | S fuel' =>
    event <- PollEvent env ;;
    if negb (isEventKey event) then readText fuel' env x y text
    else
      let text :=
        if (48 <=? Ch event) && (Ch event <=? 57)
        then text ++ [byte_of (Ch event)] else text in
      match EvKey event with
      | KeySpace =>
        let text := text ++ B " " in
        printText env text x y ;;; readText fuel' env x y text
      | KeyBackspace2 =>
        if len text =? 0
        then printText env text x y ;;; readText fuel' env x y text
        else
          let text := firstn (Z.to_nat (len text - 1)) text in
          clearScreen env ;;;
          printText env text x y ;;;
          printText env text x y ;;; readText fuel' env x y text
      | KeyEnter => ret text
      | KeyCtrlC | KeyCtrlZ => quit
      | KeyOther _ => printText env text x y ;;; readText fuel' env x y text
      end
  end.

Fixpoint pieces_loop (pieces : list bytes) (numbers : list Z) : list Z :=
  match pieces with
  | [] => numbers
  | piece :: rest =>
    let number := fst (Atoi piece) in
    pieces_loop rest (numbers ++ [number])
  end.

(** The input collector: the text typed, split at the spaces. *)
Definition getNumbers (fuel : nat) (env : Env) (x y : Z) : Go (list Z) :=
  let numbers := [] in
  text <- readText fuel env x y [] ;;
  let pieces := Split text " " in
  ret (pieces_loop pieces numbers).

(** One trial.  The cursor and the cells set are not part of the world;
    [x] is where the loop over the symbols of [wholeTest] leaves it. *)
Definition runTest (fuel : nat) (env : Env) (minNumber maxNumber numbersCount : Z)
  : Go Result :=
  validNumbers <- generateRandomNumbers fuel env minNumber maxNumber numbersCount ;;
  let numberStrings := map Itoa validNumbers in
  let wholeTest := Join numberStrings (B " ") in
  let '(width, height) := Size env in
  timeStart <- time_Now env ;;
  let x := Z.quot width 2 - Z.quot (len wholeTest) 2 in
  let y := Z.quot height 2 in
  let x := x + len wholeTest in
  _ <- Flush env ;;
  wait fuel env ;;;
  timeFinish <- time_Now env ;;
  clearScreen env ;;;
  _ <- Flush env ;;
  userNumbers <- getNumbers fuel env (x - len wholeTest) y ;;
  clearScreen env ;;;
  score <- lift (compare validNumbers userNumbers) ;;
  let duration := Seconds (Time_Sub timeFinish timeStart) in
  ret {| Score := score; Duration := duration; Count := numbersCount |}.

(** The result store.  [fd.Close] is deferred and its result dropped, as
    are the results of [json.Unmarshal] and of [fd.WriteAt]. *)
Definition saveResults (encode : list DatabaseItem -> bytes) (env : Env) (file : bytes)
           (results : list Result) (totalScore : Z) (avgDuration : float) : Go unit :=
  fd <- os_OpenFile file ;;
  match fd with
  | None => panic "open"
  | Some fd =>
    content <- ioutil_ReadAll fd ;;
    match content with
    | None => panic "read"
    | Some content =>
      let database := [] in
      let database := fst (json_Unmarshal content database) in
      now <- time_Now env ;;
      let database := database ++ [{| Date := Time_String now;
                                      AvgDuration := avgDuration;
                                      TotalScore := totalScore;
                                      Results := Some results |}] in
      match json_Marshal encode database with
      | None => panic "json: unsupported value"
      | Some content => fd_WriteAt fd content 0
      end
    end
  end.

(** The two sums of [main], over the results in order. *)
Definition sum_results (results : list Result) : Z * float :=
  fold_left (fun sums result =>
               (add_int (fst sums) (Score result),
                (snd sums + Duration result)%float))
            results (0, 0%float).

Fixpoint main_loop (fuel : nat) (env : Env)
         (minNumber maxNumber numbersCount testsCount i : Z) (results : list Result)
  : Go (list Result) :=
  if i <? testsCount then
    match fuel with
    | O => out_of_fuel
    | S fuel' =>
      result <- runTest fuel' env minNumber maxNumber numbersCount ;;
      main_loop fuel' env minNumber maxNumber numbersCount testsCount (i + 1)
                (results ++ [result])
    end
  else ret results.

Definition main (fuel : nat) (encode : list DatabaseItem -> bytes) (env : Env) (args : Args)
  : Go unit :=
  file <- expand_home env (arg_f args) ;;
  let testsCount := fst (Atoi (arg_n args)) in
  let numbersCount := fst (Atoi (arg_c args)) in
  let minNumber := fst (Atoi (arg_i args)) in
  let maxNumber := fst (Atoi (arg_a args)) in
  (if Init_error env then panic "termbox.Init" else ret tt) ;;;
  clearScreen env ;;;
  results <- main_loop fuel env minNumber maxNumber numbersCount testsCount 0 [] ;;
  let (sumScore, sumDuration) := sum_results results in
  let avgDuration := (sumDuration / float64_of_int (len results))%float in
  saveResults encode env file results sumScore avgDuration.

End Termbox.


(** ** What the claims are stated with *)

(** The number of leading positions at which two sequences agree. *)
Fixpoint common_prefix (a b : list Z) : nat :=
  match a, b with
  | x :: a', y :: b' => if x =? y then S (common_prefix a' b') else O
  | _, _ => O
  end.

(** The draws the generator keeps among the next [n] answers of the random
    source from call [start] on: those not below [min], in order, up to the
    first failure of the reader. *)
Fixpoint accepted (env : Env) (min : Z) (start n : nat) : list Z :=
  match n with
  | O => []
  | S n' =>
    match rand_Int_result env start with
    | Some v => if v <? min then accepted env min (S start) n'
                else v :: accepted env min (S start) n'
    | None => []
    end
  end.

(** The database [saveResults] appends to: what the decoder leaves in the
    empty database it is given. *)
Definition load (content : bytes) : list DatabaseItem :=
  fst (json_Unmarshal content []).

(** The record [saveResults] appends. *)
Definition new_item (now : Time) (results : list Result) (totalScore : Z)
           (avgDuration : float) : DatabaseItem :=
  {| Date := Time_String now; AvgDuration := avgDuration;
     TotalScore := totalScore; Results := Some results |}.

(** A reader [run] of a value started with [f] units of fuel: when it reads
    a value it takes at least one byte, and any fuel of twice the bytes it
    took reads the same. *)
Definition fuel_independent {X} (run : nat -> bytes -> option (X * bytes))
           (f : nat) : Prop :=
  forall s v r,
    run f s = Some (v, r) ->
    (List.length r < List.length s)%nat /\
    forall f', (2 * (List.length s - List.length r) <= f')%nat -> run f' s = Some (v, r).

(** A call that leaves the disk as it found it. *)
Definition keeps_disk {A} (m : Go A) : Prop :=
  forall w a w', m w = Returned (a, w') -> disk w' = disk w.

(** The two programs by name. *)
Inductive program : Type := PlainProgram | TermboxProgram.

Definition main_of (p : program)
  : nat -> (list DatabaseItem -> bytes) -> Env -> Args -> Go unit :=
  match p with
  | PlainProgram => Plain.main
  | TermboxProgram => Termbox.main
  end.

Definition runTest_of (p : program) : nat -> Env -> Z -> Z -> Z -> Go Result :=
  match p with
  | PlainProgram => Plain.runTest
  | TermboxProgram => Termbox.runTest
  end.

(** The results of [k] trials run one after the other, the first trial
    first; each trial has the fuel the loop of [main] has left. *)
Fixpoint trials_in_order (runTest : nat -> Go Result) (fuel : nat) (k : nat)
  : Go (list Result) :=
  match k with
  | O => ret []
  | S k' =>
    match fuel with
    | O => out_of_fuel
    | S fuel' =>
      result <- runTest fuel' ;;
      results <- trials_in_order runTest fuel' k' ;;
      ret (result :: results)
    end
  end.


(** A JSON text written with apostrophes for its double quotes. *)
Definition json_text (s : string) : bytes :=
  map (fun c => if byte_eqb c "'" then dquote else c) (B s).

(** ** A sample environment

    A random source that answers 0, 7, 14, ... below 99, a user who types
    [14 21] at every prompt of the plain program and, at the full-screen
    one, presses Enter and then types [14 21] and Enter, and a clock that
    advances by a second and a half between two readings. *)

Definition key_event (k : Key) (ch : Z) : Event :=
  {| isEventKey := true; EvKey := k; Ch := ch |}.

Definition sample_events : list Event :=
  [ key_event KeyEnter 0;
    key_event (KeyOther 0) 49; key_event (KeyOther 0) 52;
    key_event KeySpace 0;
    key_event (KeyOther 0) 50; key_event (KeyOther 0) 49;
    key_event KeyEnter 0 ].

Definition sample_env : Env :=
  {| rand_Int_result := fun k => Some ((Z.of_nat k * 7) mod 99);
     Scan_result := fun _ => Some (B "14 21");
     Now_result := fun k => {| mono := Z.of_nat k * 1500000000;
                               Time_String := B "2014-06-01 12:00:00 +0000 UTC" |};
     PollEvent_result := fun k => nth (k mod 7) sample_events (key_event KeyEnter 0);
     Flush_error := fun _ => false;
     Init_error := false;
     Size := (80, 24);
     HOME := B "/home/user" |}.

(** A world in which nothing has been asked yet and the disk has [n] at
    the path [file] and nothing elsewhere. *)
Definition fresh_world (file : bytes) (n : node) : World :=
  {| rand_calls := 0; scan_calls := 0; now_calls := 0; poll_calls := 0;
     flush_calls := 0;
     disk := fun path => if bytes_eqb path file then n else NoFile |}.

(** The world at the prompt of the full-screen program, the first Enter
    taken. *)
Definition world_at_prompt : World :=
  {| rand_calls := 0; scan_calls := 0; now_calls := 0; poll_calls := 1;
     flush_calls := 0; disk := fun _ => NoFile |}.

(** The world once [14 21] and Enter are typed there: six events polled,
    five redraws. *)
Definition world_after_typing : World :=
  {| rand_calls := 0; scan_calls := 0; now_calls := 0; poll_calls := 7;
     flush_calls := 5; disk := fun _ => NoFile |}.



(** ** Sample logs and runs *)

Definition log_path : bytes := B "/home/user/.config/short-term".

(** A log of one record, as the program writes it. *)
Definition one_record_log : bytes :=
  json_text "[{'date':'2014-05-31 09:00:00 +0000 UTC','avg_duration':1.5,'total_score':3,'results':[{'score':3,'duration':1.5,'count':3}]}]".

Definition one_record : DatabaseItem :=
  {| Date := B "2014-05-31 09:00:00 +0000 UTC"; AvgDuration := 1.5; TotalScore := 3;
     Results := Some [{| Score := 3; Duration := 1.5; Count := 3 |}] |}.

(** The same record in a log that its owner has annotated. *)
Definition annotated_log : bytes :=
  json_text "[{'date':'2014-05-31 09:00:00 +0000 UTC','avg_duration':1.5,'total_score':3,'results':[{'score':3,'duration':1.5,'count':3}],'comment':'first session after a long break, on the small terminal; the numbers were shown for too long and the last two were guessed, so this one should not count for much'}]".

(** The results of a run of one trial, and its record. *)
Definition one_trial : list Result := [{| Score := 2; Duration := 1.5; Count := 3 |}].

Definition one_trial_record : DatabaseItem :=
  new_item (Now_result sample_env 0) one_trial 2 1.5.

(** The text of [json.Marshal] for [one_record] followed by
    [one_trial_record]. *)
Definition two_record_text : bytes :=
  json_text "[{'date':'2014-05-31 09:00:00 +0000 UTC','avg_duration':1.5,'total_score':3,'results':[{'score':3,'duration':1.5,'count':3}]},{'date':'2014-06-01 12:00:00 +0000 UTC','avg_duration':1.5,'total_score':2,'results':[{'score':2,'duration':1.5,'count':3}]}]".

(** An encoder that keeps the shape of the database only; it stands for
    [encode] where the bytes written do not matter. *)
Definition shape_encode (database : list DatabaseItem) : bytes :=
  B "[" ++ Join (map (fun _ => B "{}") database) (B ",") ++ B "]".

(** The options of a run of no trial, the others at their defaults. *)
Definition zero_trials_args : Args :=
  {| arg_dry := false; arg_f := B "~/.config/short-term";
     arg_n := B "0"; arg_c := B "7"; arg_i := B "10"; arg_a := B "99" |}.

(** The options of a run of two trials of three numbers. *)
Definition two_trials_args : Args :=
  {| arg_dry := false; arg_f := B "~/.config/short-term";
     arg_n := B "2"; arg_c := B "3"; arg_i := B "10"; arg_a := B "99" |}.

(** What a call returns, the world left out. *)
Definition result_of {A} (o : outcome (A * World)) : outcome A :=
  match o with
  | Returned (a, _) => Returned a
  | Panicked why => Panicked why
  | Exited c => Exited c
  | OutOfFuel => OutOfFuel
  end.

(** The world once [time.Now] has been called. *)
Definition after_Now (w : World) : World :=
  {| rand_calls := rand_calls w; scan_calls := scan_calls w;
     now_calls := S (now_calls w); poll_calls := poll_calls w;
     flush_calls := flush_calls w; disk := disk w |}.

(** ** What the further properties are stated with *)

Definition compare_of (p : program) : list Z -> list Z -> outcome Z :=
  match p with
  | PlainProgram => Plain.compare
  | TermboxProgram => Termbox.compare
  end.

Definition generateRandomNumbers_of (p : program)
  : nat -> Env -> Z -> Z -> Z -> Go (list Z) :=
  match p with
  | PlainProgram => Plain.generateRandomNumbers
  | TermboxProgram => Termbox.generateRandomNumbers
  end.

Definition saveResults_of (p : program)
  : (list DatabaseItem -> bytes) -> Env -> bytes -> list Result -> Z -> float -> Go unit :=
  match p with
  | PlainProgram => Plain.saveResults
  | TermboxProgram => Termbox.saveResults
  end.

(** A byte that is a decimal digit. *)
Definition digit_byte (c : ascii) : Prop := is_digit c = true.

(** What the user does at the prompt of the full-screen program, one event
    each: a digit or a space is typed, the last byte is rubbed out, or
    something happens that [readText] does not take as input. *)
Inductive stroke : Type :=
| Typed (c : ascii)
| Rubout
| Skipped (e : Event).

Definition is_digit_rune (ch : Z) : bool := (48 <=? ch) && (ch <=? 57).

Definition stroke_event (s : stroke) : Event :=
  match s with
  | Typed c => if byte_eqb c " " then key_event KeySpace 0
               else key_event (KeyOther 0) (code c)
  | Rubout => key_event KeyBackspace2 0
  | Skipped e => e
  end.

(** A stroke types a digit or a space; what is skipped is an event that is
    not of a key, or a key other than those [readText] names, with no digit
    for its rune. *)
Definition stroke_ok (s : stroke) : Prop :=
  match s with
  | Typed c => is_digit c = true \/ c = " "%char
  | Rubout => True
  | Skipped e =>
    isEventKey e = false \/
    (is_digit_rune (Ch e) = false /\ exists k, EvKey e = KeyOther k)
  end.

(** The text that strokes make of [text]. *)
Fixpoint strokes_text (strokes : list stroke) (text : bytes) : bytes :=
  match strokes with
  | [] => text
  | Typed c :: rest => strokes_text rest (text ++ [c])
  | Rubout :: rest => strokes_text rest (removelast text)
  | Skipped _ :: rest => strokes_text rest text
  end.

(** The world after [polls] more events polled and [flushes] more flushes. *)
Definition polled (w : World) (polls flushes : nat) : World :=
  {| rand_calls := rand_calls w; scan_calls := scan_calls w; now_calls := now_calls w;
     poll_calls := poll_calls w + polls; flush_calls := flush_calls w + flushes;
     disk := disk w |}.

(** An event that [wait] passes over: not of a key, or of a key other than
    Enter, Ctrl-C and Ctrl-Z. *)
Definition passed_over (e : Event) : bool :=
  negb (isEventKey e) ||
  match EvKey e with
  | KeyEnter | KeyCtrlC | KeyCtrlZ => false
  | _ => true
  end.

(** A byte the prompt of the full-screen program can hold. *)
Definition digit_or_space (c : ascii) : Prop := is_digit c = true \/ c = " "%char.

(** The path of the log: the value of [-f] with a leading [~] replaced by
    [$HOME]. *)
Definition log_file (env : Env) (args : Args) : bytes :=
  if bytes_eqb (firstn 2 (arg_f args)) (B "~/")
  then HOME env ++ skipn 1 (arg_f args)
  else arg_f args.

(** The sum of the scores, in the integers. *)
Definition total_score (results : list Result) : Z :=
  fold_right Z.add 0 (map Score results).

(** A call that does not read the clock. *)
Definition keeps_clock {A} (m : Go A) : Prop :=
  forall w a w', m w = Returned (a, w') -> now_calls w' = now_calls w.

(** The input collector of each program. *)
Definition collector_of (p : program) (fuel : nat) (env : Env) (x y : Z) : Go (list Z) :=
  match p with
  | PlainProgram => Plain.getNumbersFromStdin env
  | TermboxProgram => Termbox.getNumbers fuel env x y
  end.

(** The collector of [p], called at [w], is handed the line [text] and the
    world [w1] by what it reads with: the scanner of the plain program, the
    prompt of the full-screen one. *)
Definition line_read (p : program) (fuel : nat) (env : Env) (x y : Z)
           (text : bytes) (w w1 : World) : Prop :=
  match p with
  | PlainProgram => Scan env w = Returned (Some text, w1)
  | TermboxProgram => Termbox.readText fuel env x y [] w = Returned (text, w1)
  end.

(** The sample environment with a user who answers every prompt of the
    plain program with the line [text]. *)
Definition line_env (text : bytes) : Env :=
  {| rand_Int_result := rand_Int_result sample_env;
     Scan_result := fun _ => Some text;
     Now_result := Now_result sample_env;
     PollEvent_result := PollEvent_result sample_env;
     Flush_error := Flush_error sample_env;
     Init_error := false;
     Size := (80, 24);
     HOME := B "/home/user" |}.

(** What [main] of the full-screen program needs of the terminal before
    the first trial: [termbox.Init] and the [Flush] of the first
    [clearScreen] return no error.  The plain program needs nothing. *)
Definition terminal_ready (p : program) (env : Env) (w : World) : Prop :=
  match p with
  | PlainProgram => True
  | TermboxProgram => Init_error env = false /\ Flush_error env (flush_calls w) = false
  end.

(** The world in which [main] runs its first trial: that of its start, one
    [Flush] later in the full-screen program. *)
Definition world_at_first_trial (p : program) (w : World) : World :=
  match p with
  | PlainProgram => w
  | TermboxProgram =>
    {| rand_calls := rand_calls w; scan_calls := scan_calls w;
       now_calls := now_calls w; poll_calls := poll_calls w;
       flush_calls := S (flush_calls w); disk := disk w |}
  end.


(** The panic of [saveResults] on a log it cannot open, or cannot read. *)
Definition log_panic (n : node) : string :=
  match n with
  | NoAccess => "open"
  | _ => "read"
  end.

(** * Properties *)

(** ** The scorer *)

Section Scorer.

Lemma skipn_cons_nth_error (A : Type) (l : list A) (i : nat) (x : A) :
  nth_error l i = Some x -> skipn i l = x :: skipn (S i) l.
Proof.
  revert l; induction i as [|i IH]; intros [|y l] H; simpl in *; try discriminate.
  - now inversion H.
  - now apply IH.
Qed.

Lemma index_at_in_range (s : list Z) (i : nat) :
  (i < List.length s)%nat ->
  exists v, nth_error s i = Some v /\ index_at s (Z.of_nat i) = Returned v.
Proof.
  intros Hi. unfold index_at, len.
  destruct (nth_error s i) as [v|] eqn:E.
  - exists v. split; [reflexivity|].
    replace (Z.of_nat i <? 0) with false by (symmetry; apply Z.ltb_ge; lia).
    replace (Z.of_nat (List.length s) <=? Z.of_nat i) with false
      by (symmetry; apply Z.leb_gt; lia).
    simpl. now rewrite Nat2Z.id, E.
  - apply nth_error_None in E. lia.
Qed.

Lemma common_prefix_le (a b : list Z) :
  (common_prefix a b <= Nat.min (List.length a) (List.length b))%nat.
Proof.
  revert b; induction a as [|x a IH]; intros [|y b]; simpl; try lia.
  destruct (x =? y); [specialize (IH b)|]; lia.
Qed.

Lemma common_prefix_firstn (a b : list Z) :
  firstn (common_prefix a b) a = firstn (common_prefix a b) b.
Proof.
  revert b; induction a as [|x a IH]; intros [|y b]; simpl; try reflexivity.
  destruct (x =? y) eqn:E; simpl; [|reflexivity].
  apply Z.eqb_eq in E. subst. now rewrite IH.
Qed.

Lemma common_prefix_mismatch (a b : list Z) :
  (common_prefix a b < Nat.min (List.length a) (List.length b))%nat ->
  nth_error a (common_prefix a b) <> nth_error b (common_prefix a b).
Proof.
  revert b; induction a as [|x a IH]; intros [|y b]; simpl; try lia.
  destruct (x =? y) eqn:E; simpl.
  - intros H. apply IH. lia.
  - intros _ H. inversion H. subst. now rewrite Z.eqb_refl in E.
Qed.

Lemma common_prefix_longest (a b : list Z) (j : nat) :
  (j <= Nat.min (List.length a) (List.length b))%nat ->
  firstn j a = firstn j b -> (j <= common_prefix a b)%nat.
Proof.
  revert a b; induction j as [|j IH]; intros [|x a] [|y b]; simpl; try lia.
  intros Hj H. inversion H. subst. rewrite Z.eqb_refl.
  apply le_n_S, IH; [lia|assumption].
Qed.

Lemma common_prefix_same (a : list Z) : common_prefix a a = List.length a.
Proof.
  induction a as [|x a IH]; simpl; [reflexivity|].
  now rewrite Z.eqb_refl, IH.
Qed.

(** The loop of the plain program's scorer, entered at [index], adds to
    [score] the number of positions from [index] on at which the sequences
    agree. *)
Lemma Plain_compare_loop_spec (fuel : nat) :
  forall (e a : list Z) (i : nat) (score : Z),
    (i <= Nat.min (List.length e) (List.length a))%nat ->
    (Nat.min (List.length e) (List.length a) - i <= fuel)%nat ->
    Plain.compare_loop fuel e a (Z.of_nat (Nat.min (List.length e) (List.length a)))
                       (Z.of_nat i) score
    = Returned (score + Z.of_nat (common_prefix (skipn i e) (skipn i a))).
Proof.
  induction fuel as [|fuel IH]; intros e a i score Hi Hfuel.
  - assert (Hi' : i = Nat.min (List.length e) (List.length a)) by lia.
    simpl. rewrite <- Hi', Z.ltb_irrefl.
    assert (H0 : common_prefix (skipn i e) (skipn i a) = O).
    { pose proof (common_prefix_le (skipn i e) (skipn i a)) as Hle.
      rewrite !length_skipn in Hle. lia. }
    rewrite H0. f_equal. lia.
  - cbn [Plain.compare_loop].
    destruct (Z.of_nat i <? Z.of_nat (Nat.min (List.length e) (List.length a))) eqn:Hlt.
    + apply Z.ltb_lt in Hlt.
      destruct (index_at_in_range e i) as (v & Hv & ->); [lia|].
      destruct (index_at_in_range a i) as (u & Hu & ->); [lia|].
      cbn [obind].
      rewrite (skipn_cons_nth_error _ _ _ _ Hv), (skipn_cons_nth_error _ _ _ _ Hu).
      cbn [common_prefix]. destruct (v =? u).
      * replace (Z.of_nat i + 1) with (Z.of_nat (S i)) by lia.
        rewrite IH by lia. f_equal. lia.
      * f_equal. lia.
    + apply Z.ltb_ge in Hlt.
      assert (H0 : common_prefix (skipn i e) (skipn i a) = O).
      { pose proof (common_prefix_le (skipn i e) (skipn i a)) as Hle.
        rewrite !length_skipn in Hle. lia. }
      rewrite H0. f_equal. lia.
Qed.

Lemma scorer_bound (e a : list Z) :
  (if len e <? len a then len e else len a)
  = Z.of_nat (Nat.min (List.length e) (List.length a)).
Proof.
  unfold len. destruct (Z.of_nat (List.length e) <? Z.of_nat (List.length a)) eqn:E.
  - apply Z.ltb_lt in E. lia.
  - apply Z.ltb_ge in E. lia.
Qed.

Lemma Plain_compare_spec (e a : list Z) :
  Plain.compare e a = Returned (Z.of_nat (common_prefix e a)).
Proof.
  unfold Plain.compare. rewrite scorer_bound, Nat2Z.id.
  now rewrite (Plain_compare_loop_spec _ e a O 0) by lia.
Qed.

(** The scorer of the full-screen program is the same function. *)
Lemma Termbox_compare_same (e a : list Z) : Termbox.compare e a = Plain.compare e a.
Proof. reflexivity. Qed.

Example compare_scenario_1 : Plain.compare [1; 2; 3] [1; 2; 3] = Returned 3.
Proof. reflexivity. Qed.

Example compare_scenario_2 : Plain.compare [1; 2; 3] [1; 9; 3] = Returned 1.
Proof. reflexivity. Qed.

Example compare_scenario_3 : Plain.compare [1; 2; 3] [1; 2] = Returned 2.
Proof. reflexivity. Qed.

Lemma Termbox_compare_spec (e a : list Z) :
  Termbox.compare e a = Returned (Z.of_nat (common_prefix e a)).
Proof. etransitivity; [apply Termbox_compare_same | apply Plain_compare_spec]. Qed.

(** C1. The scorer returns the length of the longest common prefix of the
    two sequences: a number [k] between 0 and the length of the shorter one
    such that the first [k] elements agree, position [k] (when both
    sequences have one) is the first mismatch, and no longer prefix is
    common.  Both programs. *)
Theorem scorer_longest_common_prefix (expected actual : list Z) :
  exists k : nat,
    Plain.compare expected actual = Returned (Z.of_nat k) /\
    Termbox.compare expected actual = Returned (Z.of_nat k) /\
    0 <= Z.of_nat k <= Z.min (len expected) (len actual) /\
    firstn k expected = firstn k actual /\
    ((k < Nat.min (List.length expected) (List.length actual))%nat ->
     nth_error expected k <> nth_error actual k) /\
    (forall j : nat,
        (j <= Nat.min (List.length expected) (List.length actual))%nat ->
        firstn j expected = firstn j actual -> (j <= k)%nat).
Proof.
  exists (common_prefix expected actual).
  rewrite Termbox_compare_spec, Plain_compare_spec.
  pose proof (common_prefix_le expected actual) as Hle.
  repeat split.
  - lia.
  - unfold len. lia.
  - apply common_prefix_firstn.
  - apply common_prefix_mismatch.
  - intros j Hj H. now apply common_prefix_longest.
Qed.

(** C7. The scorer applied to a sequence and itself returns its length. *)
Theorem scorer_same_sequence (A : list Z) :
  Plain.compare A A = Returned (len A) /\
  Termbox.compare A A = Returned (len A).
Proof.
  rewrite Termbox_compare_spec, Plain_compare_spec, common_prefix_same.
  split; reflexivity.
Qed.

(** The two loops agree at every state, whatever the fuel. *)
Lemma compare_loops_agree (fuel : nat) (e a : list Z) (length : Z) :
  forall index score,
    Plain.compare_loop fuel e a length index score
    = Termbox.compare_loop fuel e a length index score.
Proof.
  induction fuel as [|fuel IH]; intros index score;
    cbn [Plain.compare_loop Termbox.compare_loop];
    destruct (index <? length); try reflexivity.
Qed.

(** C10. The scorer of the plain-text program and the scorer of the
    full-screen program return the same score on every pair of sequences:
    both return, and what they return is equal. *)
Theorem scorers_agree (expected actual : list Z) :
  Plain.compare expected actual = Termbox.compare expected actual /\
  exists score : Z,
    Plain.compare expected actual = Returned score /\
    Termbox.compare expected actual = Returned score.
Proof.
  split.
  - unfold Plain.compare, Termbox.compare. apply compare_loops_agree.
  - exists (Z.of_nat (common_prefix expected actual)).
    split; [apply Plain_compare_spec | apply Termbox_compare_spec].
Qed.

End Scorer.

(** ** The random sequence generator *)

Section Generator.

Variable env : Env.
Variables min max count : Z.

Lemma In_firstn (A : Type) (n : nat) (l : list A) (x : A) :
  In x (firstn n l) -> In x l.
Proof.
  intros H. rewrite <- (firstn_skipn n l). apply in_or_app. now left.
Qed.

Lemma accepted_above (start n : nat) :
  Forall (fun v => min <= v) (accepted env min start n).
Proof.
  revert start; induction n as [|n IH]; intros start; simpl; [constructor|].
  destruct (rand_Int_result env start) as [v|]; [|constructor].
  destruct (v <? min) eqn:E; [apply IH|].
  constructor; [apply Z.ltb_ge in E; lia | apply IH].
Qed.

Lemma accepted_drawn (start n : nat) :
  Forall (fun v => exists k, rand_Int_result env k = Some v) (accepted env min start n).
Proof.
  revert start; induction n as [|n IH]; intros start; simpl; [constructor|].
  destruct (rand_Int_result env start) as [v|] eqn:Ev; [|constructor].
  destruct (v <? min); [apply IH|].
  constructor; [now exists start | apply IH].
Qed.

(** The loop entered with [i] and [numbers] appends the next [count - i]
    draws it accepts. *)
Lemma Plain_generate_loop_spec (fuel : nat) :
  forall (i : Z) (numbers : list Z) (w : World),
    0 < max ->
    count - i <= len (accepted env min (rand_calls w) fuel) ->
    exists w',
      Plain.generate_loop fuel env min max count i numbers w
      = Returned (numbers ++ firstn (Z.to_nat (count - i))
                                    (accepted env min (rand_calls w) fuel), w')
      /\ disk w' = disk w.
Proof.
  induction fuel as [|fuel IH]; intros i numbers w Hmax Henough.
  - simpl in *. unfold len in Henough. simpl in Henough.
    replace (i <? count) with false by (symmetry; apply Z.ltb_ge; lia).
    exists w. rewrite firstn_nil, app_nil_r. now split.
  - cbn [Plain.generate_loop].
    destruct (i <? count) eqn:Hi.
    + apply Z.ltb_lt in Hi.
      unfold bind at 1. unfold rand_Int.
      replace (max <=? 0) with false by (symmetry; apply Z.leb_gt; lia).
      cbn [accepted] in *.
      destruct (rand_Int_result env (rand_calls w)) as [v|] eqn:Ev.
      2:{ unfold len in Henough. simpl in Henough. lia. }
      unfold bind at 1. cbn [Int64 ret].
      destruct (v <? min) eqn:Hv.
      * replace (i - 1 + 1) with i by lia.
        match goal with |- context [Plain.generate_loop fuel env min max count i numbers ?w1] =>
          destruct (IH i numbers w1 Hmax) as (w' & Hrun & Hdisk) end.
        { exact Henough. }
        exists w'. split; [exact Hrun | exact Hdisk].
      * match goal with |- context [Plain.generate_loop fuel env min max count (i + 1) ?ns ?w1] =>
          destruct (IH (i + 1) ns w1 Hmax) as (w' & Hrun & Hdisk) end.
        { cbn [rand_calls]. unfold len in *. cbn [List.length] in Henough. lia. }
        exists w'. split; [|exact Hdisk].
        rewrite Hrun. cbn [rand_calls]. f_equal. f_equal.
        rewrite <- app_assoc. f_equal.
        replace (Z.to_nat (count - i)) with (S (Z.to_nat (count - (i + 1)))) by lia.
        reflexivity.
    + apply Z.ltb_ge in Hi. exists w.
      replace (Z.to_nat (count - i)) with O by lia.
      rewrite firstn_O, app_nil_r. now split.
Qed.

Lemma Termbox_generate_same (fuel : nat) (w : World) :
  Termbox.generateRandomNumbers fuel env min max count w
  = Plain.generateRandomNumbers fuel env min max count w.
Proof. reflexivity. Qed.

(** C2, as amended.  For [min < max], a positive [max] and [count > 0],
    with a random source that answers within [0, max) and that yields
    [count] draws of at least [min] within the fuel, the generator returns
    exactly [count] integers, each with [min <= n < max]: the first [count]
    draws not below [min], in the order drawn.  Both programs. *)
Theorem generator_count_and_range (fuel : nat) (w : World) :
  min < max -> 0 < max -> 0 < count ->
  (forall k v, rand_Int_result env k = Some v -> 0 <= v < max) ->
  count <= len (accepted env min (rand_calls w) fuel) ->
  exists numbers w',
    Plain.generateRandomNumbers fuel env min max count w = Returned (numbers, w') /\
    Termbox.generateRandomNumbers fuel env min max count w = Returned (numbers, w') /\
    len numbers = count /\
    Forall (fun n => min <= n < max) numbers /\
    numbers = firstn (Z.to_nat count) (accepted env min (rand_calls w) fuel).
Proof.
  intros Hmm Hmax Hcount Hrange Henough.
  destruct (Plain_generate_loop_spec fuel 0 [] w Hmax) as (w' & Hrun & _).
  { lia. }
  rewrite Z.sub_0_r in Hrun. cbn [app] in Hrun.
  exists (firstn (Z.to_nat count) (accepted env min (rand_calls w) fuel)), w'.
  split; [exact Hrun|].
  split; [rewrite <- Hrun; apply Termbox_generate_same|].
  repeat split.
  - unfold len in *. rewrite length_firstn. lia.
  - apply Forall_forall. intros n Hn. apply In_firstn in Hn.
    pose proof (accepted_above (rand_calls w) fuel) as Ha.
    pose proof (accepted_drawn (rand_calls w) fuel) as Hd.
    rewrite Forall_forall in Ha, Hd.
    destruct (Hd n Hn) as (k & Hk). specialize (Hrange k n Hk).
    specialize (Ha n Hn). lia.
Qed.

End Generator.

(** The generator at the sample environment: seven numbers between 10 and
    99 are there within nine draws. *)
Lemma generator_count_and_range_witness :
  exists numbers w',
    Plain.generateRandomNumbers 9 sample_env 10 99 7 (fresh_world [] NoFile)
    = Returned (numbers, w') /\
    Termbox.generateRandomNumbers 9 sample_env 10 99 7 (fresh_world [] NoFile)
    = Returned (numbers, w') /\
    len numbers = 7 /\
    Forall (fun n => 10 <= n < 99) numbers /\
    numbers = firstn (Z.to_nat 7) (accepted sample_env 10 0 9).
Proof.
  apply (generator_count_and_range sample_env 10 99 7 9 (fresh_world [] NoFile)).
  - lia.
  - lia.
  - lia.
  - intros k v H. simpl in H. inversion H.
    apply Z.mod_pos_bound. lia.
  - vm_compute. discriminate.
Defined.

(** C2, as stated, fails: with [min = -5 < max = 0] and [count = 1] the
    generator returns no sequence, whatever the random source answers: the
    first draw panics in [rand.Int]. *)
Lemma generator_panics_without_positive_max :
  -5 < 0 /\ 0 < 1 /\
  (forall (fuel : nat) (env : Env) (w : World),
      Plain.generateRandomNumbers (S fuel) env (-5) 0 1 w
      = Panicked "crypto/rand: argument to Int is <= 0" /\
      Termbox.generateRandomNumbers (S fuel) env (-5) 0 1 w
      = Panicked "crypto/rand: argument to Int is <= 0") /\
  (forall (fuel : nat) (env : Env) (w : World) (numbers : list Z) (w' : World),
      Plain.generateRandomNumbers fuel env (-5) 0 1 w <> Returned (numbers, w')).
Proof.
  split; [lia|]. split; [lia|]. split.
  - intros fuel env w. split; reflexivity.
  - intros [|fuel] env w numbers w'; discriminate.
Qed.

(** ** The input collector *)

Section InputCollector.

Lemma Split_not_nil (s : bytes) (sep : ascii) : Split s sep <> [].
Proof.
  destruct s as [|c s]; simpl; [discriminate|].
  destruct (byte_eqb c sep); [discriminate|].
  destruct (Split s sep); discriminate.
Qed.

Lemma Plain_pieces_loop_spec (pieces : list bytes) :
  forall numbers,
    Plain.pieces_loop pieces numbers
    = numbers ++ map (fun piece => fst (Atoi piece)) pieces.
Proof.
  induction pieces as [|piece pieces IH]; intros numbers; simpl.
  - now rewrite app_nil_r.
  - now rewrite IH, <- app_assoc.
Qed.

Lemma Termbox_pieces_loop_spec (pieces : list bytes) (numbers : list Z) :
  Termbox.pieces_loop pieces numbers
  = numbers ++ map (fun piece => fst (Atoi piece)) pieces.
Proof. exact (Plain_pieces_loop_spec pieces numbers). Qed.




(** What the plain program's collector returns when the scanner has a line. *)
Lemma Plain_getNumbersFromStdin_spec (env : Env) (w : World) (text : bytes) :
  Scan_result env (scan_calls w) = Some text ->
  exists w',
    Plain.getNumbersFromStdin env w
    = Returned (map (fun piece => fst (Atoi piece)) (Split text " "), w')
    /\ disk w' = disk w.
Proof.
  intros H. unfold Plain.getNumbersFromStdin, bind, Scan. rewrite H.
  unfold ret. rewrite Plain_pieces_loop_spec. cbn [app].
  eexists. split; reflexivity.
Qed.

(** What the full-screen program's collector returns when the text typed is
    [text]. *)
Lemma Termbox_getNumbers_spec (fuel : nat) (env : Env) (x y : Z) (w w1 : World)
      (text : bytes) :
  Termbox.readText fuel env x y [] w = Returned (text, w1) ->
  Termbox.getNumbers fuel env x y w
  = Returned (map (fun piece => fst (Atoi piece)) (Split text " "), w1).
Proof.
  intros H. unfold Termbox.getNumbers, bind. rewrite H.
  unfold ret. now rewrite Termbox_pieces_loop_spec.
Qed.

(** What each collector returns when it is handed a line. *)
Lemma collector_of_spec (p : program) (fuel : nat) (env : Env) (x y : Z)
      (text : bytes) (w w1 : World) :
  line_read p fuel env x y text w w1 ->
  collector_of p fuel env x y w
  = Returned (map (fun piece => fst (Atoi piece)) (Split text " "), w1).
Proof.
  destruct p; cbn [line_read collector_of]; intros H.
  - unfold Plain.getNumbersFromStdin, bind. rewrite H.
    unfold ret. now rewrite Plain_pieces_loop_spec.
  - now apply Termbox_getNumbers_spec.
Qed.


(** C9.  When the collector has read a line, the empty one included, the
    sequence it returns is not empty, and the empty line gives [[0]].  Each
    program, on every line its collector is handed. *)
Theorem collector_never_empty
        (p : program) (fuel : nat) (env : Env) (x y : Z) (w w1 : World) (text : bytes) :
  line_read p fuel env x y text w w1 ->
  exists numbers,
    collector_of p fuel env x y w = Returned (numbers, w1) /\
    numbers <> [] /\
    (1 <= len numbers) /\
    (text = [] -> numbers = [0]).
Proof.
  intros Hread.
  exists (map (fun piece => fst (Atoi piece)) (Split text " ")).
  split; [now apply collector_of_spec|].
  pose proof (Split_not_nil text " ") as Hne.
  destruct (Split text " ") as [|piece pieces] eqn:E; [contradiction|].
  split; [discriminate|].
  split; [unfold len; cbn [map List.length]; lia|].
  intros ->. simpl in E. inversion E. reflexivity.
Qed.

End InputCollector.


(** The full-screen collector at the sample environment, where the user
    types [14 21], and the plain one on the empty line. *)
Lemma collector_never_empty_witness :
  (exists numbers,
      collector_of TermboxProgram 10 sample_env 0 0 world_at_prompt
      = Returned (numbers, world_after_typing) /\
      numbers <> [] /\
      (1 <= len numbers) /\
      (B "14 21" = [] -> numbers = [0])) /\
  (exists numbers,
      collector_of PlainProgram 0 (line_env []) 0 0 (fresh_world [] NoFile)
      = Returned (numbers,
                  {| rand_calls := 0; scan_calls := 1; now_calls := 0; poll_calls := 0;
                     flush_calls := 0; disk := disk (fresh_world [] NoFile) |}) /\
      numbers <> [] /\
      (1 <= len numbers) /\
      (@nil ascii = [] -> numbers = [0])).
Proof.
  split.
  - apply (collector_never_empty TermboxProgram 10 sample_env 0 0 world_at_prompt
                                 world_after_typing (B "14 21")).
    reflexivity.
  - apply (collector_never_empty PlainProgram 0 (line_env []) 0 0 (fresh_world [] NoFile) _ []).
    reflexivity.
Defined.


(** ** The decoder: the fuel of the reader is enough *)

Section ReaderFuel.

Lemma skip_space_length (s : bytes) : (List.length (skip_space s) <= List.length s)%nat.
Proof.
  induction s as [|c s IH]; simpl; [lia|].
  destruct (is_space c); simpl; lia.
Qed.

Lemma string_body_length_upto (n : nat) :
  forall s body after,
    (List.length s <= n)%nat ->
    string_body s = Some (body, after) -> (List.length after < List.length s)%nat.
Proof.
  induction n as [|n IHn]; intros s body after Hn H;
    (destruct s as [|c rest]; [discriminate|]); [simpl in Hn; lia|].
  assert (IH : forall s' b a, (List.length s' <= n)%nat ->
                              string_body s' = Some (b, a) ->
                              (List.length a < List.length s')%nat) by exact IHn.
  simpl in Hn.
  cbn [string_body] in H.
  destruct (byte_eqb c dquote).
  { inversion H. subst. simpl. lia. }
  destruct (byte_eqb c backslash).
  - destruct rest as [|e rest']; [discriminate|].
    destruct (byte_eqb e "u").
    + destruct rest' as [|h1 [|h2 [|h3 [|h4 rest'']]]]; try discriminate.
      destruct (getu4 h1 h2 h3 h4); [|discriminate].
      destruct (string_body rest'') as [[b a]|] eqn:E; [|discriminate].
      inversion H. subst. apply IH in E; simpl in *; lia.
    + destruct (_ || _); [|discriminate].
      destruct (string_body rest') as [[b a]|] eqn:E; [|discriminate].
      inversion H. subst. apply IH in E; simpl in *; lia.
  - destruct (code c <? 32); [discriminate|].
    destruct (string_body rest) as [[b a]|] eqn:E; [|discriminate].
    inversion H. subst. apply IH in E; simpl in *; lia.
Qed.

Lemma string_body_length (s body after : bytes) :
  string_body s = Some (body, after) -> (List.length after < List.length s)%nat.
Proof. apply (string_body_length_upto (List.length s)). lia. Qed.

Lemma digits_app (s : bytes) : forall ds after, digits s = (ds, after) -> s = ds ++ after.
Proof.
  induction s as [|c s IH]; intros ds after H; simpl in H.
  - now inversion H.
  - destruct (is_digit c).
    + destruct (digits s) as [ds' a']. inversion H. subst. simpl. f_equal. now apply IH.
    + now inversion H.
Qed.

Lemma number_literal_length (s : bytes) :
  forall literal after, number_literal s = Some (literal, after) ->
                        (List.length after < List.length s)%nat.
Proof.
  intros literal after H. unfold number_literal in H.
  set (p := match s with
            | c :: rest => if byte_eqb c "-" then ([c], rest) else ([], s)
            | [] => ([], s)
            end) in H.
  assert (Hp : s = fst p ++ snd p).
  { unfold p. destruct s as [|c rest]; [reflexivity|]. destruct (byte_eqb c "-"); reflexivity. }
  destruct p as [sign s1]. cbn [fst snd] in Hp.
  destruct (digits s1) as [int_part s2] eqn:Ed. apply digits_app in Ed.
  destruct int_part as [|d more]; [discriminate|].
  assert (Hs : (List.length s = List.length sign + S (List.length more) + List.length s2)%nat).
  { rewrite Hp, Ed. repeat rewrite length_app. simpl. lia. }
  destruct (byte_eqb d "0" && negb (len more =? 0)).
  { inversion H. subst after. rewrite length_app. lia. }
  set (frac := match s2 with
               | c :: rest =>
                 if byte_eqb c "." then
                   let (fd, s3) := digits rest in
                   match fd with [] => None | _ => Some (c :: fd, s3) end
                 else Some ([], s2)
               | [] => Some ([], s2)
               end) in H.
  assert (Hf : forall fp s3, frac = Some (fp, s3) -> (List.length s3 <= List.length s2)%nat).
  { intros fp s3. unfold frac. destruct s2 as [|c rest]; [intros E; inversion E; lia|].
    destruct (byte_eqb c ".").
    - destruct (digits rest) as [fd s3'] eqn:E3. apply digits_app in E3.
      destruct fd; [discriminate|]. intros E; inversion E. subst.
      simpl. rewrite length_app. simpl. lia.
    - intros E; inversion E. lia. }
  destruct frac as [[frac_part s3]|]; [|discriminate].
  specialize (Hf _ _ eq_refl).
  set (exp := match s3 with
              | c :: rest =>
                if byte_eqb c "e" || byte_eqb c "E" then
                  let (esign, s4) :=
                      match rest with
                      | g :: rest' => if byte_eqb g "+" || byte_eqb g "-" then ([g], rest') else ([], rest)
                      | [] => ([], rest)
                      end in
                  let (ed, s5) := digits s4 in
                  match ed with [] => None | _ => Some (c :: esign ++ ed, s5) end
                else Some ([], s3)
              | [] => Some ([], s3)
              end) in H.
  assert (He : forall ep s5, exp = Some (ep, s5) -> (List.length s5 <= List.length s3)%nat).
  { intros ep s5. unfold exp. destruct s3 as [|c rest]; [intros E; inversion E; lia|].
    destruct (_ || _).
    - set (q := match rest with
                | g :: rest' => if byte_eqb g "+" || byte_eqb g "-" then ([g], rest') else ([], rest)
                | [] => ([], rest)
                end).
      assert (Hq : (List.length (snd q) <= List.length rest)%nat).
      { unfold q. destruct rest as [|g rest']; [simpl; lia|].
        destruct (_ || _); simpl; lia. }
      destruct q as [esign s4]. cbn [snd] in Hq.
      destruct (digits s4) as [ed s5'] eqn:E5. apply digits_app in E5.
      destruct ed; [discriminate|]. intros E; inversion E. subst.
      rewrite length_app in Hq. simpl in *. lia.
    - intros E; inversion E. lia. }
  destruct exp as [[exp_part s5]|]; [|discriminate].
  specialize (He _ _ eq_refl). inversion H. subst. lia.
Qed.

Lemma skip_space_cons_length (s : bytes) (c : ascii) (rest : bytes) :
  skip_space s = c :: rest -> (List.length rest < List.length s)%nat.
Proof.
  intros H. pose proof (skip_space_length s) as Hl. rewrite H in Hl. simpl in Hl. lia.
Qed.

Lemma strip_prefix_length (p s r : bytes) :
  strip_prefix p s = Some r -> (List.length r <= List.length s)%nat.
Proof.
  revert s; induction p as [|a p IH]; intros [|b s] H; simpl in H;
    try discriminate; try (inversion H; subst; simpl; lia).
  destruct (byte_eqb a b); [|discriminate]. apply IH in H. simpl. lia.
Qed.

Lemma fuel_independent_S {X} (run : nat -> bytes -> option (X * bytes)) (f : nat) :
  (forall s v r,
      run f s = Some (v, r) ->
      (List.length r < List.length s)%nat /\
      forall f1, (2 * (List.length s - List.length r) <= S f1)%nat ->
                 run (S f1) s = Some (v, r)) ->
  fuel_independent run f.
Proof.
  intros H s v r Hrun. destruct (H s v r Hrun) as [Hlen Hfuel].
  split; [exact Hlen|]. intros [|f1] Hf; [lia|]. now apply Hfuel.
Qed.

Lemma parse_fuel (f : nat) :
  (forall d, fuel_independent (fun f s => parse_value f d s) f) /\
  (forall d acc, fuel_independent (fun f s => parse_elements f d s acc) f) /\
  (forall d acc, fuel_independent (fun f s => parse_members f d s acc) f).
Proof.
  induction f as [|f (IHv & IHe & IHm)].
  { repeat split; intros; discriminate. }
  split; [|split].
  - intros d. apply fuel_independent_S. intros s v r.
    cbn [parse_value].
    destruct (skip_space s) as [|c rest] eqn:Es; [discriminate|].
    pose proof (skip_space_cons_length _ _ _ Es) as Hs.
    destruct (byte_eqb c "[").
    { destruct (maxNestingDepth <? d + 1); [discriminate|].
      destruct (skip_space rest) as [|c' rest'] eqn:Er; [discriminate|].
      pose proof (skip_space_cons_length _ _ _ Er) as Hr.
      destruct (byte_eqb c' "]").
      - intros H. inversion H. subst. split; [lia|]. reflexivity.
      - intros H. apply IHe in H. destruct H as [Hl Hf].
        split; [lia|]. intros f1 Hf1. apply Hf. lia. }
    destruct (byte_eqb c "{").
    { destruct (maxNestingDepth <? d + 1); [discriminate|].
      destruct (skip_space rest) as [|c' rest'] eqn:Er; [discriminate|].
      pose proof (skip_space_cons_length _ _ _ Er) as Hr.
      destruct (byte_eqb c' "}").
      - intros H. inversion H. subst. split; [lia|]. reflexivity.
      - intros H. apply IHm in H. destruct H as [Hl Hf].
        split; [lia|]. intros f1 Hf1. apply Hf. lia. }
    destruct (byte_eqb c dquote).
    { destruct (string_body rest) as [[body after]|] eqn:Eb; [|discriminate].
      apply string_body_length in Eb.
      intros H. inversion H. subst. split; [lia|]. reflexivity. }
    destruct (byte_eqb c "-" || is_digit c).
    { destruct (number_literal (c :: rest)) as [[literal after]|] eqn:En; [|discriminate].
      apply number_literal_length in En. simpl in En.
      intros H. inversion H. subst. split; [lia|]. reflexivity. }
    destruct (byte_eqb c "t").
    { destruct (strip_prefix (B "rue") rest) as [after|] eqn:Ep; [|discriminate].
      apply strip_prefix_length in Ep.
      intros H. inversion H. subst. split; [lia|]. reflexivity. }
    destruct (byte_eqb c "f").
    { destruct (strip_prefix (B "alse") rest) as [after|] eqn:Ep; [|discriminate].
      apply strip_prefix_length in Ep.
      intros H. inversion H. subst. split; [lia|]. reflexivity. }
    destruct (byte_eqb c "n"); [|discriminate].
    destruct (strip_prefix (B "ull") rest) as [after|] eqn:Ep; [|discriminate].
    apply strip_prefix_length in Ep.
    intros H. inversion H. subst. split; [lia|]. reflexivity.
  - intros d acc. apply fuel_independent_S. intros s v r.
    cbn [parse_elements].
    destruct (parse_value f d s) as [[v1 after]|] eqn:Ev; [|discriminate].
    apply IHv in Ev. destruct Ev as [Hl1 Hf1].
    destruct (skip_space after) as [|c rest] eqn:Ea; [discriminate|].
    pose proof (skip_space_cons_length _ _ _ Ea) as Hs.
    destruct (byte_eqb c ",") eqn:Ec.
    + intros H. apply IHe in H. destruct H as [Hl2 Hf2].
      split; [lia|]. intros f1 Hb.
      rewrite Hf1 by lia. rewrite Ea, Ec. apply Hf2. lia.
    + destruct (byte_eqb c "]") eqn:Ec'; [|discriminate].
      intros H. inversion H. subst. split; [lia|]. intros f1 Hb.
      rewrite Hf1 by lia. now rewrite Ea, Ec, Ec'.
  - intros d acc. apply fuel_independent_S. intros s v r.
    cbn [parse_members].
    destruct (skip_space s) as [|q rest] eqn:Es; [discriminate|].
    pose proof (skip_space_cons_length _ _ _ Es) as Hs.
    destruct (byte_eqb q dquote); [|discriminate].
    destruct (string_body rest) as [[body after]|] eqn:Eb; [|discriminate].
    apply string_body_length in Eb.
    destruct (skip_space after) as [|c rest1] eqn:Ea; [discriminate|].
    pose proof (skip_space_cons_length _ _ _ Ea) as Ha.
    destruct (byte_eqb c ":"); [|discriminate].
    destruct (parse_value f d rest1) as [[v1 after']|] eqn:Ev; [|discriminate].
    apply IHv in Ev. destruct Ev as [Hl1 Hf1].
    destruct (skip_space after') as [|c' rest2] eqn:Ea'; [discriminate|].
    pose proof (skip_space_cons_length _ _ _ Ea') as Ha'.
    destruct (byte_eqb c' ",") eqn:Ec.
    + intros H. apply IHm in H. destruct H as [Hl2 Hf2].
      split; [lia|]. intros f1 Hb.
      rewrite Hf1 by lia. rewrite Ea', Ec. apply Hf2. lia.
    + destruct (byte_eqb c' "}") eqn:Ec'; [|discriminate].
      intros H. inversion H. subst. split; [lia|]. intros f1 Hb.
      rewrite Hf1 by lia. now rewrite Ea', Ec, Ec'.
Qed.

(** A value read with some fuel is read with the fuel [parse] gives. *)
Lemma parse_value_any_fuel (f : nat) (data : bytes) (v : json) (after : bytes) :
  parse_value f 0 data = Some (v, after) ->
  parse_value (2 * List.length data + 2) 0 data = Some (v, after).
Proof.
  intros H. destruct (parse_fuel f) as (Hv & _ & _).
  destruct (Hv 0 data v after H) as [_ Hf]. apply Hf. lia.
Qed.

(** No fuel reads a value from a text that [parse] rejects for its value. *)
Lemma parse_None_any_fuel (data : bytes) :
  parse_value (2 * List.length data + 2) 0 data = None ->
  forall f, parse_value f 0 data = None.
Proof.
  intros H f. destruct (parse_value f 0 data) as [[v after]|] eqn:E; [|reflexivity].
  apply parse_value_any_fuel in E. congruence.
Qed.

End ReaderFuel.

(** ** The result store *)

Section ResultStore.

Variable encode : list DatabaseItem -> bytes.
Variable env : Env.

Lemma bytes_eqb_refl (a : bytes) : bytes_eqb a a = true.
Proof.
  induction a as [|c a IH]; simpl; [reflexivity|].
  unfold byte_eqb. now rewrite Ascii.eqb_refl, IH.
Qed.

Lemma disk_set_disk (w : World) (file : bytes) (n : node) :
  disk (set_disk w file n) file = n.
Proof. simpl. now rewrite bytes_eqb_refl. Qed.

Lemma WriteAt_0 (old b : bytes) :
  WriteAt old b 0 = b ++ skipn (List.length b) old.
Proof. reflexivity. Qed.

(** The bytes past the end of what is written stay. *)
Lemma WriteAt_0_frame (old b : bytes) (i : nat) :
  (List.length b <= i)%nat ->
  nth_error (WriteAt old b 0) i = nth_error old i.
Proof.
  intros Hi. rewrite WriteAt_0, nth_error_app2 by exact Hi.
  rewrite nth_error_skipn. f_equal. lia.
Qed.

Lemma WriteAt_0_length (old b : bytes) :
  List.length (WriteAt old b 0) = Nat.max (List.length b) (List.length old).
Proof. rewrite WriteAt_0, length_app, length_skipn. lia. Qed.

Lemma WriteAt_0_covers (old b : bytes) :
  (List.length old <= List.length b)%nat -> WriteAt old b 0 = b.
Proof.
  intros H. rewrite WriteAt_0, skipn_all2 by exact H. apply app_nil_r.
Qed.

Lemma os_OpenFile_NoFile (w : World) (file : bytes) :
  disk w file = NoFile ->
  os_OpenFile file w = Returned (Some file, set_disk w file (File [])).
Proof. intros H. unfold os_OpenFile. now rewrite H. Qed.

Lemma os_OpenFile_File (w : World) (file content : bytes) :
  disk w file = File content -> os_OpenFile file w = Returned (Some file, w).
Proof. intros H. unfold os_OpenFile. now rewrite H. Qed.

(** [saveResults] on a file that is there and can be read: it decodes the
    content, appends the record of the run, and either panics in the
    encoder or writes the new text over the start of the old one. *)
Lemma Plain_saveResults_spec (file : bytes) (results : list Result) (totalScore : Z)
      (avgDuration : float) (w : World) (old : bytes) :
  disk w file = File old ->
  Plain.saveResults encode env file results totalScore avgDuration w
  = match json_Marshal encode
            (load old ++ [new_item (Now_result env (now_calls w)) results
                                   totalScore avgDuration]) with
    | None => Panicked "json: unsupported value"
    | Some content =>
      Returned (tt, set_disk (after_Now w) file (File (WriteAt old content 0)))
    end.
Proof.
  intros H. unfold Plain.saveResults, bind, os_OpenFile, ioutil_ReadAll. rewrite H.
  rewrite H. unfold time_Now. fold (after_Now w). fold (load old).
  unfold new_item.
  destruct (json_Marshal encode _) as [content|]; [|reflexivity].
  unfold fd_WriteAt. cbn [after_Now disk]. now rewrite H.
Qed.

(** On a path with no file, [saveResults] creates an empty one and goes on
    as on an empty file. *)
Lemma Plain_saveResults_creates (file : bytes) (results : list Result) (totalScore : Z)
      (avgDuration : float) (w : World) :
  disk w file = NoFile ->
  Plain.saveResults encode env file results totalScore avgDuration w
  = Plain.saveResults encode env file results totalScore avgDuration
                      (set_disk w file (File [])).
Proof.
  intros H. unfold Plain.saveResults, bind.
  rewrite (os_OpenFile_NoFile w file H).
  now rewrite (os_OpenFile_File (set_disk w file (File [])) file []
                                (disk_set_disk w file (File []))).
Qed.

Lemma Termbox_saveResults_same (file : bytes) (results : list Result) (totalScore : Z)
      (avgDuration : float) (w : World) :
  Termbox.saveResults encode env file results totalScore avgDuration w
  = Plain.saveResults encode env file results totalScore avgDuration w.
Proof. reflexivity. Qed.

Lemma json_Marshal_finite (database : list DatabaseItem) :
  forallb finite_DatabaseItem database = true ->
  json_Marshal encode database = Some (encode database).
Proof. intros H. unfold json_Marshal. now rewrite H. Qed.

(** C4.  When the result store rewrites a file of content [old] (of length
    L) with the re-encoded text [content] (of length L') at offset 0, the
    bytes of the file at the offsets from L' to L are those of [old]: when
    L' < L the file keeps its length and ends with the last L - L' bytes of
    the old content.  Both programs. *)
Theorem rewrite_keeps_old_tail (file : bytes) (results : list Result) (totalScore : Z)
        (avgDuration : float) (w w' : World) (old : bytes) :
  disk w file = File old ->
  Plain.saveResults encode env file results totalScore avgDuration w = Returned (tt, w') ->
  exists content,
    json_Marshal encode
                 (load old ++ [new_item (Now_result env (now_calls w)) results
                                        totalScore avgDuration]) = Some content /\
    Termbox.saveResults encode env file results totalScore avgDuration w
    = Returned (tt, w') /\
    disk w' file = File (WriteAt old content 0) /\
    (forall i : nat,
        (List.length content <= i < List.length old)%nat ->
        nth_error (WriteAt old content 0) i = nth_error old i) /\
    ((List.length content < List.length old)%nat ->
     WriteAt old content 0 = content ++ skipn (List.length content) old /\
     List.length (skipn (List.length content) old)
     = (List.length old - List.length content)%nat /\
     List.length (WriteAt old content 0) = List.length old).
Proof.
  intros Hold Hrun.
  pose proof (Plain_saveResults_spec file results totalScore avgDuration w old Hold)
    as Hspec.
  destruct (json_Marshal encode _) as [content|] eqn:Hmarshal.
  2:{ rewrite Hspec in Hrun. discriminate. }
  exists content. split; [reflexivity|].
  split; [rewrite <- Hrun; apply Termbox_saveResults_same|].
  rewrite Hspec in Hrun. inversion Hrun. subst w'.
  split; [apply disk_set_disk|].
  split.
  - intros i Hi. apply WriteAt_0_frame. lia.
  - intros Hlt. split; [apply WriteAt_0|].
    split; [apply length_skipn|].
    rewrite WriteAt_0_length. lia.
Qed.

(** When the new text is at least as long as the old content and decodes
    back to the database it encodes, the file read again holds the old
    records followed by the record of the run. *)
Lemma append_then_reload (file : bytes) (results : list Result) (totalScore : Z)
      (avgDuration : float) (w w' : World) (old : bytes) :
  let database := load old ++ [new_item (Now_result env (now_calls w)) results
                                        totalScore avgDuration] in
  disk w file = File old ->
  Plain.saveResults encode env file results totalScore avgDuration w = Returned (tt, w') ->
  (List.length old <= List.length (encode database))%nat ->
  load (encode database) = database ->
  exists content, disk w' file = File content /\ load content = database.
Proof.
  intros database Hold Hrun Hlen Hback.
  rewrite (Plain_saveResults_spec file results totalScore avgDuration w old Hold) in Hrun.
  fold database in Hrun. unfold json_Marshal in Hrun.
  destruct (forallb finite_DatabaseItem database); [|discriminate].
  inversion Hrun. subst w'.
  exists (encode database). split; [|exact Hback].
  now rewrite disk_set_disk, WriteAt_0_covers.
Qed.

(** C3, as amended.  For every content of the log that is not a well-formed
    JSON text, or whose JSON value is not an array, the result store goes on
    as if the history were empty: no error is raised, and the record of the
    run is appended to the empty list.  Both programs. *)
Theorem malformed_log_is_empty_history (file : bytes) (results : list Result)
        (totalScore : Z) (avgDuration : float) (w : World) (content : bytes) :
  disk w file = File content ->
  (forall elems, parse content <> Some (JArray elems)) ->
  PrimFloat.is_finite avgDuration = true ->
  forallb finite_Result results = true ->
  let item := new_item (Now_result env (now_calls w)) results totalScore avgDuration in
  load content = [] /\
  exists w',
    Plain.saveResults encode env file results totalScore avgDuration w = Returned (tt, w') /\
    Termbox.saveResults encode env file results totalScore avgDuration w
    = Returned (tt, w') /\
    disk w' file = File (WriteAt content (encode [item]) 0).
Proof.
  intros Hdisk Hnot Havg Hres item.
  assert (Hload : load content = []).
  { unfold load, json_Unmarshal.
    destruct (parse content) as [v|]; [|reflexivity].
    destruct v; try reflexivity.
    exfalso. now apply (Hnot elems). }
  split; [exact Hload|].
  pose proof (Plain_saveResults_spec file results totalScore avgDuration w content Hdisk)
    as Hspec.
  rewrite Hload in Hspec. cbn [app] in Hspec. fold item in Hspec.
  rewrite json_Marshal_finite in Hspec.
  - eexists. split; [exact Hspec|].
    split; [rewrite <- Hspec; apply Termbox_saveResults_same|].
    apply disk_set_disk.
  - unfold item, new_item, finite_DatabaseItem.
    cbn [forallb AvgDuration Results].
    now rewrite Havg, Hres.
Qed.

End ResultStore.

(** The rewrite of a log of one record by a run of one trial, with an
    encoder whose text is shorter than the log. *)
Lemma rewrite_keeps_old_tail_witness :
  exists content,
    json_Marshal shape_encode
                 (load one_record_log ++ [new_item (Now_result sample_env 0) one_trial 2 1.5])
    = Some content /\
    Termbox.saveResults shape_encode sample_env log_path one_trial 2 1.5
                        (fresh_world log_path (File one_record_log))
    = Returned (tt, set_disk (after_Now (fresh_world log_path (File one_record_log)))
                             log_path
                             (File (WriteAt one_record_log (B "[{},{}]") 0))) /\
    disk (set_disk (after_Now (fresh_world log_path (File one_record_log)))
                   log_path (File (WriteAt one_record_log (B "[{},{}]") 0))) log_path
    = File (WriteAt one_record_log content 0) /\
    (forall i : nat,
        (List.length content <= i < List.length one_record_log)%nat ->
        nth_error (WriteAt one_record_log content 0) i = nth_error one_record_log i) /\
    ((List.length content < List.length one_record_log)%nat ->
     WriteAt one_record_log content 0
     = content ++ skipn (List.length content) one_record_log /\
     List.length (skipn (List.length content) one_record_log)
     = (List.length one_record_log - List.length content)%nat /\
     List.length (WriteAt one_record_log content 0) = List.length one_record_log).
Proof.
  apply (rewrite_keeps_old_tail shape_encode sample_env log_path one_trial 2 1.5
                                (fresh_world log_path (File one_record_log))).
  - reflexivity.
  - reflexivity.
Defined.

(** A log that is no JSON text at all. *)
Lemma malformed_log_is_empty_history_witness :
  load (B "not json") = [] /\
  exists w',
    Plain.saveResults shape_encode sample_env log_path one_trial 2 1.5
                      (fresh_world log_path (File (B "not json"))) = Returned (tt, w') /\
    Termbox.saveResults shape_encode sample_env log_path one_trial 2 1.5
                        (fresh_world log_path (File (B "not json"))) = Returned (tt, w') /\
    disk w' log_path
    = File (WriteAt (B "not json")
                    (shape_encode [new_item (Now_result sample_env 0) one_trial 2 1.5]) 0).
Proof.
  apply (malformed_log_is_empty_history shape_encode sample_env log_path one_trial 2 1.5
                                        (fresh_world log_path (File (B "not json")))).
  - reflexivity.
  - intros elems. vm_compute. discriminate.
  - reflexivity.
  - reflexivity.
Defined.

(** C3, as stated, fails: the content [[1]] does not parse as an array of
    records (the decoder returns an error), yet the list the record of the
    run is appended to is not empty: it holds a zero record for the element
    that did not fit.  So does a log in which one field has the wrong
    type: the record stays, without that field. *)
Lemma malformed_element_is_kept :
  json_Unmarshal (B "[1]") [] = ([zero_DatabaseItem], Some UnmarshalTypeError) /\
  load (B "[1]") <> [] /\
  (forall encode : list DatabaseItem -> bytes,
      exists w',
        Plain.saveResults encode sample_env log_path one_trial 2 1.5
                          (fresh_world log_path (File (B "[1]"))) = Returned (tt, w') /\
        disk w' log_path
        = File (WriteAt (B "[1]") (encode [zero_DatabaseItem; one_trial_record]) 0)) /\
  json_Unmarshal (json_text "[{'date':'d','total_score':'3','avg_duration':1.5}]") []
  = ([{| Date := B "d"; AvgDuration := 1.5; TotalScore := 0; Results := None |}],
     Some UnmarshalTypeError).
Proof.
  split; [reflexivity|].
  split; [discriminate|].
  split; [|reflexivity].
  intros encode. eexists.
  rewrite (Plain_saveResults_spec encode sample_env log_path one_trial 2 1.5
                                  (fresh_world log_path (File (B "[1]"))) (B "[1]"))
    by reflexivity.
  rewrite json_Marshal_finite by reflexivity.
  split; [reflexivity|]. apply disk_set_disk.
Qed.

(** A run of no trial on a log of one record: [main] computes the average
    duration as 0/0, the encoder refuses the record, and the program panics
    before it writes, so the log is left with its one record.  Both
    programs. *)
Lemma zero_trial_run_panics_before_writing
        (fuel : nat) (encode : list DatabaseItem -> bytes) :
  load one_record_log = [one_record] /\
  result_of (Plain.main fuel encode sample_env zero_trials_args
                        (fresh_world log_path (File one_record_log)))
  = Panicked "json: unsupported value" /\
  result_of (Termbox.main fuel encode sample_env zero_trials_args
                          (fresh_world log_path (File one_record_log)))
  = Panicked "json: unsupported value" /\
  result_of (Plain.saveResults encode sample_env log_path [] 0 (0 / 0)%float
                               (fresh_world log_path (File one_record_log)))
  = Panicked "json: unsupported value".
Proof.
  split; [vm_compute; reflexivity|].
  destruct fuel; repeat split; vm_compute; reflexivity.
Qed.

(** C5 at a log longer than its rewrite.  The annotated log decodes to its
    one record without an error; a run of one trial rewrites it with the
    text of the two records at offset 0; that text, which is what
    [json.Marshal] gives for them ([two_record_text]) and decodes back to
    them, is shorter than the log; and the file, the new text followed by
    the end of the annotation, is no JSON text: what is read back from it
    is the empty history, not the two records.  Both programs. *)
Theorem longer_log_is_corrupted_by_rewrite (encode : list DatabaseItem -> bytes) :
  json_Unmarshal annotated_log [] = ([one_record], None) /\
  (exists w',
      Plain.saveResults encode sample_env log_path one_trial 2 1.5
                        (fresh_world log_path (File annotated_log)) = Returned (tt, w') /\
      Termbox.saveResults encode sample_env log_path one_trial 2 1.5
                          (fresh_world log_path (File annotated_log)) = Returned (tt, w') /\
      disk w' log_path
      = File (WriteAt annotated_log (encode [one_record; one_trial_record]) 0)) /\
  load two_record_text = [one_record; one_trial_record] /\
  (List.length two_record_text < List.length annotated_log)%nat /\
  json_Unmarshal (WriteAt annotated_log two_record_text 0) [] = ([], Some SyntaxError).
Proof.
  split; [vm_compute; reflexivity|].
  split.
  { pose proof (Plain_saveResults_spec encode sample_env log_path one_trial 2 1.5
                  (fresh_world log_path (File annotated_log)) annotated_log eq_refl)
      as Hspec.
    replace (load annotated_log) with [one_record] in Hspec by (vm_compute; reflexivity).
    cbn [app] in Hspec. change (new_item _ one_trial 2 1.5) with one_trial_record in Hspec.
    rewrite json_Marshal_finite in Hspec by (vm_compute; reflexivity).
    eexists. split; [exact Hspec|].
    split; [rewrite <- Hspec; reflexivity|].
    apply disk_set_disk. }
  split; [vm_compute; reflexivity|].
  split; [vm_compute; lia|].
  vm_compute. reflexivity.
Qed.

(** ** The whole run *)

Section Run.

Lemma bind_Returned {A C} (m : Go A) (k : A -> Go C) (w w' : World) (c : C) :
  bind m k w = Returned (c, w') ->
  exists a w1, m w = Returned (a, w1) /\ k a w1 = Returned (c, w').
Proof.
  unfold bind. destruct (m w) as [[a w1]| | |]; try discriminate.
  intros H. now exists a, w1.
Qed.

Lemma keeps_ret {A} (a : A) : keeps_disk (ret a).
Proof. intros w a' w' H. now inversion H. Qed.

Lemma keeps_bind {A C} (m : Go A) (k : A -> Go C) :
  keeps_disk m -> (forall a, keeps_disk (k a)) -> keeps_disk (bind m k).
Proof.
  intros Hm Hk w c w' H.
  apply bind_Returned in H. destruct H as (a & w1 & H1 & H2).
  rewrite (Hk a _ _ _ H2). exact (Hm _ _ _ H1).
Qed.

Lemma keeps_panic {A} (why : string) : keeps_disk (@panic A why).
Proof. intros w a w' H. discriminate. Qed.

Lemma keeps_os_Exit {A} (status : Z) : keeps_disk (@os_Exit A status).
Proof. intros w a w' H. discriminate. Qed.

Lemma keeps_out_of_fuel {A} : keeps_disk (@out_of_fuel A).
Proof. intros w a w' H. discriminate. Qed.

Lemma keeps_lift {A} (o : outcome A) : keeps_disk (lift o).
Proof. intros w a w' H. destruct o; inversion H. reflexivity. Qed.

Lemma keeps_rand_Int (env : Env) (max : Z) : keeps_disk (rand_Int env max).
Proof.
  intros w a w' H. unfold rand_Int in H.
  destruct (max <=? 0); inversion H. reflexivity.
Qed.

Lemma keeps_Int64 (bigNumber : option Z) : keeps_disk (Int64 bigNumber).
Proof. destruct bigNumber; [apply keeps_ret | apply keeps_panic]. Qed.

Lemma keeps_Scan (env : Env) : keeps_disk (Scan env).
Proof. intros w a w' H. inversion H. reflexivity. Qed.

Lemma keeps_time_Now (env : Env) : keeps_disk (time_Now env).
Proof. intros w a w' H. inversion H. reflexivity. Qed.

Lemma keeps_PollEvent (env : Env) : keeps_disk (PollEvent env).
Proof. intros w a w' H. inversion H. reflexivity. Qed.

Lemma keeps_Flush (env : Env) : keeps_disk (Flush env).
Proof. intros w a w' H. inversion H. reflexivity. Qed.

Lemma keeps_expand_home (env : Env) (file : bytes) : keeps_disk (expand_home env file).
Proof.
  unfold expand_home. destruct (len file <? 2); [apply keeps_panic|].
  destruct (bytes_eqb _ _); apply keeps_ret.
Qed.

Ltac keeps :=
  repeat first
         [ assumption
         | apply keeps_ret | apply keeps_panic | apply keeps_os_Exit
         | apply keeps_out_of_fuel | apply keeps_lift | apply keeps_rand_Int
         | apply keeps_Int64 | apply keeps_Scan | apply keeps_time_Now
         | apply keeps_PollEvent | apply keeps_Flush
         | apply keeps_bind; [|intros ?]
         | match goal with
           | IH : forall _, _ |- _ => solve [apply IH]
           | |- keeps_disk (if ?b then _ else _) => destruct b
           | |- keeps_disk (match ?x with _ => _ end) => destruct x
           | |- keeps_disk (let '(_, _) := ?x in _) => destruct x
           end ].

Variable env : Env.

Lemma keeps_Plain_generate_loop (fuel : nat) (min max count : Z) :
  forall i numbers, keeps_disk (Plain.generate_loop fuel env min max count i numbers).
Proof.
  induction fuel as [|fuel IH]; intros i numbers; cbn [Plain.generate_loop]; keeps.
Qed.

Lemma keeps_Plain_getNumbersFromStdin : keeps_disk (Plain.getNumbersFromStdin env).
Proof. unfold Plain.getNumbersFromStdin. keeps. Qed.

Lemma keeps_Plain_runTest (fuel : nat) (minNumber maxNumber numbersCount : Z) :
  keeps_disk (Plain.runTest fuel env minNumber maxNumber numbersCount).
Proof.
  unfold Plain.runTest, Plain.generateRandomNumbers, Plain.wait, Plain.clearScreen.
  pose proof (keeps_Plain_generate_loop fuel minNumber maxNumber numbersCount 0 []).
  pose proof keeps_Plain_getNumbersFromStdin.
  keeps.
Qed.

Lemma keeps_Termbox_clearScreen : keeps_disk (Termbox.clearScreen env).
Proof. unfold Termbox.clearScreen. keeps. Qed.

Lemma keeps_Termbox_printText (text : bytes) (x y : Z) :
  keeps_disk (Termbox.printText env text x y).
Proof. unfold Termbox.printText. keeps. Qed.

Lemma keeps_Termbox_wait (fuel : nat) : keeps_disk (Termbox.wait fuel env).
Proof.
  induction fuel as [|fuel IH]; cbn [Termbox.wait]; unfold Termbox.quit; keeps.
Qed.

Lemma keeps_Termbox_readText (fuel : nat) (x y : Z) :
  forall text, keeps_disk (Termbox.readText fuel env x y text).
Proof.
  induction fuel as [|fuel IH]; intros text; cbn [Termbox.readText];
    unfold Termbox.quit; [keeps|].
  apply keeps_bind; [keeps|]. intros event.
  destruct (negb (isEventKey event)); [apply IH|].
  cbv zeta.
  destruct (EvKey event); try destruct (len _ =? 0);
    repeat first [ apply IH | apply keeps_ret | apply keeps_os_Exit
                 | apply keeps_Termbox_printText | apply keeps_Termbox_clearScreen
                 | apply keeps_bind; [|intros ?] ].
Qed.

Lemma keeps_Termbox_getNumbers (fuel : nat) (x y : Z) :
  keeps_disk (Termbox.getNumbers fuel env x y).
Proof.
  unfold Termbox.getNumbers. pose proof (keeps_Termbox_readText fuel x y []). keeps.
Qed.

Lemma keeps_Termbox_runTest (fuel : nat) (minNumber maxNumber numbersCount : Z) :
  keeps_disk (Termbox.runTest fuel env minNumber maxNumber numbersCount).
Proof.
  unfold Termbox.runTest, Termbox.generateRandomNumbers.
  pose proof (keeps_Plain_generate_loop fuel minNumber maxNumber numbersCount 0 []) as Hg.
  change (keeps_disk (Termbox.generate_loop fuel env minNumber maxNumber numbersCount 0 []))
    in Hg.
  pose proof (keeps_Termbox_wait fuel).
  pose proof keeps_Termbox_clearScreen.
  apply keeps_bind; [assumption|]. intros validNumbers.
  destruct (Size env) as [width height].
  pose proof (fun x y => keeps_Termbox_getNumbers fuel x y) as Hn.
  repeat first [ assumption | apply Hn | apply keeps_ret | apply keeps_lift
               | apply keeps_time_Now | apply keeps_Flush
               | apply keeps_bind; [|intros ?] ].
Qed.

Ltac inv_bind H :=
  let a := fresh "a" in
  let w1 := fresh "w" in
  let H1 := fresh "Hstep" in
  apply bind_Returned in H; destruct H as (a & w1 & H1 & H).

Lemma Plain_runTest_Count (fuel : nat) (minNumber maxNumber numbersCount : Z)
      (w w' : World) (result : Result) :
  Plain.runTest fuel env minNumber maxNumber numbersCount w = Returned (result, w') ->
  Count result = numbersCount.
Proof.
  unfold Plain.runTest. intros H.
  do 8 inv_bind H. inversion H. reflexivity.
Qed.

Lemma Termbox_runTest_Count (fuel : nat) (minNumber maxNumber numbersCount : Z)
      (w w' : World) (result : Result) :
  Termbox.runTest fuel env minNumber maxNumber numbersCount w = Returned (result, w') ->
  Count result = numbersCount.
Proof.
  unfold Termbox.runTest. intros H.
  inv_bind H. destruct (Size env) as [width height].
  do 9 inv_bind H. inversion H. reflexivity.
Qed.

(** The loop of [main] entered at [i] appends one result per trial left. *)
Lemma Plain_main_loop_spec (fuel : nat) (dry : bool)
      (minNumber maxNumber numbersCount testsCount : Z) :
  forall (i : Z) (results : list Result) (w w' : World) (results' : list Result),
    Plain.main_loop fuel env dry minNumber maxNumber numbersCount testsCount i results w
    = Returned (results', w') ->
    exists new,
      results' = results ++ new /\
      len new = Z.max 0 (testsCount - i) /\
      Forall (fun result => Count result = numbersCount) new /\
      disk w' = disk w.
Proof.
  induction fuel as [|fuel IH]; intros i results w w' results' H;
    cbn [Plain.main_loop] in H; destruct (i <? testsCount) eqn:Hi;
    try discriminate;
    try (apply Z.ltb_ge in Hi; inversion H; subst; exists [];
         rewrite app_nil_r; repeat split; [unfold len; simpl; lia | constructor]).
  apply Z.ltb_lt in Hi.
  inv_bind H. inv_bind H.
  apply IH in H. destruct H as (new & -> & Hlen & Hcount & Hdisk).
  exists (a :: new). rewrite <- app_assoc. split; [reflexivity|].
  split; [unfold len in *; cbn [List.length]; lia|].
  split.
  - constructor; [|exact Hcount]. eapply Plain_runTest_Count; eassumption.
  - rewrite Hdisk.
    assert (Hk : keeps_disk (if dry then bind Plain.wait (fun _ => Plain.clearScreen)
                             else ret tt)).
    { destruct dry; unfold Plain.wait, Plain.clearScreen; keeps. }
    rewrite (Hk _ _ _ Hstep0).
    eapply keeps_Plain_runTest; eassumption.
Qed.

Lemma Termbox_main_loop_spec (fuel : nat)
      (minNumber maxNumber numbersCount testsCount : Z) :
  forall (i : Z) (results : list Result) (w w' : World) (results' : list Result),
    Termbox.main_loop fuel env minNumber maxNumber numbersCount testsCount i results w
    = Returned (results', w') ->
    exists new,
      results' = results ++ new /\
      len new = Z.max 0 (testsCount - i) /\
      Forall (fun result => Count result = numbersCount) new /\
      disk w' = disk w.
Proof.
  induction fuel as [|fuel IH]; intros i results w w' results' H;
    cbn [Termbox.main_loop] in H; destruct (i <? testsCount) eqn:Hi;
    try discriminate;
    try (apply Z.ltb_ge in Hi; inversion H; subst; exists [];
         rewrite app_nil_r; repeat split; [unfold len; simpl; lia | constructor]).
  apply Z.ltb_lt in Hi.
  inv_bind H.
  apply IH in H. destruct H as (new & -> & Hlen & Hcount & Hdisk).
  exists (a :: new). rewrite <- app_assoc. split; [reflexivity|].
  split; [unfold len in *; cbn [List.length]; lia|].
  split.
  - constructor; [|exact Hcount]. eapply Termbox_runTest_Count; eassumption.
  - rewrite Hdisk. eapply keeps_Termbox_runTest; eassumption.
Qed.

Variable encode : list DatabaseItem -> bytes.

(** What a call of [saveResults] that returns has done to the disk. *)
Lemma Plain_saveResults_Returned (file : bytes) (results : list Result) (totalScore : Z)
      (avgDuration : float) (w w' : World) :
  Plain.saveResults encode env file results totalScore avgDuration w = Returned (tt, w') ->
  exists old,
    (disk w file = File old \/ (disk w file = NoFile /\ old = [])) /\
    disk w' file
    = File (WriteAt old (encode (load old ++ [new_item (Now_result env (now_calls w))
                                                       results totalScore avgDuration])) 0).
Proof.
  intros H. destruct (disk w file) as [|old|old|] eqn:Hdisk.
  - rewrite (Plain_saveResults_creates encode env file results totalScore avgDuration w Hdisk)
      in H.
    rewrite (Plain_saveResults_spec encode env file results totalScore avgDuration
                                    (set_disk w file (File [])) []
                                    (disk_set_disk w file (File []))) in H.
    unfold json_Marshal in H.
    destruct (forallb finite_DatabaseItem _); [|discriminate].
    inversion H. exists []. split; [right; now split|].
    apply disk_set_disk.
  - rewrite (Plain_saveResults_spec encode env file results totalScore avgDuration
                                    w old Hdisk) in H.
    unfold json_Marshal in H.
    destruct (forallb finite_DatabaseItem _); [|discriminate].
    inversion H. exists old. split; [now left|].
    apply disk_set_disk.
  - unfold Plain.saveResults, bind, os_OpenFile, ioutil_ReadAll in H.
    rewrite Hdisk in H. rewrite Hdisk in H. discriminate.
  - unfold Plain.saveResults, bind, os_OpenFile in H.
    rewrite Hdisk in H. discriminate.
Qed.

(** The loop of [main] gathers the results of the trials in the order of
    the trials. *)
Lemma Plain_main_loop_in_order (fuel : nat) (dry : bool)
      (minNumber maxNumber numbersCount testsCount : Z) :
  forall (i : Z) (results : list Result) (w : World),
    Plain.main_loop fuel env dry minNumber maxNumber numbersCount testsCount i results w
    = bind (trials_in_order
              (fun f => Plain.runTest f env minNumber maxNumber numbersCount)
              fuel (Z.to_nat (testsCount - i)))
           (fun new => ret (results ++ new)) w.
Proof.
  induction fuel as [|fuel IH]; intros i results w;
    cbn [Plain.main_loop]; destruct (i <? testsCount) eqn:Hi;
    try (apply Z.ltb_ge in Hi; replace (Z.to_nat (testsCount - i)) with O by lia;
         cbn; now rewrite app_nil_r);
    apply Z.ltb_lt in Hi;
    replace (Z.to_nat (testsCount - i)) with (S (Z.to_nat (testsCount - (i + 1)))) by lia;
    cbn [trials_in_order]; [reflexivity|].
  unfold bind.
  destruct (Plain.runTest fuel env minNumber maxNumber numbersCount w)
    as [[result w1]| | |]; try reflexivity.
  destruct dry; cbn [Plain.wait Plain.clearScreen ret];
    rewrite IH; unfold bind;
    (destruct (trials_in_order _ fuel _ w1) as [[new w2]| | |]; try reflexivity);
    unfold ret; now rewrite <- app_assoc.
Qed.

Lemma Termbox_main_loop_in_order (fuel : nat)
      (minNumber maxNumber numbersCount testsCount : Z) :
  forall (i : Z) (results : list Result) (w : World),
    Termbox.main_loop fuel env minNumber maxNumber numbersCount testsCount i results w
    = bind (trials_in_order
              (fun f => Termbox.runTest f env minNumber maxNumber numbersCount)
              fuel (Z.to_nat (testsCount - i)))
           (fun new => ret (results ++ new)) w.
Proof.
  induction fuel as [|fuel IH]; intros i results w;
    cbn [Termbox.main_loop]; destruct (i <? testsCount) eqn:Hi;
    try (apply Z.ltb_ge in Hi; replace (Z.to_nat (testsCount - i)) with O by lia;
         cbn; now rewrite app_nil_r);
    apply Z.ltb_lt in Hi;
    replace (Z.to_nat (testsCount - i)) with (S (Z.to_nat (testsCount - (i + 1)))) by lia;
    cbn [trials_in_order]; [reflexivity|].
  unfold bind.
  destruct (Termbox.runTest fuel env minNumber maxNumber numbersCount w)
    as [[result w1]| | |]; try reflexivity.
  rewrite IH. unfold bind.
  destruct (trials_in_order _ fuel _ w1) as [[new w2]| | |]; try reflexivity.
  unfold ret. now rewrite <- app_assoc.
Qed.

(** Trials run one after the other leave the disk as it was when each of
    them does. *)
Lemma keeps_trials_in_order (runTest : nat -> Go Result) :
  (forall f, keeps_disk (runTest f)) ->
  forall k fuel, keeps_disk (trials_in_order runTest fuel k).
Proof.
  intros Hone. induction k as [|k IH]; intros fuel;
    destruct fuel as [|fuel]; cbn [trials_in_order]; keeps.
Qed.

Lemma keeps_runTest_of (p : program) (f : nat) (minNumber maxNumber numbersCount : Z) :
  keeps_disk (runTest_of p f env minNumber maxNumber numbersCount).
Proof. destruct p; [apply keeps_Plain_runTest | apply keeps_Termbox_runTest]. Qed.

Lemma trials_in_order_Forall (P : Result -> Prop) (runTest : nat -> Go Result) :
  (forall f w r w', runTest f w = Returned (r, w') -> P r) ->
  forall k fuel w rs w',
    trials_in_order runTest fuel k w = Returned (rs, w') ->
    Forall P rs /\ List.length rs = k.
Proof.
  intros Hone. induction k as [|k IH]; intros fuel w rs w' H;
    destruct fuel as [|fuel]; cbn [trials_in_order] in H; try discriminate;
    try (inversion H; split; [constructor | reflexivity]).
  -
    inv_bind H. inv_bind H. inversion H. subst.
    apply IH in Hstep0. destruct Hstep0 as [HP Hlen]. split.
    + constructor; [eapply Hone; eassumption | assumption].
    + cbn [List.length]. now rewrite Hlen.
Qed.

(** The path [main] hands to [saveResults]. *)
Lemma expand_home_log_file (args : Args) (w : World) :
  2 <= len (arg_f args) ->
  expand_home env (arg_f args) w = Returned (log_file env args, w).
Proof.
  intros H. unfold expand_home, log_file.
  replace (len (arg_f args) <? 2) with false by (symmetry; apply Z.ltb_ge; lia).
  destruct (bytes_eqb _ _); reflexivity.
Qed.

(** [main] is its trials, run in order from the world of the first one,
    and then [saveResults] on their results. *)
Lemma main_of_trials_then_save (p : program) (fuel : nat) (args : Args) (w : World) :
  2 <= len (arg_f args) ->
  terminal_ready p env w ->
  main_of p fuel encode env args w
  = bind (trials_in_order (fun f => runTest_of p f env (fst (Atoi (arg_i args)))
                                               (fst (Atoi (arg_a args)))
                                               (fst (Atoi (arg_c args))))
                          fuel (Z.to_nat (fst (Atoi (arg_n args)))))
         (fun results =>
            Plain.saveResults encode env (log_file env args) results
                              (fst (Plain.sum_results results))
                              (snd (Plain.sum_results results)
                               / float64_of_int (len results))%float)
         (world_at_first_trial p w).
Proof.
  intros Hlen Hready.
  destruct p; cbn [main_of runTest_of world_at_first_trial terminal_ready] in *.
  - unfold Plain.main. unfold bind at 1. rewrite (expand_home_log_file args w Hlen).
    unfold bind at 1. unfold Plain.clearScreen at 1, ret at 1.
    unfold bind at 1. rewrite Plain_main_loop_in_order, Z.sub_0_r.
    unfold bind.
    destruct (trials_in_order _ fuel _ w) as [[results w2]| | |]; try reflexivity.
    unfold ret. cbn [app].
    destruct (Plain.sum_results results); reflexivity.
  - destruct Hready as [Hinit Hflush].
    unfold Termbox.main. unfold bind at 1. rewrite (expand_home_log_file args w Hlen).
    rewrite Hinit. unfold bind at 1. unfold ret at 1.
    unfold bind at 1. unfold Termbox.clearScreen at 1, bind at 1, Flush at 1.
    rewrite Hflush. unfold ret at 1.
    unfold bind at 1. rewrite Termbox_main_loop_in_order, Z.sub_0_r.
    unfold bind.
    destruct (trials_in_order _ fuel _ _) as [[results w2]| | |]; try reflexivity.
    unfold ret. cbn [app].
    change (Termbox.sum_results results) with (Plain.sum_results results).
    destruct (Plain.sum_results results); reflexivity.
Qed.


(** [saveResults] given an average that is not finite does not return. *)
Lemma Plain_saveResults_not_finite (file : bytes) (results : list Result)
      (totalScore : Z) (avgDuration : float) (w w' : World) :
  PrimFloat.is_finite avgDuration = false ->
  Plain.saveResults encode env file results totalScore avgDuration w <> Returned (tt, w').
Proof.
  intros Hnan H.
  assert (Hno : forall old,
             json_Marshal encode
                          (load old ++ [new_item (Now_result env (now_calls w))
                                                 results totalScore avgDuration]) = None).
  { intros old. unfold json_Marshal. rewrite forallb_app.
    cbn [forallb]. unfold finite_DatabaseItem at 2, new_item. cbn [AvgDuration].
    rewrite Hnan. cbn [andb]. now rewrite andb_false_r. }
  destruct (disk w file) as [|old|old|] eqn:Hdisk.
  - rewrite (Plain_saveResults_creates encode env file results totalScore avgDuration w Hdisk)
      in H.
    rewrite (Plain_saveResults_spec encode env file results totalScore avgDuration
                                    (set_disk w file (File [])) []
                                    (disk_set_disk w file (File []))) in H.
    cbn [set_disk now_calls] in H. rewrite (Hno []) in H. discriminate.
  - rewrite (Plain_saveResults_spec encode env file results totalScore avgDuration
                                    w old Hdisk) in H.
    rewrite (Hno old) in H. discriminate.
  - unfold Plain.saveResults, bind, os_OpenFile, ioutil_ReadAll in H.
    rewrite Hdisk in H. rewrite Hdisk in H. discriminate.
  - unfold Plain.saveResults, bind, os_OpenFile in H.
    rewrite Hdisk in H. discriminate.
Qed.

(** A run of no trial does not end well, whatever the log and the
    environment: the average of no duration is 0/0. *)
Lemma zero_trial_run_never_returns (fuel : nat) (args : Args) (w w' : World) :
  fst (Atoi (arg_n args)) <= 0 ->
  Plain.main fuel encode env args w <> Returned (tt, w') /\
  Termbox.main fuel encode env args w <> Returned (tt, w').
Proof.
  intros Hn. split; intros H.
  - unfold Plain.main in H.
    inv_bind H. inv_bind H. inv_bind H.
    assert (a1 = []).
    { destruct fuel; cbn [Plain.main_loop] in Hstep1;
        replace (0 <? fst (Atoi (arg_n args))) with false in Hstep1
        by (symmetry; apply Z.ltb_ge; lia);
        now inversion Hstep1. }
    subst a1. cbn in H.
    revert H. apply Plain_saveResults_not_finite. reflexivity.
  - unfold Termbox.main in H.
    inv_bind H. inv_bind H. inv_bind H. inv_bind H.
    assert (a2 = []).
    { destruct fuel; cbn [Termbox.main_loop] in Hstep2;
        replace (0 <? fst (Atoi (arg_n args))) with false in Hstep2
        by (symmetry; apply Z.ltb_ge; lia);
        now inversion Hstep2. }
    subst a2. cbn in H.
    revert H. apply (Plain_saveResults_not_finite a [] 0). reflexivity.
Qed.

End Run.



(** The same run of the full-screen program, on a path with no file: the
    scores are 2 and 0. *)
Example Termbox_run_of_two_trials :
  exists w',
    Termbox.main 20 shape_encode sample_env two_trials_args (fresh_world [] NoFile)
    = Returned (tt, w') /\
    disk w' log_path = File (B "[{}]") /\
    result_of (Termbox.main_loop 20 sample_env 10 99 3 2 0 [] (fresh_world [] NoFile))
    = Returned [ {| Score := 2; Duration := 1.5; Count := 3 |};
                 {| Score := 0; Duration := 1.5; Count := 3 |} ].
Proof.
  eexists. split; [vm_compute; reflexivity|].
  split; vm_compute; reflexivity.
Qed.

(** * Further properties *)

(** ** The scorer *)

Section ScorerMore.

Variable p : program.

Lemma compare_of_spec (e a : list Z) :
  compare_of p e a = Returned (Z.of_nat (common_prefix e a)).
Proof. destruct p; [apply Plain_compare_spec | apply Termbox_compare_spec]. Qed.

Lemma common_prefix_sym (a b : list Z) : common_prefix a b = common_prefix b a.
Proof.
  revert b; induction a as [|x a IH]; intros [|y b]; simpl; try reflexivity.
  rewrite (Z.eqb_sym y x). destruct (x =? y); [now rewrite IH | reflexivity].
Qed.

Lemma common_prefix_app_mismatch (pre s t : list Z) (x y : Z) :
  x <> y -> common_prefix (pre ++ x :: s) (pre ++ y :: t) = List.length pre.
Proof.
  intros Hxy. induction pre as [|z pre IH]; simpl.
  - destruct (x =? y) eqn:E; [apply Z.eqb_eq in E; contradiction | reflexivity].
  - now rewrite Z.eqb_refl, IH.
Qed.

Lemma common_prefix_app_r (a t : list Z) : common_prefix a (a ++ t) = List.length a.
Proof.
  induction a as [|x a IH]; simpl; [reflexivity|]. now rewrite Z.eqb_refl, IH.
Qed.

(** X1.  The score is 0 exactly when one of the sequences is empty or the
    two differ at their first element. *)
Theorem scorer_zero_iff (e a : list Z) :
  compare_of p e a = Returned 0 <->
  (e = [] \/ a = [] \/ hd_error e <> hd_error a).
Proof.
  rewrite compare_of_spec. split.
  - intros H. destruct e as [|x e]; [now left|]. destruct a as [|y a]; [now right; left|].
    right; right. simpl in *. intros Heq. inversion Heq. subst.
    rewrite Z.eqb_refl in H. inversion H.
  - intros [->|[->|H]].
    + reflexivity.
    + destruct e; reflexivity.
    + destruct e as [|x e], a as [|y a]; try reflexivity.
      simpl in *. destruct (x =? y) eqn:E; [|reflexivity].
      apply Z.eqb_eq in E. subst. now contradiction H.
Qed.

(** X2.  The score does not depend on which sequence is the expected one. *)
Theorem scorer_symmetric (e a : list Z) :
  compare_of p e a = compare_of p a e /\
  exists score, compare_of p e a = Returned score.
Proof.
  rewrite !compare_of_spec, (common_prefix_sym a e). split; [reflexivity|].
  eexists; reflexivity.
Qed.

(** X3.  After [pre], common to both sequences, and one position at which
    they differ, nothing that follows counts: the score is the length of
    [pre]. *)
Theorem scorer_ignores_what_follows_a_mismatch (pre s t : list Z) (x y : Z) :
  x <> y ->
  compare_of p (pre ++ x :: s) (pre ++ y :: t) = Returned (len pre).
Proof.
  intros Hxy. rewrite compare_of_spec. unfold len. f_equal. f_equal.
  now apply common_prefix_app_mismatch.
Qed.

(** X4.  An answer that goes on after the whole expected sequence scores
    all of it, and an answer that stops early scores what it has of it. *)
Theorem scorer_longer_or_shorter_answer (e t : list Z) (k : nat) :
  compare_of p e (e ++ t) = Returned (len e) /\
  compare_of p e (firstn k e) = Returned (Z.min (Z.of_nat k) (len e)).
Proof.
  rewrite !compare_of_spec. split.
  - now rewrite common_prefix_app_r.
  - rewrite common_prefix_sym.
    rewrite <- (firstn_skipn k e) at 2. rewrite common_prefix_app_r.
    rewrite length_firstn. unfold len. f_equal. lia.
Qed.

End ScorerMore.

Lemma scorer_ignores_what_follows_a_mismatch_witness :
  compare_of TermboxProgram ([14; 21] ++ 28 :: [35]) ([14; 21] ++ 82 :: [35; 42])
  = Returned (len [14; 21]).
Proof.
  apply (scorer_ignores_what_follows_a_mismatch TermboxProgram [14; 21] [35] [35; 42] 28 82).
  discriminate.
Defined.

(** ** The random sequence generator *)

Section GeneratorMore.

Variable env : Env.
Variables min max count : Z.

(** Whatever the loop returns, it has appended the draws it accepted among
    those it consumed, and has stopped at the last one it needed. *)
Lemma Plain_generate_loop_returns (fuel : nat) :
  forall (i : Z) (numbers : list Z) (w w' : World) (ns : list Z),
    Plain.generate_loop fuel env min max count i numbers w = Returned (ns, w') ->
    ns = numbers ++ accepted env min (rand_calls w) (rand_calls w' - rand_calls w) /\
    len ns = len numbers + Z.max 0 (count - i) /\
    (rand_calls w <= rand_calls w')%nat /\
    scan_calls w' = scan_calls w /\ now_calls w' = now_calls w /\
    poll_calls w' = poll_calls w /\ flush_calls w' = flush_calls w /\
    disk w' = disk w.
Proof.
  induction fuel as [|fuel IH]; intros i numbers w w' ns H;
    cbn [Plain.generate_loop] in H; destruct (i <? count) eqn:Hi;
    try discriminate;
    try (apply Z.ltb_ge in Hi; inversion H; subst;
         rewrite Nat.sub_diag; cbn [accepted]; rewrite app_nil_r;
         repeat split; lia).
  apply Z.ltb_lt in Hi.
  apply bind_Returned in H. destruct H as (bigNumber & w1 & Hdraw & H).
  unfold rand_Int in Hdraw. destruct (max <=? 0); [discriminate|].
  inversion Hdraw. subst bigNumber w1. clear Hdraw.
  apply bind_Returned in H. destruct H as (number & w2 & Hnum & H).
  destruct (rand_Int_result env (rand_calls w)) as [v|] eqn:Ev; [|discriminate].
  inversion Hnum. subst number w2. clear Hnum.
  destruct (v <? min) eqn:Hv; apply IH in H; cbn [rand_calls scan_calls now_calls
    poll_calls flush_calls disk] in H;
    destruct H as (Hns & Hlen & Hr & Hs & Hn & Hp & Hf & Hd).
  - replace (rand_calls w' - rand_calls w)%nat
      with (S (rand_calls w' - S (rand_calls w))) by lia.
    cbn [accepted]. rewrite Ev, Hv.
    repeat split; try assumption; lia.
  - replace (rand_calls w' - rand_calls w)%nat
      with (S (rand_calls w' - S (rand_calls w))) by lia.
    cbn [accepted]. rewrite Ev, Hv.
    rewrite <- app_assoc in Hns. cbn [app] in Hns.
    unfold len in *. rewrite length_app in Hlen. cbn [List.length] in Hlen.
    repeat split; try assumption; lia.
Qed.

(** X5.  Whenever the generator returns, it returns exactly [count] numbers
    (none for a [count] of 0 or less), which are the draws not below [min]
    among those it consumed, in order; apart from the random source it
    leaves the world as it was.  Both programs, whatever the source
    answers. *)
Theorem generator_returns_the_draws_it_kept
        (p : program) (fuel : nat) (w w' : World) (numbers : list Z) :
  generateRandomNumbers_of p fuel env min max count w = Returned (numbers, w') ->
  len numbers = Z.max 0 count /\
  numbers = accepted env min (rand_calls w) (rand_calls w' - rand_calls w) /\
  Forall (fun n => min <= n) numbers /\
  scan_calls w' = scan_calls w /\ now_calls w' = now_calls w /\
  poll_calls w' = poll_calls w /\ flush_calls w' = flush_calls w /\
  disk w' = disk w.
Proof.
  intros H.
  assert (H' : Plain.generate_loop fuel env min max count 0 [] w = Returned (numbers, w'))
    by (destruct p; exact H).
  apply Plain_generate_loop_returns in H'.
  destruct H' as (Hns & Hlen & _ & Hs & Hn & Hp & Hf & Hd).
  cbn [app] in Hns. rewrite Z.sub_0_r in Hlen.
  change (len (@nil Z)) with 0 in Hlen.
  split; [lia|]. split; [exact Hns|].
  split; [rewrite Hns; apply accepted_above|].
  repeat split; assumption.
Qed.

(** The loop makes no progress on a source whose draws are all below
    [min]. *)
Lemma Plain_generate_loop_starves (fuel : nat) :
  forall (i : Z) (numbers : list Z) (w : World),
    0 < max -> i < count ->
    (forall k, exists v, rand_Int_result env k = Some v /\ v < min) ->
    Plain.generate_loop fuel env min max count i numbers w = OutOfFuel.
Proof.
  induction fuel as [|fuel IH]; intros i numbers w Hmax Hi Hlow;
    cbn [Plain.generate_loop];
    replace (i <? count) with true by (symmetry; apply Z.ltb_lt; lia);
    [reflexivity|].
  unfold bind at 1. unfold rand_Int.
  replace (max <=? 0) with false by (symmetry; apply Z.leb_gt; lia).
  destruct (Hlow (rand_calls w)) as (v & Ev & Hv). rewrite Ev.
  unfold bind at 1. cbn [Int64 ret].
  replace (v <? min) with true by (symmetry; apply Z.ltb_lt; lia).
  replace (i - 1 + 1) with i by lia. now apply IH.
Qed.

(** X6.  With [max <= min] no draw of [rand.Int], which answers below
    [max], is ever kept: for a positive [max] and [count] the generator is
    still drawing after any number of draws.  Both programs. *)
Theorem generator_never_returns_without_room
        (p : program) (fuel : nat) (w : World) :
  0 < max -> max <= min -> 0 < count ->
  (forall k, exists v, rand_Int_result env k = Some v /\ 0 <= v < max) ->
  generateRandomNumbers_of p fuel env min max count w = OutOfFuel.
Proof.
  intros Hmax Hroom Hcount Hrange.
  assert (H : Plain.generate_loop fuel env min max count 0 [] w = OutOfFuel).
  { apply Plain_generate_loop_starves; try assumption.
    intros k. destruct (Hrange k) as (v & Ev & Hv). exists v. split; [exact Ev | lia]. }
  destruct p; exact H.
Qed.

End GeneratorMore.

Lemma generator_returns_the_draws_it_kept_witness :
  len [14; 21; 28] = Z.max 0 3 /\
  [14; 21; 28] = accepted sample_env 10 0 (5 - 0) /\
  Forall (fun n => 10 <= n) [14; 21; 28] /\
  scan_calls (fresh_world [] NoFile) = 0%nat /\ now_calls (fresh_world [] NoFile) = 0%nat /\
  poll_calls (fresh_world [] NoFile) = 0%nat /\ flush_calls (fresh_world [] NoFile) = 0%nat /\
  disk (fresh_world [] NoFile) = disk (fresh_world [] NoFile).
Proof.
  apply (generator_returns_the_draws_it_kept
           sample_env 10 99 3 TermboxProgram 9 (fresh_world [] NoFile)
           {| rand_calls := 5; scan_calls := 0; now_calls := 0; poll_calls := 0;
              flush_calls := 0; disk := disk (fresh_world [] NoFile) |}).
  reflexivity.
Defined.

Lemma generator_never_returns_without_room_witness :
  generateRandomNumbers_of PlainProgram 1000 sample_env 99 99 7 (fresh_world [] NoFile)
  = OutOfFuel.
Proof.
  apply (generator_never_returns_without_room sample_env 99 99 7).
  - lia.
  - lia.
  - lia.
  - intros k. eexists. split; [reflexivity|]. apply Z.mod_pos_bound. lia.
Defined.

(** ** One trial *)

Section TrialMore.

Variable env : Env.

Ltac inv_bind H :=
  let a := fresh "a" in
  let w1 := fresh "w" in
  let H1 := fresh "Hstep" in
  apply bind_Returned in H; destruct H as (a & w1 & H1 & H).

Lemma lift_compare_Returned (valid user : list Z) (w w' : World) (score : Z) :
  lift (Plain.compare valid user) w = Returned (score, w') ->
  score = Z.of_nat (common_prefix valid user) /\ w' = w.
Proof.
  rewrite Plain_compare_spec. intros H. inversion H. now split.
Qed.

(** The score of a trial is between 0 and the size asked for. *)
Lemma runTest_of_Score
      (p : program) (fuel : nat) (minNumber maxNumber numbersCount : Z)
      (w w' : World) (result : Result) :
  runTest_of p fuel env minNumber maxNumber numbersCount w = Returned (result, w') ->
  0 <= Score result <= Z.max 0 numbersCount.
Proof.
  intros H. destruct p; cbn [runTest_of] in H.
  - unfold Plain.runTest in H.
    inv_bind H. apply Plain_generate_loop_returns in Hstep.
    destruct Hstep as (_ & Hlen & _).
    do 6 inv_bind H. inv_bind H.
    apply lift_compare_Returned in Hstep5. destruct Hstep5 as [-> _].
    inversion H. cbn [Score].
    pose proof (common_prefix_le a a3) as Hle.
    unfold len in Hlen. cbn [List.length] in Hlen. lia.
  - unfold Termbox.runTest in H.
    inv_bind H. apply Plain_generate_loop_returns in Hstep.
    destruct Hstep as (_ & Hlen & _).
    destruct (Size env) as [width height].
    do 8 inv_bind H. inv_bind H.
    apply lift_compare_Returned in Hstep7. destruct Hstep7 as [-> _].
    inversion H. cbn [Score].
    pose proof (common_prefix_le a a6) as Hle.
    unfold len in Hlen. cbn [List.length] in Hlen. lia.
Qed.

(** X7.  The result of every trial carries the size asked for as its
    count and a score between 0 and that size (0 when the size is 0 or
    less).  Both programs, whatever the user types. *)
Theorem trial_score_within_count
        (p : program) (fuel : nat) (minNumber maxNumber numbersCount : Z)
        (w w' : World) (result : Result) :
  runTest_of p fuel env minNumber maxNumber numbersCount w = Returned (result, w') ->
  Count result = numbersCount /\
  0 <= Score result <= Z.max 0 numbersCount.
Proof.
  intros H. split.
  - destruct p; cbn [runTest_of] in H;
      [eapply Plain_runTest_Count | eapply Termbox_runTest_Count]; eassumption.
  - eapply runTest_of_Score; eassumption.
Qed.

End TrialMore.

Lemma trial_score_within_count_witness :
  exists result w',
    runTest_of TermboxProgram 19 sample_env 10 99 3 (fresh_world [] NoFile)
    = Returned (result, w') /\
    Count result = 3 /\
    0 <= Score result <= Z.max 0 3.
Proof.
  eexists. eexists. split.
  - vm_compute. reflexivity.
  - eapply (trial_score_within_count sample_env TermboxProgram 19 10 99 3
                                     (fresh_world [] NoFile)).
    vm_compute. reflexivity.
Defined.

(** ** What is shown and what is read *)

Section ShownAndRead.

Import Decimal DecimalPos.

Lemma decimal_value_uint (d : uint) :
  forall acc,
    decimal_value (B (NilEmpty.string_of_uint d)) acc
    = Z.of_N (Unsigned.of_lu (rev d)) + acc * 10 ^ Z.of_N (Unsigned.usize d).
Proof.
  induction d; intros acc;
    [ cbn; lia | .. ];
    cbn [NilEmpty.string_of_uint B list_ascii_of_string decimal_value];
    fold (B (NilEmpty.string_of_uint d));
    unfold rev; cbn [revapp]; rewrite (Unsigned.of_lu_revapp d);
    rewrite IHd;
    cbn [Unsigned.usize Unsigned.of_lu];
    rewrite N2Z.inj_add, N2Z.inj_mul, N2Z.inj_pow, N2Z.inj_succ, Z.pow_succ_r
      by apply N2Z.is_nonneg;
    change (code "0" - 48) with 0; change (code "1" - 48) with 1;
    change (code "2" - 48) with 2; change (code "3" - 48) with 3;
    change (code "4" - 48) with 4; change (code "5" - 48) with 5;
    change (code "6" - 48) with 6; change (code "7" - 48) with 7;
    change (code "8" - 48) with 8; change (code "9" - 48) with 9;
    cbn [Z.of_N N.mul N.add]; lia.
Qed.

Lemma decimal_value_to_uint (p : positive) :
  decimal_value (B (NilZero.string_of_uint (Pos.to_uint p))) 0 = Z.pos p.
Proof.
  replace (NilZero.string_of_uint (Pos.to_uint p))
    with (NilEmpty.string_of_uint (Pos.to_uint p)).
  - rewrite decimal_value_uint, <- Unsigned.of_uint_alt, Unsigned.of_to. simpl. lia.
  - pose proof (Unsigned.to_uint_nonnil p). now destruct (Pos.to_uint p).
Qed.

Lemma string_of_uint_digits (d : uint) :
  Forall digit_byte (B (NilEmpty.string_of_uint d)).
Proof.
  induction d; cbn [NilEmpty.string_of_uint B list_ascii_of_string];
    constructor; try reflexivity; assumption.
Qed.

Lemma to_uint_digits (p : positive) :
  Forall digit_byte (B (NilZero.string_of_uint (Pos.to_uint p))) /\
  B (NilZero.string_of_uint (Pos.to_uint p)) <> [].
Proof.
  pose proof (Unsigned.to_uint_nonnil p) as Hn.
  pose proof (string_of_uint_digits (Pos.to_uint p)) as Hd.
  destruct (Pos.to_uint p); try contradiction; split; try exact Hd; discriminate.
Qed.

Lemma digit_byte_code (c : ascii) : digit_byte c -> 48 <= code c <= 57.
Proof.
  unfold digit_byte, is_digit. intros H. apply andb_prop in H. destruct H as [H1 H2].
  apply Z.leb_le in H1, H2. lia.
Qed.

Lemma Atoi_fast_loop_digits (s : bytes) :
  forall acc, Forall digit_byte s -> Atoi_fast_loop s acc = Some (decimal_value s acc).
Proof.
  induction s as [|c s IH]; intros acc H; [reflexivity|].
  inversion H as [|? ? Hc Hs]. subst. apply digit_byte_code in Hc.
  cbn [Atoi_fast_loop decimal_value].
  rewrite Z.mod_small by lia.
  replace (9 <? code c - 48) with false by (symmetry; apply Z.ltb_ge; lia).
  now apply IH.
Qed.

Lemma decimal_value_ge (s : bytes) :
  forall acc, Forall digit_byte s -> 0 <= acc -> acc <= decimal_value s acc.
Proof.
  induction s as [|c s IH]; intros acc H Hacc; [simpl; lia|].
  inversion H as [|? ? Hc Hs]. subst. apply digit_byte_code in Hc.
  cbn [decimal_value]. specialize (IH (acc * 10 + (code c - 48)) Hs). lia.
Qed.

Lemma ParseUint_loop_digits (s : bytes) :
  forall acc,
    Forall digit_byte s -> 0 <= acc -> decimal_value s acc <= maxUint64 ->
    ParseUint_loop s acc = (decimal_value s acc, None).
Proof.
  induction s as [|c s IH]; intros acc H Hacc Hmax; [reflexivity|].
  inversion H as [|? ? Hc Hs]. subst. pose proof Hc as Hd. apply digit_byte_code in Hc.
  cbn [ParseUint_loop decimal_value] in *.
  unfold digit_byte in Hd. rewrite Hd. cbn [negb].
  pose proof (decimal_value_ge s (acc * 10 + (code c - 48)) Hs) as Hge.
  unfold maxUint64 in *.
  replace (18446744073709551615 / 10 + 1 <=? acc) with false
    by (symmetry; apply Z.leb_gt; change (18446744073709551615 / 10 + 1)
          with 1844674407370955162; lia).
  cbv zeta. rewrite Z.mod_small by (change (2 ^ 64) with 18446744073709551616; lia).
  replace (acc * 10 + (code c - 48) <? acc * 10) with false
    by (symmetry; apply Z.ltb_ge; lia).
  replace (18446744073709551615 <? acc * 10 + (code c - 48)) with false
    by (symmetry; apply Z.ltb_ge; lia).
  cbn [orb]. apply IH; [assumption | lia | assumption].
Qed.

Lemma digit_byte_not_sign (c : ascii) :
  digit_byte c -> byte_eqb c "-" = false /\ byte_eqb c "+" = false.
Proof.
  intros H. apply digit_byte_code in H. unfold byte_eqb.
  split; apply Ascii.eqb_neq; intros ->; vm_compute in H; destruct H as [H1 H2];
    (now apply H1) || (now apply H2).
Qed.

(** [Atoi] on a run of digits that is not empty and whose value fits. *)
Lemma Atoi_digits (s : bytes) :
  s <> [] -> Forall digit_byte s -> decimal_value s 0 <= maxInt64 ->
  Atoi s = (decimal_value s 0, None).
Proof.
  intros Hne Hd Hmax. destruct s as [|c rest]; [contradiction|].
  inversion Hd as [|? ? Hc Hrest]. subst.
  destruct (digit_byte_not_sign c Hc) as [Hm Hp].
  unfold Atoi. destruct ((0 <? len (c :: rest)) && (len (c :: rest) <? 19)).
  - rewrite Hm, Hp. cbn [orb andb]. now rewrite Atoi_fast_loop_digits.
  - unfold ParseInt. rewrite Hm, Hp. cbn [orb]. unfold ParseUint.
    rewrite ParseUint_loop_digits; [| assumption | lia | unfold maxInt64, maxUint64 in *; lia].
    cbn [negb andb].
    replace (2 ^ 63 <=? decimal_value (c :: rest) 0) with false
      by (symmetry; apply Z.leb_gt; unfold maxInt64 in Hmax;
          change (2 ^ 63) with 9223372036854775808; lia).
    reflexivity.
Qed.

Lemma Atoi_minus_digits (s : bytes) :
  s <> [] -> Forall digit_byte s -> decimal_value s 0 <= - minInt64 ->
  Atoi ("-"%char :: s) = (- decimal_value s 0, None).
Proof.
  intros Hne Hd Hmax. destruct s as [|c rest]; [contradiction|].
  unfold Atoi. destruct ((0 <? len ("-"%char :: c :: rest)) && (len ("-"%char :: c :: rest) <? 19)).
  - change (byte_eqb "-" "-") with true. cbn [orb andb].
    replace (len (c :: rest) <? 1) with false
      by (symmetry; apply Z.ltb_ge; unfold len; cbn [List.length]; lia).
    now rewrite Atoi_fast_loop_digits.
  - unfold ParseInt. change (byte_eqb "-" "-") with true.
    change (byte_eqb "-" "+") with false. cbn [orb]. unfold ParseUint.
    rewrite ParseUint_loop_digits;
      [| assumption | lia | unfold minInt64, maxUint64 in *; lia].
    cbn [negb andb].
    replace (2 ^ 63 <? decimal_value (c :: rest) 0) with false
      by (symmetry; apply Z.ltb_ge; unfold minInt64 in Hmax;
          change (2 ^ 63) with 9223372036854775808; lia).
    reflexivity.
Qed.

(** What [Itoa] prints, [Atoi] reads back. *)
Lemma Atoi_Itoa (n : Z) :
  minInt64 <= n <= maxInt64 -> Atoi (Itoa n) = (n, None).
Proof.
  intros Hn. unfold Itoa. destruct n as [|p|p]; cbn [Z.to_int NilZero.string_of_int].
  - reflexivity.
  - destruct (to_uint_digits p) as [Hd Hne].
    rewrite Atoi_digits; rewrite ?decimal_value_to_uint; try assumption; [reflexivity | lia].
  - destruct (to_uint_digits p) as [Hd Hne].
    cbn [B list_ascii_of_string]. fold (B (NilZero.string_of_uint (Pos.to_uint p))).
    rewrite Atoi_minus_digits; rewrite ?decimal_value_to_uint; try assumption;
      [reflexivity | unfold minInt64 in *; lia].
Qed.

Lemma byte_eqb_eq (a b : ascii) : byte_eqb a b = true <-> a = b.
Proof. apply Ascii.eqb_eq. Qed.

Lemma Split_without_sep (s : bytes) (sep : ascii) :
  ~ In sep s -> Split s sep = [s].
Proof.
  induction s as [|c s IH]; intros H; [reflexivity|].
  cbn [Split]. destruct (byte_eqb c sep) eqn:E.
  - apply byte_eqb_eq in E. subst. exfalso. apply H. now left.
  - rewrite IH; [reflexivity|]. intros Hin. apply H. now right.
Qed.

Lemma Split_app_sep (piece rest : bytes) (sep : ascii) :
  ~ In sep piece -> Split (piece ++ sep :: rest) sep = piece :: Split rest sep.
Proof.
  induction piece as [|c piece IH]; intros H.
  - change ([] ++ sep :: rest) with (sep :: rest). cbn [Split].
    now rewrite (proj2 (byte_eqb_eq sep sep) eq_refl).
  - change ((c :: piece) ++ sep :: rest) with (c :: (piece ++ sep :: rest)). cbn [Split].
    destruct (byte_eqb c sep) eqn:E.
    + apply byte_eqb_eq in E. subst. exfalso. apply H. now left.
    + rewrite IH; [reflexivity|]. intros Hin. apply H. now right.
Qed.

(** Splitting at the spaces what was joined with spaces gives the pieces
    back, when there is a piece and no piece has a space. *)
Lemma Split_Join (pieces : list bytes) :
  pieces <> [] -> Forall (fun piece => ~ In " "%char piece) pieces ->
  Split (Join pieces (B " ")) " " = pieces.
Proof.
  induction pieces as [|piece rest IH]; intros Hne H; [contradiction|].
  inversion H as [|? ? Hp Hrest]. subst.
  destruct rest as [|piece' rest'].
  - cbn [Join]. now apply Split_without_sep.
  - change (Join (piece :: piece' :: rest') (B " "))
      with (piece ++ " "%char :: Join (piece' :: rest') (B " ")).
    rewrite Split_app_sep by assumption. f_equal. apply IH; [discriminate | assumption].
Qed.

Lemma digit_byte_not_space (c : ascii) : digit_byte c -> c <> " "%char.
Proof. intros H ->. discriminate H. Qed.

Lemma Itoa_without_space (n : Z) : ~ In " "%char (Itoa n).
Proof.
  unfold Itoa. intros Hin.
  assert (Hd : forall p, ~ In " "%char (B (NilZero.string_of_uint (Pos.to_uint p)))).
  { intros p Hp. destruct (to_uint_digits p) as [Hd _].
    rewrite Forall_forall in Hd. now apply (digit_byte_not_space _ (Hd _ Hp)). }
  destruct n as [|p|p]; cbn [Z.to_int NilZero.string_of_int] in Hin.
  - destruct Hin as [H|[]]. discriminate H.
  - now apply (Hd p).
  - cbn [B list_ascii_of_string] in Hin. destruct Hin as [H|H]; [discriminate H|].
    now apply (Hd p).
Qed.

Lemma Atoi_Itoa_all (numbers : list Z) :
  Forall (fun n => minInt64 <= n <= maxInt64) numbers ->
  map (fun piece => fst (Atoi piece)) (map Itoa numbers) = numbers.
Proof.
  induction 1 as [|n numbers Hn _ IH]; [reflexivity|].
  cbn [map]. now rewrite Atoi_Itoa, IH.
Qed.

(** The line of a sequence, as the presenter shows it, read by the
    collector. *)
Lemma collect_shown_line (numbers : list Z) :
  Forall (fun n => minInt64 <= n <= maxInt64) numbers ->
  map (fun piece => fst (Atoi piece)) (Split (Join (map Itoa numbers) (B " ")) " ")
  = match numbers with [] => [0] | _ => numbers end.
Proof.
  intros H. destruct numbers as [|n numbers]; [reflexivity|].
  rewrite Split_Join.
  - now apply Atoi_Itoa_all.
  - discriminate.
  - apply Forall_forall. intros piece Hin. apply in_map_iff in Hin.
    destruct Hin as (m & <- & _). apply Itoa_without_space.
Qed.

(** X8.  When the line the plain program reads is the line it has shown for
    a sequence that is not empty, the collector returns that sequence: what
    [Itoa] and [Join] print, [Split] and [Atoi] read back. *)
Theorem collector_reads_back_the_line_shown (env : Env) (w : World) (numbers : list Z) :
  numbers <> [] ->
  Forall (fun n => minInt64 <= n <= maxInt64) numbers ->
  Scan_result env (scan_calls w) = Some (Join (map Itoa numbers) (B " ")) ->
  result_of (Plain.getNumbersFromStdin env w) = Returned numbers.
Proof.
  intros Hne Hrange Hscan.
  destruct (Plain_getNumbersFromStdin_spec env w _ Hscan) as (w' & Hrun & _).
  rewrite Hrun. cbn [result_of]. rewrite collect_shown_line by assumption.
  destruct numbers; [contradiction | reflexivity].
Qed.

(** X9.  A trial of the plain program in which the user types back the line
    shown scores every number of the sequence. *)
Theorem trial_of_the_line_shown_scores_all
        (fuel : nat) (env : Env) (minNumber maxNumber numbersCount : Z)
        (w w1 : World) (validNumbers : list Z) :
  Plain.generateRandomNumbers fuel env minNumber maxNumber numbersCount w
  = Returned (validNumbers, w1) ->
  Forall (fun n => minInt64 <= n <= maxInt64) validNumbers ->
  Scan_result env (scan_calls w1) = Some (Join (map Itoa validNumbers) (B " ")) ->
  exists result w',
    Plain.runTest fuel env minNumber maxNumber numbersCount w = Returned (result, w') /\
    Score result = len validNumbers /\
    Score result = Z.max 0 numbersCount.
Proof.
  intros Hgen Hrange Hscan.
  pose proof (Plain_generate_loop_returns env minNumber maxNumber numbersCount
                fuel 0 [] w w1 validNumbers Hgen) as (_ & Hlen & _).
  change (len (@nil Z)) with 0 in Hlen. rewrite Z.sub_0_r in Hlen.
  unfold Plain.runTest. unfold bind at 1. rewrite Hgen.
  unfold bind at 1. unfold time_Now at 1.
  unfold bind at 1. unfold Plain.wait at 1, ret at 1.
  unfold bind at 1. unfold Plain.clearScreen at 1, ret at 1.
  unfold bind at 1.
  match goal with |- context [Plain.getNumbersFromStdin env ?w2] =>
    destruct (Plain_getNumbersFromStdin_spec env w2 _ Hscan) as (w3 & Hrun & _) end.
  rewrite Hrun, collect_shown_line by assumption.
  unfold bind at 1. unfold time_Now at 1.
  unfold bind at 1. unfold Plain.clearScreen at 1, ret at 1.
  unfold bind at 1. rewrite Plain_compare_spec. cbn [lift]. unfold ret.
  eexists. eexists. split; [reflexivity|]. cbn [Score].
  assert (Hscore : Z.of_nat (common_prefix validNumbers
                               match validNumbers with [] => [0] | _ :: _ => validNumbers end)
                   = len validNumbers).
  { destruct validNumbers as [|n ns]; [reflexivity|].
    now rewrite common_prefix_same. }
  rewrite Hscore. split; [reflexivity | lia].
Qed.

End ShownAndRead.

Lemma collector_reads_back_the_line_shown_witness :
  result_of (Plain.getNumbersFromStdin
               {| rand_Int_result := rand_Int_result sample_env;
                  Scan_result := fun _ => Some (B "14 21 -28");
                  Now_result := Now_result sample_env;
                  PollEvent_result := PollEvent_result sample_env;
                  Flush_error := Flush_error sample_env;
                  Init_error := false; Size := (80, 24); HOME := [] |}
               (fresh_world [] NoFile))
  = Returned [14; 21; -28].
Proof.
  apply (collector_reads_back_the_line_shown _ (fresh_world [] NoFile) [14; 21; -28]).
  - discriminate.
  - repeat constructor; discriminate.
  - reflexivity.
Defined.

Lemma trial_of_the_line_shown_scores_all_witness :
  exists result w',
    Plain.runTest 19 sample_env 10 99 2 (fresh_world [] NoFile) = Returned (result, w') /\
    Score result = len [14; 21] /\
    Score result = Z.max 0 2.
Proof.
  eapply (trial_of_the_line_shown_scores_all 19 sample_env 10 99 2 (fresh_world [] NoFile)).
  - vm_compute. reflexivity.
  - repeat constructor; discriminate.
  - reflexivity.
Defined.

(** ** The prompt of the full-screen program *)

Section ReadText.

Variable env : Env.
Variables x y : Z.

Lemma byte_of_code (c : ascii) : byte_of (code c) = c.
Proof. unfold byte_of, code. rewrite N2Z.id. apply ascii_N_embedding. Qed.

Lemma firstn_removelast (text : bytes) :
  firstn (Z.to_nat (len text - 1)) text = removelast text.
Proof.
  unfold len. rewrite removelast_firstn_len. f_equal. lia.
Qed.

Lemma readText_step (fuel : nat) (text : bytes) (w : World) :
  Termbox.readText (S fuel) env x y text w
  = (let event := PollEvent_result env (poll_calls w) in
     let w1 := polled w 1 0 in
     if negb (isEventKey event) then Termbox.readText fuel env x y text w1
     else
       let text := if is_digit_rune (Ch event) then text ++ [byte_of (Ch event)] else text in
       match EvKey event with
       | KeySpace => Termbox.readText fuel env x y (text ++ B " ") (polled w 1 1)
       | KeyBackspace2 =>
         if len text =? 0 then Termbox.readText fuel env x y text (polled w 1 1)
         else if Flush_error env (flush_calls w) then Panicked "termbox.Flush"
              else Termbox.readText fuel env x y (removelast text) (polled w 1 3)
       | KeyEnter => Returned (text, w1)
       | KeyCtrlC | KeyCtrlZ => Exited 0
       | KeyOther _ => Termbox.readText fuel env x y text (polled w 1 1)
       end).
Proof.
  cbn [Termbox.readText]. unfold bind at 1. unfold PollEvent at 1.
  cbv zeta. unfold polled. rewrite !Nat.add_0_r, !Nat.add_1_r.
  destruct (negb (isEventKey (PollEvent_result env (poll_calls w)))); [reflexivity|].
  unfold is_digit_rune.
  destruct (EvKey (PollEvent_result env (poll_calls w))); try reflexivity.
  destruct (len _ =? 0) eqn:E; [reflexivity|].
  rewrite firstn_removelast.
  unfold bind, Termbox.clearScreen, Termbox.printText, bind, Flush, ret, panic.
  cbn [flush_calls rand_calls scan_calls now_calls poll_calls disk].
  destruct (Flush_error env (flush_calls w)); [reflexivity|].
  replace (flush_calls w + 3)%nat with (S (S (S (flush_calls w)))) by lia.
  reflexivity.
Qed.

Lemma polled_polled (w : World) (a b c d : nat) :
  polled (polled w a b) c d = polled w (a + c) (b + d).
Proof. unfold polled. cbn. f_equal; lia. Qed.

(** The strokes of the user, one event each and Enter after them, give the
    text they spell. *)
Lemma readText_strokes (strokes : list stroke) :
  forall (fuel : nat) (text : bytes) (w : World),
    Forall stroke_ok strokes ->
    (forall j, (j < List.length strokes)%nat ->
               PollEvent_result env (poll_calls w + j)
               = stroke_event (nth j strokes Rubout)) ->
    PollEvent_result env (poll_calls w + List.length strokes) = key_event KeyEnter 0 ->
    (forall k, Flush_error env k = false) ->
    (List.length strokes < fuel)%nat ->
    exists flushes,
      Termbox.readText fuel env x y text w
      = Returned (strokes_text strokes text,
                  polled w (S (List.length strokes)) flushes).
Proof.
  induction strokes as [|s strokes IH]; intros fuel text w Hok Hev Henter Hflush Hfuel;
    (destruct fuel as [|fuel]; [cbn [List.length] in Hfuel; lia|]);
    rewrite readText_step; cbv zeta.
  - cbn [List.length] in Henter. rewrite Nat.add_0_r in Henter. rewrite Henter.
    cbn. exists O. reflexivity.
  - inversion Hok as [|? ? Hs Hrest]. subst.
    pose proof (Hev O ltac:(cbn [List.length]; lia)) as H0.
    rewrite Nat.add_0_r in H0. cbn [nth] in H0.
    assert (Hgo : forall flushes text',
               exists flushes',
                 Termbox.readText fuel env x y text' (polled w 1 flushes)
                 = Returned (strokes_text strokes text',
                             polled w (S (S (List.length strokes))) flushes')).
    { intros flushes text'.
      destruct (IH fuel text' (polled w 1 flushes)) as (fl & Hrun).
      - assumption.
      - intros j Hj. cbn [polled poll_calls].
        replace (poll_calls w + 1 + j)%nat with (poll_calls w + S j)%nat by lia.
        rewrite Hev by (cbn [List.length]; lia). reflexivity.
      - cbn [polled poll_calls].
        replace (poll_calls w + 1 + List.length strokes)%nat
          with (poll_calls w + List.length (s :: strokes))%nat
          by (cbn [List.length]; lia).
        exact Henter.
      - assumption.
      - cbn [List.length] in Hfuel. lia.
      - rewrite polled_polled in Hrun. exists (flushes + fl)%nat.
        rewrite Hrun. reflexivity. }
    rewrite H0. cbn [List.length strokes_text].
    destruct s as [c| |e]; cbn [stroke_event stroke_ok] in *.
    + destruct Hs as [Hd| ->].
      * assert (Hsp : byte_eqb c " " = false).
        { unfold byte_eqb. apply Ascii.eqb_neq. intros ->. discriminate Hd. }
        rewrite Hsp. cbn [key_event isEventKey EvKey Ch negb].
        unfold is_digit in Hd. unfold is_digit_rune. rewrite Hd, byte_of_code.
        apply Hgo.
      * cbn. apply Hgo.
    + cbn [key_event isEventKey EvKey Ch negb]. cbn [is_digit_rune andb Z.leb Z.compare].
      destruct (len text =? 0) eqn:E.
      * apply Z.eqb_eq in E. destruct text; [|unfold len in E; cbn in E; lia].
        cbn [removelast]. apply Hgo.
      * rewrite Hflush. apply Hgo.
    + destruct Hs as [Hk|[Hd [k Hk]]].
      * rewrite Hk. cbn [negb]. 
        destruct (IH fuel text (polled w 1 0)) as (fl & Hrun).
        -- assumption.
        -- intros j Hj. cbn [polled poll_calls].
           replace (poll_calls w + 1 + j)%nat with (poll_calls w + S j)%nat by lia.
           rewrite Hev by (cbn [List.length]; lia). reflexivity.
        -- cbn [polled poll_calls].
           replace (poll_calls w + 1 + List.length strokes)%nat
             with (poll_calls w + List.length (Skipped e :: strokes))%nat
             by (cbn [List.length]; lia).
           exact Henter.
        -- assumption.
        -- cbn [List.length] in Hfuel. lia.
        -- rewrite polled_polled in Hrun. exists fl.
           rewrite Hrun. f_equal.
      * destruct (isEventKey e); cbn [negb]; [|apply (Hgo O)].
        rewrite Hd, Hk. apply Hgo.
Qed.



Lemma code_byte_of (ch : Z) : 0 <= ch < 256 -> code (byte_of ch) = ch.
Proof.
  intros H. unfold code, byte_of. rewrite N_ascii_embedding; lia.
Qed.

Lemma Forall_removelast (A : Type) (P : A -> Prop) (l : list A) :
  Forall P l -> Forall P (removelast l).
Proof.
  intros H. rewrite removelast_firstn_len.
  apply Forall_forall. intros a Ha. apply In_firstn in Ha.
  revert a Ha. now apply Forall_forall.
Qed.

(** Whatever the events are, the text [readText] returns is made of digits
    and spaces when the text it started from is. *)
Lemma readText_digit_or_space (fuel : nat) :
  forall (text : bytes) (w : World) (text' : bytes) (w' : World),
    Forall digit_or_space text ->
    Termbox.readText fuel env x y text w = Returned (text', w') ->
    Forall digit_or_space text'.
Proof.
  induction fuel as [|fuel IH]; intros text w text' w' Htext Hrun; [discriminate|].
  rewrite readText_step in Hrun. cbv zeta in Hrun.
  destruct (negb (isEventKey (PollEvent_result env (poll_calls w)))); [eauto|].
  set (event := PollEvent_result env (poll_calls w)) in *.
  assert (Htext2 : Forall digit_or_space
                     (if is_digit_rune (Ch event) then text ++ [byte_of (Ch event)] else text)).
  { destruct (is_digit_rune (Ch event)) eqn:E; [|assumption].
    apply Forall_app. split; [assumption|]. constructor; [|constructor].
    left. unfold is_digit_rune in E. apply andb_prop in E. destruct E as [E1 E2].
    apply Z.leb_le in E1, E2. unfold is_digit.
    rewrite code_byte_of by lia.
    apply andb_true_intro. split; now apply Z.leb_le. }
  destruct (EvKey event).
  - inversion Hrun. now subst.
  - eapply IH; [|exact Hrun]. apply Forall_app. split; [assumption|].
    constructor; [now right|constructor].
  - destruct (len _ =? 0); [eauto|].
    destruct (Flush_error env (flush_calls w)); [discriminate|].
    eapply IH; [|exact Hrun]. now apply Forall_removelast.
  - discriminate.
  - discriminate.
  - eauto.
Qed.

(** X10.  [wait] passes over every event that is not of a key, and every key
    but Enter, Ctrl-C and Ctrl-Z; at the first of these it returns, for
    Enter, or leaves the program with status 0, and it has polled no event
    past that one. *)
Theorem wait_ends_at_the_first_Enter_or_interrupt (k : nat) :
  forall (fuel : nat) (w : World),
    (forall j, (j < k)%nat -> passed_over (PollEvent_result env (poll_calls w + j)) = true) ->
    passed_over (PollEvent_result env (poll_calls w + k)) = false ->
    (k < fuel)%nat ->
    Termbox.wait fuel env w
    = match EvKey (PollEvent_result env (poll_calls w + k)) with
      | KeyEnter => Returned (tt, polled w (S k) 0)
      | _ => Exited 0
      end.
Proof.
  induction k as [|k IH]; intros fuel w Hover Hstop Hfuel;
    (destruct fuel as [|fuel]; [lia|]);
    cbn [Termbox.wait]; unfold bind at 1, PollEvent at 1.
  - rewrite Nat.add_0_r in *. unfold passed_over in Hstop.
    apply orb_false_elim in Hstop. destruct Hstop as [Hkey Hstop]. rewrite Hkey.
    destruct (EvKey (PollEvent_result env (poll_calls w))); try discriminate;
      try reflexivity.
    unfold ret, polled. rewrite Nat.add_0_r, Nat.add_1_r. reflexivity.
  - pose proof (Hover O ltac:(lia)) as H0. rewrite Nat.add_0_r in H0.
    unfold passed_over in H0.
    set (w1 := {| rand_calls := rand_calls w; scan_calls := scan_calls w;
                  now_calls := now_calls w; poll_calls := S (poll_calls w);
                  flush_calls := flush_calls w; disk := disk w |}).
    assert (Hrest : Termbox.wait fuel env w1
                    = match EvKey (PollEvent_result env (poll_calls w + S k)) with
                      | KeyEnter => Returned (tt, polled w (S (S k)) 0)
                      | _ => Exited 0
                      end).
    { rewrite (IH fuel); subst w1; cbn [poll_calls].
      - replace (S (poll_calls w) + k)%nat with (poll_calls w + S k)%nat by lia.
        unfold polled. cbn [rand_calls scan_calls now_calls poll_calls flush_calls disk].
        replace (S (poll_calls w) + S k)%nat with (poll_calls w + S (S k))%nat by lia.
        reflexivity.
      - intros j Hj. replace (S (poll_calls w) + j)%nat with (poll_calls w + S j)%nat by lia.
        apply Hover. lia.
      - replace (S (poll_calls w) + k)%nat with (poll_calls w + S k)%nat by lia.
        exact Hstop.
      - lia. }
    destruct (negb (isEventKey (PollEvent_result env (poll_calls w)))); [exact Hrest|].
    cbn [orb] in H0.
    destruct (EvKey (PollEvent_result env (poll_calls w))); try discriminate; exact Hrest.
Qed.

End ReadText.

Section AtoiRange.

Lemma ParseUint_loop_range (s : bytes) :
  forall n, 0 <= n -> 0 <= fst (ParseUint_loop s n).
Proof.
  induction s as [|c rest IH]; intros n Hn; cbn [ParseUint_loop]; [exact Hn|].
  destruct (negb (is_digit c)); [cbn; lia|]. cbv zeta.
  destruct (maxUint64 / 10 + 1 <=? n); [cbn; unfold maxUint64; lia|].
  destruct (_ || _); [cbn; unfold maxUint64; lia|].
  apply IH. apply Z.mod_pos_bound. lia.
Qed.

Lemma ParseUint_range (s : bytes) : 0 <= fst (ParseUint s).
Proof.
  unfold ParseUint. destruct s; [cbn; lia|]. apply ParseUint_loop_range. lia.
Qed.

Lemma ParseInt_range (s : bytes) : minInt64 <= fst (ParseInt s) <= maxInt64.
Proof.
  unfold ParseInt, minInt64, maxInt64.
  destruct s as [|c rest]; [cbn; lia|]. cbv zeta.
  pose proof (ParseUint_range (if byte_eqb c "+" || byte_eqb c "-"
                               then rest else c :: rest)) as Hun.
  destruct (ParseUint _) as [un [[|]|]]; cbn [fst] in *; [cbn; lia| |];
    destruct (byte_eqb c "-"); cbn [negb andb];
      repeat match goal with
             | |- context [if ?b then _ else _] =>
               let E := fresh "E" in destruct b eqn:E
             end;
      cbn [fst];
      repeat match goal with
             | H : (_ <=? _) = _ |- _ => first [apply Z.leb_le in H | apply Z.leb_gt in H]
             | H : (_ <? _) = _ |- _ => first [apply Z.ltb_lt in H | apply Z.ltb_ge in H]
             end; lia.
Qed.

Lemma ParseInt_nonneg (s : bytes) :
  hd_error s <> Some "-"%char -> 0 <= fst (ParseInt s).
Proof.
  unfold ParseInt. destruct s as [|c rest]; [cbn; lia|]. intros Hc. cbv zeta.
  assert (Hneg : byte_eqb c "-" = false).
  { destruct (byte_eqb c "-") eqn:E; [|reflexivity].
    apply byte_eqb_eq in E. subst. now contradiction Hc. }
  rewrite Hneg.
  pose proof (ParseUint_range (if byte_eqb c "+" || false
                               then rest else c :: rest)) as Hun.
  destruct (ParseUint _) as [un [[|]|]]; cbn [fst negb andb] in *; [lia| |];
    destruct (2 ^ 63 <=? un); cbn [fst]; lia.
Qed.

Lemma Atoi_fast_loop_bound (s : bytes) :
  forall acc n,
    0 <= acc -> Atoi_fast_loop s acc = Some n ->
    acc <= n /\ n + 1 <= (acc + 1) * 10 ^ len s.
Proof.
  induction s as [|c rest IH]; intros acc n Hacc Hrun; cbn [Atoi_fast_loop] in Hrun.
  - inversion Hrun. subst. change (len (@nil ascii)) with 0. lia.
  - cbv zeta in Hrun.
    destruct (9 <? (code c - 48) mod 256) eqn:E; [discriminate|].
    apply Z.ltb_ge in E.
    pose proof (Z.mod_pos_bound (code c - 48) 256 ltac:(lia)) as Hd.
    apply IH in Hrun; [|lia]. destruct Hrun as [Hlo Hhi].
    assert (Hlen : len (c :: rest) = len rest + 1)
      by (unfold len; cbn [List.length]; lia).
    rewrite Hlen, Z.pow_add_r by (unfold len; lia).
    assert (0 < 10 ^ len rest) by (apply Z.pow_pos_nonneg; unfold len; lia).
    split; nia.
Qed.

Lemma Atoi_range (s : bytes) : minInt64 <= fst (Atoi s) <= maxInt64.
Proof.
  unfold Atoi. cbv zeta.
  destruct ((0 <? len s) && (len s <? 19)) eqn:Hlen; [|apply ParseInt_range].
  apply andb_prop in Hlen. destruct Hlen as [_ Hlen]. apply Z.ltb_lt in Hlen.
  destruct s as [|c0 rest]; [cbn; unfold minInt64, maxInt64; lia|].
  set (s' := if byte_eqb c0 "-" || byte_eqb c0 "+" then rest else c0 :: rest).
  assert (Hs' : len s' <= 18).
  { subst s'. destruct (_ || _); unfold len in *; cbn [List.length] in *; lia. }
  destruct (_ && _); [cbn; unfold minInt64, maxInt64; lia|].
  destruct (Atoi_fast_loop s' 0) as [n|] eqn:E;
    [|cbn; unfold minInt64, maxInt64; lia].
  apply Atoi_fast_loop_bound in E; [|lia]. destruct E as [Hlo Hhi].
  assert (10 ^ len s' <= 10 ^ 18) by (apply Z.pow_le_mono_r; unfold len in *; lia).
  change (10 ^ 18) with 1000000000000000000 in *.
  destruct (byte_eqb c0 "-"); cbn [fst]; unfold minInt64, maxInt64; lia.
Qed.

Lemma Atoi_nonneg (s : bytes) :
  hd_error s <> Some "-"%char -> 0 <= fst (Atoi s).
Proof.
  intros Hc. unfold Atoi. cbv zeta.
  destruct ((0 <? len s) && (len s <? 19)); [|now apply ParseInt_nonneg].
  destruct s as [|c0 rest]; [cbn; lia|].
  assert (Hneg : byte_eqb c0 "-" = false).
  { destruct (byte_eqb c0 "-") eqn:E; [|reflexivity].
    apply byte_eqb_eq in E. subst. now contradiction Hc. }
  rewrite Hneg. destruct (_ && _); [cbn; lia|].
  destruct (Atoi_fast_loop _ 0) as [n|] eqn:E; [|cbn; lia].
  apply Atoi_fast_loop_bound in E; [|lia]. cbn [fst]. lia.
Qed.

Lemma Split_Forall (P : ascii -> Prop) (sep : ascii) (s : bytes) :
  Forall P s -> Forall (Forall P) (Split s sep).
Proof.
  induction s as [|c rest IH]; intros H; cbn [Split].
  - repeat constructor.
  - inversion H as [|? ? Hc Hrest]. subst. specialize (IH Hrest).
    destruct (byte_eqb c sep); [constructor; [constructor|assumption]|].
    destruct (Split rest sep) as [|piece pieces]; [repeat constructor; assumption|].
    inversion IH. subst. constructor; [constructor|]; assumption.
Qed.

End AtoiRange.

Section Prompt.

Variable env : Env.
Variables x y : Z.

(** X11.  The strokes of the user at the prompt, one event each and Enter after
    them, give the collector the integers of the text they spell: digits
    and spaces are appended, a rubout takes the last byte away (and does
    nothing to an empty text), anything else is skipped. *)
Theorem prompt_collects_the_text_typed
        (strokes : list stroke) (fuel : nat) (w : World) :
  Forall stroke_ok strokes ->
  (forall j, (j < List.length strokes)%nat ->
             PollEvent_result env (poll_calls w + j) = stroke_event (nth j strokes Rubout)) ->
  PollEvent_result env (poll_calls w + List.length strokes) = key_event KeyEnter 0 ->
  (forall k, Flush_error env k = false) ->
  (List.length strokes < fuel)%nat ->
  exists flushes,
    Termbox.getNumbers fuel env x y w
    = Returned (map (fun piece => fst (Atoi piece)) (Split (strokes_text strokes []) " "),
                polled w (S (List.length strokes)) flushes).
Proof.
  intros Hok Hev Henter Hflush Hfuel.
  destruct (readText_strokes env x y strokes fuel [] w Hok Hev Henter Hflush Hfuel)
    as (flushes & Hread).
  exists flushes. now apply Termbox_getNumbers_spec.
Qed.

(** X12.  Whatever the events are, the text the prompt of the full-screen program
    hands to the collector is made of digits and spaces, so that no integer
    collected there is negative. *)
Theorem prompt_numbers_are_never_negative
        (fuel : nat) (w w' : World) (numbers : list Z) :
  Termbox.getNumbers fuel env x y w = Returned (numbers, w') ->
  exists text,
    Forall digit_or_space text /\
    numbers = map (fun piece => fst (Atoi piece)) (Split text " ") /\
    Forall (fun n => 0 <= n <= maxInt64) numbers.
Proof.
  intros H. unfold Termbox.getNumbers in H.
  apply bind_Returned in H. destruct H as (text & w1 & Hread & H).
  unfold ret in H. inversion H. subst. clear H.
  rewrite Termbox_pieces_loop_spec. cbn [app].
  apply readText_digit_or_space in Hread; [|constructor].
  exists text. split; [exact Hread|]. split; [reflexivity|].
  apply Forall_forall. intros n Hn. apply in_map_iff in Hn.
  destruct Hn as (piece & <- & Hpiece).
  pose proof (Split_Forall digit_or_space " " text Hread) as Hpieces.
  rewrite Forall_forall in Hpieces. specialize (Hpieces piece Hpiece).
  split; [|apply Atoi_range].
  apply Atoi_nonneg. destruct piece as [|c piece]; [discriminate|].
  inversion Hpieces as [|? ? Hc _]. subst. cbn [hd_error].
  intros Heq. inversion Heq. subst. destruct Hc as [Hc|Hc]; discriminate Hc.
Qed.

End Prompt.

Section TermboxTrial.

Variable env : Env.

Lemma Itoa_nonneg_digits (n : Z) : 0 <= n -> Forall digit_byte (Itoa n).
Proof.
  intros Hn. unfold Itoa. destruct n as [|p|p]; [| |lia];
    cbn [Z.to_int NilZero.string_of_int].
  - repeat constructor.
  - apply to_uint_digits.
Qed.

Lemma Join_digit_or_space (pieces : list bytes) :
  Forall (Forall digit_byte) pieces -> Forall digit_or_space (Join pieces (B " ")).
Proof.
  assert (Hpiece : forall piece, Forall digit_byte piece -> Forall digit_or_space piece).
  { intros piece. apply Forall_impl. intros c Hc. now left. }
  induction pieces as [|e rest IH]; intros H; [constructor|].
  inversion H as [|? ? He Hrest]. subst.
  destruct rest as [|e' rest]; [now apply Hpiece|].
  change (Join (e :: e' :: rest) (B " ")) with (e ++ B " " ++ Join (e' :: rest) (B " ")).
  apply Forall_app. split; [now apply Hpiece|].
  apply Forall_app. split; [repeat constructor; now right | now apply IH].
Qed.

Lemma strokes_text_Typed (line : bytes) :
  forall text, strokes_text (map Typed line) text = text ++ line.
Proof.
  induction line as [|c line IH]; intros text; cbn [map strokes_text].
  - now rewrite app_nil_r.
  - rewrite IH, <- app_assoc. reflexivity.
Qed.

Lemma wait_first_Enter (fuel : nat) (w : World) :
  PollEvent_result env (poll_calls w) = key_event KeyEnter 0 ->
  Termbox.wait (S fuel) env w = Returned (tt, polled w 1 0).
Proof.
  intros H. cbn [Termbox.wait]. unfold bind, PollEvent. rewrite H. cbn.
  unfold ret, polled. rewrite Nat.add_0_r, Nat.add_1_r. reflexivity.
Qed.

(** X13.  A trial of the full-screen program in which the user presses Enter and
    then types back the line shown, byte by byte, and Enter, scores every
    number of the sequence. *)
Theorem typed_back_trial_scores_all
        (fuel : nat) (minNumber maxNumber numbersCount : Z)
        (w w1 : World) (validNumbers : list Z) :
  Termbox.generateRandomNumbers fuel env minNumber maxNumber numbersCount w
  = Returned (validNumbers, w1) ->
  Forall (fun n => 0 <= n <= maxInt64) validNumbers ->
  (forall k, Flush_error env k = false) ->
  PollEvent_result env (poll_calls w1) = key_event KeyEnter 0 ->
  (forall j, (j < List.length (Join (map Itoa validNumbers) (B " ")))%nat ->
             PollEvent_result env (poll_calls w1 + 1 + j)
             = stroke_event (Typed (nth j (Join (map Itoa validNumbers) (B " ")) " "%char))) ->
  PollEvent_result env (poll_calls w1 + 1
                        + List.length (Join (map Itoa validNumbers) (B " ")))
  = key_event KeyEnter 0 ->
  (List.length (Join (map Itoa validNumbers) (B " ")) < fuel)%nat ->
  exists result w',
    Termbox.runTest fuel env minNumber maxNumber numbersCount w = Returned (result, w') /\
    Score result = len validNumbers.
Proof.
  intros Hgen Hrange Hflush Henter Htyped Hend Hfuel.
  set (line := Join (map Itoa validNumbers) (B " ")) in *.
  assert (Hline : Forall digit_or_space line).
  { apply Join_digit_or_space. apply Forall_forall. intros piece Hin.
    apply in_map_iff in Hin. destruct Hin as (n & <- & Hn).
    rewrite Forall_forall in Hrange. apply Itoa_nonneg_digits. now apply Hrange. }
  assert (Hrange' : Forall (fun n => minInt64 <= n <= maxInt64) validNumbers).
  { revert Hrange. apply Forall_impl. unfold minInt64. intros; lia. }
  unfold Termbox.runTest. unfold bind at 1. rewrite Hgen.
  destruct (Size env) as [width height].
  unfold bind at 1, time_Now at 1.
  unfold bind at 1, Flush at 1.
  cbn [rand_calls scan_calls now_calls poll_calls flush_calls disk].
  unfold bind at 1.
  destruct fuel as [|fuel]; [lia|].
  rewrite wait_first_Enter by exact Henter.
  unfold bind at 1, time_Now at 1.
  unfold bind at 1, Termbox.clearScreen at 1, bind at 1, Flush at 1.
  rewrite Hflush. unfold ret at 1.
  unfold bind at 1, Flush at 1.
  unfold polled.
  cbn [rand_calls scan_calls now_calls poll_calls flush_calls disk].
  unfold bind at 1.
  match goal with |- context [Termbox.getNumbers (S fuel) env ?x ?y ?w6] =>
    destruct (readText_strokes env x y (map Typed line) (S fuel) [] w6)
      as (flushes & Hread)
  end.
  { apply Forall_forall. intros s Hs. apply in_map_iff in Hs.
    destruct Hs as (c & <- & Hc). rewrite Forall_forall in Hline.
    exact (Hline c Hc). }
  { intros j Hj. rewrite length_map in Hj.
    cbn [poll_calls]. rewrite Htyped by exact Hj.
    rewrite (nth_indep _ Rubout (Typed " ")) by (now rewrite length_map).
    now rewrite (map_nth Typed). }
  { rewrite length_map. cbn [poll_calls]. exact Hend. }
  { exact Hflush. }
  { now rewrite length_map. }
  rewrite (Termbox_getNumbers_spec _ _ _ _ _ _ _ Hread).
  rewrite strokes_text_Typed. cbn [app].
  unfold bind at 1, Termbox.clearScreen at 1, bind at 1, Flush at 1.
  rewrite Hflush. unfold ret at 1.
  unfold bind at 1. subst line.
  rewrite collect_shown_line by exact Hrange'.
  rewrite Termbox_compare_spec. cbn [lift]. unfold ret.
  eexists. eexists. split; [reflexivity|]. cbn [Score].
  destruct validNumbers as [|n ns]; [reflexivity|].
  now rewrite common_prefix_same.
Qed.

End TermboxTrial.

(** At the prompt of the sample environment the user types [14 21]: five
    events are passed over by [wait] before the Enter that ends the line. *)
Lemma wait_ends_at_the_first_Enter_or_interrupt_witness :
  Termbox.wait 7 sample_env world_at_prompt = Returned (tt, polled world_at_prompt 6 0).
Proof.
  apply (wait_ends_at_the_first_Enter_or_interrupt sample_env 5 7 world_at_prompt).
  - intros j Hj. do 5 (destruct j as [|j]; [reflexivity|]). lia.
  - reflexivity.
  - lia.
Defined.

Lemma prompt_collects_the_text_typed_witness :
  exists flushes,
    Termbox.getNumbers 7 sample_env 0 0 world_at_prompt
    = Returned ([14; 21], polled world_at_prompt 6 flushes).
Proof.
  apply (prompt_collects_the_text_typed
           sample_env 0 0
           [Typed "1"; Typed "4"; Typed " "; Typed "2"; Typed "1"] 7 world_at_prompt).
  - repeat constructor; (left; reflexivity) || (right; reflexivity).
  - intros j Hj. do 5 (destruct j as [|j]; [reflexivity|]). cbn in Hj. lia.
  - reflexivity.
  - intros k. reflexivity.
  - cbn. lia.
Defined.

Lemma prompt_numbers_are_never_negative_witness :
  exists text,
    Forall digit_or_space text /\
    [14; 21] = map (fun piece => fst (Atoi piece)) (Split text " ") /\
    Forall (fun n => 0 <= n <= maxInt64) [14; 21].
Proof.
  apply (prompt_numbers_are_never_negative sample_env 0 0 7 world_at_prompt
                                           world_after_typing [14; 21]).
  vm_compute. reflexivity.
Defined.

Lemma typed_back_trial_scores_all_witness :
  exists result w',
    Termbox.runTest 19 sample_env 10 99 2 (fresh_world [] NoFile) = Returned (result, w') /\
    Score result = len [14; 21].
Proof.
  eapply (typed_back_trial_scores_all sample_env 19 10 99 2 (fresh_world [] NoFile)).
  - vm_compute. reflexivity.
  - repeat constructor; discriminate.
  - intros k. reflexivity.
  - reflexivity.
  - intros j Hj. do 5 (destruct j as [|j]; [reflexivity|]). vm_compute in Hj. lia.
  - reflexivity.
  - vm_compute. lia.
Defined.

(** ** The clock *)

Section Clock.

Variable env : Env.

Ltac inv_bind H :=
  let a := fresh "a" in
  let w1 := fresh "w" in
  let H1 := fresh "Hstep" in
  apply bind_Returned in H; destruct H as (a & w1 & H1 & H).

Lemma clock_ret {A} (a : A) : keeps_clock (ret a).
Proof. intros w a' w' H. now inversion H. Qed.

Lemma clock_bind {A C} (m : Go A) (k : A -> Go C) :
  keeps_clock m -> (forall a, keeps_clock (k a)) -> keeps_clock (bind m k).
Proof.
  intros Hm Hk w c w' H.
  apply bind_Returned in H. destruct H as (a & w1 & H1 & H2).
  rewrite (Hk a _ _ _ H2). exact (Hm _ _ _ H1).
Qed.

Lemma clock_stop {A} (m : Go A) :
  (forall w a w', m w <> Returned (a, w')) -> keeps_clock m.
Proof. intros Hm w a w' H. now apply Hm in H. Qed.

Lemma clock_lift {A} (o : outcome A) : keeps_clock (lift o).
Proof. intros w a w' H. destruct o; inversion H. reflexivity. Qed.

Lemma clock_rand_Int (max : Z) : keeps_clock (rand_Int env max).
Proof.
  intros w a w' H. unfold rand_Int in H.
  destruct (max <=? 0); inversion H. reflexivity.
Qed.

Lemma clock_Int64 (bigNumber : option Z) : keeps_clock (Int64 bigNumber).
Proof. destruct bigNumber; [apply clock_ret | apply clock_stop; discriminate]. Qed.

Lemma clock_Scan : keeps_clock (Scan env).
Proof. intros w a w' H. inversion H. reflexivity. Qed.

Lemma clock_PollEvent : keeps_clock (PollEvent env).
Proof. intros w a w' H. inversion H. reflexivity. Qed.

Lemma clock_Flush : keeps_clock (Flush env).
Proof. intros w a w' H. inversion H. reflexivity. Qed.

Ltac clock :=
  repeat first
         [ assumption
         | apply clock_ret | apply clock_lift | apply clock_rand_Int
         | apply clock_Int64 | apply clock_Scan
         | apply clock_PollEvent | apply clock_Flush
         | apply clock_stop; discriminate
         | apply clock_bind; [|intros ?]
         | match goal with
           | IH : forall _, _ |- _ => solve [apply IH]
           | |- keeps_clock (if ?b then _ else _) => destruct b
           | |- keeps_clock (match ?x with _ => _ end) => destruct x
           end ].

Lemma clock_Plain_generate_loop (fuel : nat) (min max count : Z) :
  forall i numbers, keeps_clock (Plain.generate_loop fuel env min max count i numbers).
Proof.
  induction fuel as [|fuel IH]; intros i numbers; cbn [Plain.generate_loop]; clock.
Qed.

Lemma clock_Plain_getNumbersFromStdin : keeps_clock (Plain.getNumbersFromStdin env).
Proof. unfold Plain.getNumbersFromStdin. clock. Qed.

Lemma clock_Termbox_clearScreen : keeps_clock (Termbox.clearScreen env).
Proof. unfold Termbox.clearScreen. clock. Qed.

Lemma clock_Termbox_printText (text : bytes) (x y : Z) :
  keeps_clock (Termbox.printText env text x y).
Proof. unfold Termbox.printText. clock. Qed.

Lemma clock_Termbox_wait (fuel : nat) : keeps_clock (Termbox.wait fuel env).
Proof.
  induction fuel as [|fuel IH]; cbn [Termbox.wait]; unfold Termbox.quit; clock.
Qed.

Lemma clock_Termbox_readText (fuel : nat) (x y : Z) :
  forall text, keeps_clock (Termbox.readText fuel env x y text).
Proof.
  induction fuel as [|fuel IH]; intros text; cbn [Termbox.readText];
    unfold Termbox.quit; [clock|].
  apply clock_bind; [clock|]. intros event.
  destruct (negb (isEventKey event)); [apply IH|].
  cbv zeta.
  destruct (EvKey event); try destruct (len _ =? 0);
    repeat first [ apply IH | apply clock_ret | apply clock_stop; discriminate
                 | apply clock_Termbox_printText | apply clock_Termbox_clearScreen
                 | apply clock_bind; [|intros ?] ].
Qed.

Lemma clock_Termbox_getNumbers (fuel : nat) (x y : Z) :
  keeps_clock (Termbox.getNumbers fuel env x y).
Proof.
  unfold Termbox.getNumbers. pose proof (clock_Termbox_readText fuel x y []). clock.
Qed.

Lemma time_Now_Returned (w w' : World) (t : Time) :
  time_Now env w = Returned (t, w') ->
  t = Now_result env (now_calls w) /\ now_calls w' = S (now_calls w).
Proof. intros H. inversion H. split; reflexivity. Qed.

(** X14.  The duration of a trial is the time between the first two readings of
    the clock from the start of the trial on, and the trial reads the clock
    no more than these two times.  Both programs. *)
Theorem trial_duration_is_between_two_readings
        (p : program) (fuel : nat) (minNumber maxNumber numbersCount : Z)
        (w w' : World) (result : Result) :
  runTest_of p fuel env minNumber maxNumber numbersCount w = Returned (result, w') ->
  Duration result
  = Seconds (Time_Sub (Now_result env (S (now_calls w))) (Now_result env (now_calls w))) /\
  now_calls w' = S (S (now_calls w)).
Proof.
  intros H. destruct p; cbn [runTest_of] in H.
  - unfold Plain.runTest in H.
    inv_bind H. apply clock_Plain_generate_loop in Hstep.
    inv_bind H. apply time_Now_Returned in Hstep0. destruct Hstep0 as [-> Hn0].
    inv_bind H. inversion Hstep0. subst.
    inv_bind H. inversion Hstep1. subst.
    inv_bind H. apply clock_Plain_getNumbersFromStdin in Hstep2.
    inv_bind H. apply time_Now_Returned in Hstep3. destruct Hstep3 as [-> Hn1].
    inv_bind H. inversion Hstep3. subst.
    inv_bind H. apply clock_lift in Hstep4.
    inversion H. subst. cbn [Duration].
    rewrite Hstep2, Hn0, Hstep. split; [reflexivity|].
    rewrite Hstep4, Hn1, Hstep2, Hn0, Hstep. reflexivity.
  - unfold Termbox.runTest in H.
    inv_bind H. apply clock_Plain_generate_loop in Hstep.
    destruct (Size env) as [width height].
    inv_bind H. apply time_Now_Returned in Hstep0. destruct Hstep0 as [-> Hn0].
    inv_bind H. apply clock_Flush in Hstep0.
    inv_bind H. apply clock_Termbox_wait in Hstep1.
    inv_bind H. apply time_Now_Returned in Hstep2. destruct Hstep2 as [-> Hn1].
    inv_bind H. apply clock_Termbox_clearScreen in Hstep2.
    inv_bind H. apply clock_Flush in Hstep3.
    inv_bind H. apply clock_Termbox_getNumbers in Hstep4.
    inv_bind H. apply clock_Termbox_clearScreen in Hstep5.
    inv_bind H. apply clock_lift in Hstep6.
    inversion H. subst. cbn [Duration].
    rewrite Hstep1, Hstep0, Hn0, Hstep. split; [reflexivity|].
    rewrite Hstep6, Hstep5, Hstep4, Hstep3, Hstep2, Hn1, Hstep1, Hstep0, Hn0, Hstep.
    reflexivity.
Qed.

End Clock.

Lemma trial_duration_is_between_two_readings_witness :
  exists result w',
    runTest_of TermboxProgram 19 sample_env 10 99 3 (fresh_world [] NoFile)
    = Returned (result, w') /\
    Duration result
    = Seconds (Time_Sub (Now_result sample_env 1) (Now_result sample_env 0)) /\
    now_calls w' = 2%nat.
Proof.
  eexists. eexists. split.
  - vm_compute. reflexivity.
  - eapply (trial_duration_is_between_two_readings
              sample_env TermboxProgram 19 10 99 3 (fresh_world [] NoFile)).
    vm_compute. reflexivity.
Defined.

(** ** The log and the run *)

Section RunMore.

Variable encode : list DatabaseItem -> bytes.
Variable env : Env.

Ltac inv_bind H :=
  let a := fresh "a" in
  let w1 := fresh "w" in
  let H1 := fresh "Hstep" in
  apply bind_Returned in H; destruct H as (a & w1 & H1 & H).

Lemma bytes_eqb_eq (a : bytes) : forall b, bytes_eqb a b = true <-> a = b.
Proof.
  induction a as [|x a IH]; intros [|y b]; cbn [bytes_eqb];
    try (split; [discriminate|discriminate]); [tauto|].
  rewrite andb_true_iff, byte_eqb_eq, IH. split.
  - intros [-> ->]. reflexivity.
  - intros H. inversion H. now split.
Qed.

Lemma disk_set_disk_other (w : World) (file path : bytes) (n : node) :
  path <> file -> disk (set_disk w file n) path = disk w path.
Proof.
  intros H. cbn [set_disk disk].
  destruct (bytes_eqb path file) eqn:E; [|reflexivity].
  apply bytes_eqb_eq in E. contradiction.
Qed.

Lemma expand_home_Returned (args : Args) (file : bytes) (w w1 : World) :
  expand_home env (arg_f args) w = Returned (file, w1) ->
  2 <= len (arg_f args) /\ file = log_file env args /\ w1 = w.
Proof.
  unfold expand_home, log_file.
  destruct (len (arg_f args) <? 2) eqn:E; [discriminate|].
  apply Z.ltb_ge in E.
  destruct (bytes_eqb _ _); intros H; inversion H; auto.
Qed.

(** What a call of [saveResults] that returns leaves on the disk. *)
Lemma Plain_saveResults_disk (file : bytes) (results : list Result) (totalScore : Z)
      (avgDuration : float) (w w' : World) :
  Plain.saveResults encode env file results totalScore avgDuration w = Returned (tt, w') ->
  exists old,
    (disk w file = File old \/ (disk w file = NoFile /\ old = [])) /\
    forall path,
      disk w' path
      = if bytes_eqb path file
        then File (WriteAt old (encode (load old ++ [new_item (Now_result env (now_calls w))
                                                              results totalScore avgDuration])) 0)
        else disk w path.
Proof.
  intros H. destruct (disk w file) as [|old|old|] eqn:Hdisk.
  - rewrite (Plain_saveResults_creates encode env file results totalScore avgDuration w Hdisk)
      in H.
    rewrite (Plain_saveResults_spec encode env file results totalScore avgDuration
                                    (set_disk w file (File [])) []
                                    (disk_set_disk w file (File []))) in H.
    unfold json_Marshal in H.
    destruct (forallb finite_DatabaseItem _); [|discriminate].
    inversion H. exists []. split; [right; now split|].
    intros path. cbn [set_disk after_Now disk now_calls].
    destruct (bytes_eqb path file); reflexivity.
  - rewrite (Plain_saveResults_spec encode env file results totalScore avgDuration
                                    w old Hdisk) in H.
    unfold json_Marshal in H.
    destruct (forallb finite_DatabaseItem _); [|discriminate].
    inversion H. exists old. split; [now left|].
    intros path. cbn [set_disk after_Now disk now_calls]. reflexivity.
  - unfold Plain.saveResults, bind, os_OpenFile, ioutil_ReadAll in H.
    rewrite Hdisk in H. rewrite Hdisk in H. discriminate.
  - unfold Plain.saveResults, bind, os_OpenFile in H.
    rewrite Hdisk in H. discriminate.
Qed.

Lemma saveResults_of_Plain (p : program) :
  saveResults_of p = Plain.saveResults.
Proof. destruct p; reflexivity. Qed.

(** A run that ends well has read its options, run its trials in order
    without touching the disk, and saved their results at the log. *)
Lemma main_of_Returned (p : program) (fuel : nat) (args : Args) (w w' : World) :
  main_of p fuel encode env args w = Returned (tt, w') ->
  exists results w1 w2,
    2 <= len (arg_f args) /\
    trials_in_order (fun f => runTest_of p f env (fst (Atoi (arg_i args)))
                                         (fst (Atoi (arg_a args)))
                                         (fst (Atoi (arg_c args))))
                    fuel (Z.to_nat (fst (Atoi (arg_n args)))) w1
    = Returned (results, w2) /\
    disk w2 = disk w /\
    Plain.saveResults encode env (log_file env args) results
                      (fst (Plain.sum_results results))
                      (snd (Plain.sum_results results) / float64_of_int (len results))%float
                      w2
    = Returned (tt, w').
Proof.
  intros H. destruct p; cbn [main_of runTest_of] in *.
  - unfold Plain.main in H.
    inv_bind H. inv_bind H. inv_bind H.
    apply expand_home_Returned in Hstep. destruct Hstep as (Hlen2 & -> & ->).
    inversion Hstep0. subst.
    pose proof Hstep1 as Horder. rewrite Plain_main_loop_in_order in Horder.
    rewrite Z.sub_0_r in Horder. inv_bind Horder. inversion Horder. subst.
    apply Plain_main_loop_spec in Hstep1.
    destruct Hstep1 as (new & _ & _ & _ & Hdisk).
    cbn [app] in *.
    do 3 eexists. split; [exact Hlen2|]. split; [exact Hstep|].
    split; [exact Hdisk|].
    match type of H with context [Plain.sum_results ?rs] =>
      destruct (Plain.sum_results rs) end.
    exact H.
  - unfold Termbox.main in H.
    inv_bind H. inv_bind H. inv_bind H. inv_bind H.
    apply expand_home_Returned in Hstep. destruct Hstep as (Hlen2 & -> & ->).
    pose proof Hstep2 as Horder. rewrite Termbox_main_loop_in_order in Horder.
    rewrite Z.sub_0_r in Horder. inv_bind Horder. inversion Horder. subst.
    apply Termbox_main_loop_spec in Hstep2.
    destruct Hstep2 as (new & _ & _ & _ & Hdisk).
    cbn [app] in *.
    do 3 eexists. split; [exact Hlen2|]. split; [exact Hstep|].
    split;
      [|match type of H with context [Termbox.sum_results ?rs] =>
          change (Termbox.sum_results rs) with (Plain.sum_results rs) in H;
          destruct (Plain.sum_results rs) end;
        exact H].
    rewrite Hdisk.
    rewrite (keeps_Termbox_clearScreen _ _ _ _ Hstep1).
    assert (Hk : keeps_disk (if Init_error env then @panic unit "termbox.Init"
                             else ret tt)).
    { destruct (Init_error env); [apply keeps_panic | apply keeps_ret]. }
    exact (Hk _ _ _ Hstep0).
Qed.

(** X15.  The result store changes no file but its own. *)
Theorem store_touches_only_its_file
        (p : program) (file : bytes) (results : list Result) (totalScore : Z)
        (avgDuration : float) (w w' : World) (path : bytes) :
  saveResults_of p encode env file results totalScore avgDuration w = Returned (tt, w') ->
  path <> file ->
  disk w' path = disk w path.
Proof.
  rewrite saveResults_of_Plain. intros H Hpath.
  apply Plain_saveResults_disk in H. destruct H as (old & _ & Hdisk).
  rewrite Hdisk.
  destruct (bytes_eqb path file) eqn:E; [|reflexivity].
  apply bytes_eqb_eq in E. contradiction.
Qed.

(** X16.  On a path with no file, or with an empty one, the result store leaves
    a log of one record, that of the run: the text is exactly the encoding
    of the database of that record. *)
Theorem store_starts_a_log_with_one_record
        (p : program) (file : bytes) (results : list Result) (totalScore : Z)
        (avgDuration : float) (w w' : World) :
  disk w file = NoFile \/ disk w file = File [] ->
  saveResults_of p encode env file results totalScore avgDuration w = Returned (tt, w') ->
  disk w' file
  = File (encode [new_item (Now_result env (now_calls w)) results totalScore avgDuration]).
Proof.
  rewrite saveResults_of_Plain. intros Hfile H.
  apply Plain_saveResults_disk in H. destruct H as (old & Hold & Hdisk).
  rewrite Hdisk, bytes_eqb_refl.
  assert (old = []) as ->.
  { destruct Hfile as [Hf|Hf], Hold as [Ho|[Ho Hnil]]; congruence. }
  rewrite WriteAt_0. change (load []) with (@nil DatabaseItem).
  cbn [app]. now rewrite skipn_nil, app_nil_r.
Qed.

(** X17.  A run that ends well has changed no file but its log, the path given
    with [-f] with a leading [~] replaced by [$HOME]. *)
Theorem run_touches_only_its_log
        (p : program) (fuel : nat) (args : Args) (w w' : World) (path : bytes) :
  main_of p fuel encode env args w = Returned (tt, w') ->
  path <> log_file env args ->
  disk w' path = disk w path.
Proof.
  intros H Hpath. apply main_of_Returned in H.
  destruct H as (results & w1 & w2 & _ & _ & Hdisk & Hsave).
  apply Plain_saveResults_disk in Hsave. destruct Hsave as (old & _ & Hw').
  rewrite Hw', Hdisk.
  destruct (bytes_eqb path (log_file env args)) eqn:E; [|reflexivity].
  apply bytes_eqb_eq in E. contradiction.
Qed.

(** X18.  A run whose log cannot be opened, or can be opened and not read,
    does not end well, and the failure comes last: the program runs its
    trials first, whatever stops a trial stops the run in the same way,
    and when the trials have all returned [saveResults] panics, at the
    opening of the log or at the reading of it.  Both programs. *)
Theorem run_on_unusable_log_panics_after_its_trials
        (p : program) (fuel : nat) (args : Args) (w : World) :
  disk w (log_file env args) = NoAccess \/
  (exists content, disk w (log_file env args) = Unreadable content) ->
  (forall w', main_of p fuel encode env args w <> Returned (tt, w')) /\
  (2 <= len (arg_f args) ->
   terminal_ready p env w ->
   main_of p fuel encode env args w
   = match trials_in_order (fun f => runTest_of p f env (fst (Atoi (arg_i args)))
                                                (fst (Atoi (arg_a args)))
                                                (fst (Atoi (arg_c args))))
                           fuel (Z.to_nat (fst (Atoi (arg_n args))))
                           (world_at_first_trial p w) with
     | Returned _ => Panicked (log_panic (disk w (log_file env args)))
     | Panicked why => Panicked why
     | Exited status => Exited status
     | OutOfFuel => OutOfFuel
     end).
Proof.
  intros Hlog. split.
  - intros w' H. apply main_of_Returned in H.
    destruct H as (results & w1 & w2 & _ & _ & Hdisk & Hsave).
    apply Plain_saveResults_disk in Hsave. destruct Hsave as (old & Hold & _).
    rewrite Hdisk in Hold.
    destruct Hlog as [Hl|[content Hl]], Hold as [Ho|[Ho _]]; congruence.
  - intros Hlen Hready.
    rewrite (main_of_trials_then_save env encode p fuel args w Hlen Hready).
    unfold bind.
    destruct (trials_in_order _ fuel _ (world_at_first_trial p w))
      as [[results w2]| | |] eqn:Htrials; try reflexivity.
    assert (Hdisk : disk w2 = disk w).
    { rewrite (keeps_trials_in_order _ (fun f => keeps_runTest_of env p f _ _ _)
                                     _ _ _ _ _ Htrials).
      destruct p; reflexivity. }
    unfold Plain.saveResults, bind, os_OpenFile, ioutil_ReadAll.
    rewrite Hdisk.
    destruct Hlog as [Hl|[content Hl]]; rewrite Hl; [reflexivity|].
    rewrite Hdisk, Hl. reflexivity.
Qed.

(** X19.  A path of fewer than two bytes for the log makes the program panic
    when it looks at the first two, before any trial.  Both programs. *)
Theorem short_log_path_panics
        (p : program) (fuel : nat) (args : Args) (w : World) :
  len (arg_f args) < 2 ->
  main_of p fuel encode env args w = Panicked "slice bounds out of range".
Proof.
  intros Hlen. apply Z.ltb_lt in Hlen.
  destruct p; cbn [main_of]; unfold Plain.main, Termbox.main, bind, expand_home;
    rewrite Hlen; reflexivity.
Qed.

(** X20.  When the terminal cannot be initialised the full-screen program panics
    before it asks for anything. *)
Theorem failed_Init_panics (fuel : nat) (args : Args) (w : World) :
  2 <= len (arg_f args) ->
  Init_error env = true ->
  Termbox.main fuel encode env args w = Panicked "termbox.Init".
Proof.
  intros Hlen Hinit. apply Z.ltb_ge in Hlen.
  unfold Termbox.main, bind, expand_home. rewrite Hlen.
  destruct (bytes_eqb _ _); unfold ret; rewrite Hinit; reflexivity.
Qed.

Lemma add_int_small (a b : Z) :
  minInt64 <= a + b <= maxInt64 -> add_int a b = a + b.
Proof.
  unfold add_int, minInt64, maxInt64. intros H.
  change (2 ^ 63) with 9223372036854775808.
  change (2 ^ 64) with 18446744073709551616.
  rewrite Z.mod_small; lia.
Qed.

Lemma sum_results_fst (results : list Result) :
  forall sums,
    fst (fold_left (fun sums result =>
                      (add_int (fst sums) (Score result),
                       (snd sums + Duration result)%float))
                   results sums)
    = fold_left (fun sum result => add_int sum (Score result)) results (fst sums).
Proof.
  induction results as [|r results IH]; intros sums; cbn [fold_left]; [reflexivity|].
  now rewrite IH.
Qed.

Lemma sum_scores (c : Z) (results : list Result) :
  Forall (fun result => 0 <= Score result <= c) results ->
  forall sum,
    0 <= sum -> sum + len results * c <= maxInt64 ->
    fold_left (fun sum result => add_int sum (Score result)) results sum
    = sum + total_score results /\
    0 <= total_score results <= len results * c.
Proof.
  induction 1 as [|r results Hr _ IH]; intros sum Hsum Hmax; cbn [fold_left].
  - unfold total_score. cbn. change (len (@nil Result)) with 0. lia.
  - assert (Hlen : len (r :: results) = len results + 1)
      by (unfold len; cbn [List.length]; lia).
    rewrite Hlen in *.
    assert (0 <= len results) by (unfold len; lia).
    rewrite add_int_small by (unfold minInt64; nia).
    destruct (IH (sum + Score r)) as [Hfold Htotal]; [lia | nia |].
    rewrite Hfold. unfold total_score in *. cbn [map fold_right]. split; nia.
Qed.

(** X21.  The total score written with the record of a run is the sum of the
    scores of its trials, and lies between 0 and the number of trials
    times the size of a sequence, when that product is an [int]. *)
Theorem persisted_total_is_the_sum_of_the_scores
        (p : program) (fuel : nat) (args : Args) (w w' : World) :
  0 <= fst (Atoi (arg_n args)) ->
  fst (Atoi (arg_n args)) * Z.max 0 (fst (Atoi (arg_c args))) <= maxInt64 ->
  main_of p fuel encode env args w = Returned (tt, w') ->
  exists results old now avgDuration,
    len results = fst (Atoi (arg_n args)) /\
    disk w' (log_file env args)
    = File (WriteAt old (encode (load old ++ [new_item now results (total_score results)
                                                       avgDuration])) 0) /\
    0 <= total_score results
    <= fst (Atoi (arg_n args)) * Z.max 0 (fst (Atoi (arg_c args))).
Proof.
  intros Hn Hmax H. apply main_of_Returned in H.
  destruct H as (results & w1 & w2 & _ & Htrials & _ & Hsave).
  apply (trials_in_order_Forall
           (fun result => 0 <= Score result <= Z.max 0 (fst (Atoi (arg_c args))))) in Htrials;
    [|intros f v r v' Hr; eapply runTest_of_Score; exact Hr].
  destruct Htrials as [Hscores Hlen].
  assert (Hlen' : len results = fst (Atoi (arg_n args))) by (unfold len; lia).
  destruct (sum_scores _ results Hscores 0) as [Hsum Htotal]; [lia | lia |].
  unfold Plain.sum_results in Hsave. rewrite sum_results_fst in Hsave.
  cbn [fst] in Hsave. rewrite Hsum, Z.add_0_l in Hsave.
  apply Plain_saveResults_disk in Hsave. destruct Hsave as (old & _ & Hw').
  do 4 eexists. split; [exact Hlen'|]. split.
  - rewrite Hw', bytes_eqb_refl. reflexivity.
  - rewrite <- Hlen'. exact Htotal.
Qed.

End RunMore.

Lemma store_touches_only_its_file_witness :
  exists w',
    saveResults_of PlainProgram shape_encode sample_env log_path one_trial 2 1.5
                   (fresh_world log_path (File one_record_log))
    = Returned (tt, w') /\
    disk w' (B "/etc/hostname")
    = disk (fresh_world log_path (File one_record_log)) (B "/etc/hostname").
Proof.
  eexists. split.
  - vm_compute. reflexivity.
  - eapply (store_touches_only_its_file
              shape_encode sample_env PlainProgram log_path one_trial 2 1.5
              (fresh_world log_path (File one_record_log))).
    + vm_compute. reflexivity.
    + discriminate.
Defined.

Lemma store_starts_a_log_with_one_record_witness :
  exists w',
    saveResults_of TermboxProgram shape_encode sample_env log_path one_trial 2 1.5
                   (fresh_world log_path NoFile)
    = Returned (tt, w') /\
    disk w' log_path
    = File (shape_encode [new_item (Now_result sample_env 0) one_trial 2 1.5]).
Proof.
  eexists. split.
  - vm_compute. reflexivity.
  - eapply (store_starts_a_log_with_one_record
              shape_encode sample_env TermboxProgram log_path one_trial 2 1.5
              (fresh_world log_path NoFile)).
    + left. reflexivity.
    + vm_compute. reflexivity.
Defined.

Lemma run_touches_only_its_log_witness :
  exists w',
    main_of PlainProgram 20 shape_encode sample_env two_trials_args
            (fresh_world log_path (File one_record_log))
    = Returned (tt, w') /\
    disk w' (B "/etc/hostname")
    = disk (fresh_world log_path (File one_record_log)) (B "/etc/hostname").
Proof.
  eexists. split.
  - vm_compute. reflexivity.
  - eapply (run_touches_only_its_log
              shape_encode sample_env PlainProgram 20 two_trials_args
              (fresh_world log_path (File one_record_log))).
    + vm_compute. reflexivity.
    + vm_compute. discriminate.
Defined.

(** The two trials of the sample run are played to the end, and then the
    log cannot be opened. *)
Lemma run_on_unusable_log_panics_after_its_trials_witness :
  (forall w', main_of TermboxProgram 20 shape_encode sample_env two_trials_args
                      (fresh_world log_path NoAccess) <> Returned (tt, w')) /\
  result_of (trials_in_order (fun f => runTest_of TermboxProgram f sample_env 10 99 3) 20 2
                             (world_at_first_trial TermboxProgram
                                                   (fresh_world log_path NoAccess)))
  = Returned [ {| Score := 2; Duration := 1.5; Count := 3 |};
               {| Score := 0; Duration := 1.5; Count := 3 |} ] /\
  main_of TermboxProgram 20 shape_encode sample_env two_trials_args
          (fresh_world log_path NoAccess)
  = Panicked "open".
Proof.
  destruct (run_on_unusable_log_panics_after_its_trials
              shape_encode sample_env TermboxProgram 20 two_trials_args
              (fresh_world log_path NoAccess)) as [Hnever Hrun].
  - left. vm_compute. reflexivity.
  - split; [exact Hnever|]. split; [vm_compute; reflexivity|].
    rewrite Hrun.
    + vm_compute. reflexivity.
    + vm_compute. discriminate.
    + split; reflexivity.
Defined.

Lemma short_log_path_panics_witness :
  main_of PlainProgram 20 shape_encode sample_env
          {| arg_dry := false; arg_f := B "~";
             arg_n := B "2"; arg_c := B "3"; arg_i := B "10"; arg_a := B "99" |}
          (fresh_world [] NoFile)
  = Panicked "slice bounds out of range".
Proof.
  apply (short_log_path_panics shape_encode sample_env PlainProgram 20).
  vm_compute. reflexivity.
Defined.

Lemma failed_Init_panics_witness :
  Termbox.main 20 shape_encode
               {| rand_Int_result := rand_Int_result sample_env;
                  Scan_result := Scan_result sample_env;
                  Now_result := Now_result sample_env;
                  PollEvent_result := PollEvent_result sample_env;
                  Flush_error := Flush_error sample_env;
                  Init_error := true; Size := (80, 24); HOME := B "/home/user" |}
               two_trials_args (fresh_world [] NoFile)
  = Panicked "termbox.Init".
Proof.
  apply (failed_Init_panics shape_encode _ 20 two_trials_args (fresh_world [] NoFile)).
  - vm_compute. discriminate.
  - reflexivity.
Defined.

Lemma persisted_total_is_the_sum_of_the_scores_witness :
  exists w',
    main_of PlainProgram 20 shape_encode sample_env two_trials_args
            (fresh_world log_path (File one_record_log))
    = Returned (tt, w') /\
    exists results old now avgDuration,
      len results = 2 /\
      disk w' (log_file sample_env two_trials_args)
      = File (WriteAt old (shape_encode
                             (load old ++ [new_item now results (total_score results)
                                                    avgDuration])) 0) /\
      0 <= total_score results <= 2 * Z.max 0 3.
Proof.
  eexists. split.
  - vm_compute. reflexivity.
  - apply (persisted_total_is_the_sum_of_the_scores
             shape_encode sample_env PlainProgram 20 two_trials_args
             (fresh_world log_path (File one_record_log))).
    + vm_compute. discriminate.
    + vm_compute. discriminate.
    + vm_compute. reflexivity.
Defined.

(** ** The random source *)

Section GeneratorFails.

Variable env : Env.
Variables min max count : Z.

(** The loop dereferences the nil number of the first draw that fails, when
    it has not kept enough draws before it. *)
Lemma Plain_generate_loop_reader_fails (k : nat) :
  forall (fuel : nat) (i : Z) (numbers : list Z) (w : World),
    0 < max ->
    (forall j, (j < k)%nat -> rand_Int_result env (rand_calls w + j) <> None) ->
    rand_Int_result env (rand_calls w + k) = None ->
    len (accepted env min (rand_calls w) k) < count - i ->
    (k < fuel)%nat ->
    Plain.generate_loop fuel env min max count i numbers w
    = Panicked "invalid memory address or nil pointer dereference".
Proof.
  induction k as [|k IH]; intros fuel i numbers w Hmax Hsome Hnone Hroom Hfuel;
    (destruct fuel as [|fuel]; [lia|]); cbn [Plain.generate_loop].
  - cbn [accepted] in Hroom. change (len (@nil Z)) with 0 in Hroom.
    replace (i <? count) with true by (symmetry; apply Z.ltb_lt; lia).
    unfold bind at 1. unfold rand_Int.
    replace (max <=? 0) with false by (symmetry; apply Z.leb_gt; lia).
    rewrite Nat.add_0_r in Hnone. rewrite Hnone. reflexivity.
  - pose proof (Hsome O ltac:(lia)) as H0. rewrite Nat.add_0_r in H0.
    destruct (rand_Int_result env (rand_calls w)) as [v|] eqn:Ev; [|contradiction].
    cbn [accepted] in Hroom. rewrite Ev in Hroom.
    assert (Hi : i < count).
    { destruct (v <? min); unfold len in Hroom; cbn [List.length] in Hroom; lia. }
    replace (i <? count) with true by (symmetry; apply Z.ltb_lt; lia).
    unfold bind at 1. unfold rand_Int.
    replace (max <=? 0) with false by (symmetry; apply Z.leb_gt; lia).
    rewrite Ev. unfold bind at 1. cbn [Int64 ret].
    destruct (v <? min) eqn:Hv.
    + replace (i - 1 + 1) with i by lia. apply IH; cbn [rand_calls]; try assumption.
      * intros j Hj. replace (S (rand_calls w) + j)%nat with (rand_calls w + S j)%nat by lia.
        apply Hsome. lia.
      * replace (S (rand_calls w) + k)%nat with (rand_calls w + S k)%nat by lia.
        exact Hnone.
      * lia.
    + apply IH; cbn [rand_calls]; try assumption.
      * intros j Hj. replace (S (rand_calls w) + j)%nat with (rand_calls w + S j)%nat by lia.
        apply Hsome. lia.
      * replace (S (rand_calls w) + k)%nat with (rand_calls w + S k)%nat by lia.
        exact Hnone.
      * unfold len in *. cbn [List.length] in Hroom. lia.
      * lia.
Qed.

(** X22.  The generator drops the error of [rand.Int]: when the random
    source fails before [count] draws have been kept, the generator panics
    on the nil number of the failed draw.  Both programs. *)
Theorem generator_panics_when_the_source_fails
        (p : program) (k fuel : nat) (w : World) :
  0 < max ->
  (forall j, (j < k)%nat -> rand_Int_result env (rand_calls w + j) <> None) ->
  rand_Int_result env (rand_calls w + k) = None ->
  len (accepted env min (rand_calls w) k) < count ->
  (k < fuel)%nat ->
  generateRandomNumbers_of p fuel env min max count w
  = Panicked "invalid memory address or nil pointer dereference".
Proof.
  intros Hmax Hsome Hnone Hroom Hfuel.
  assert (H : Plain.generate_loop fuel env min max count 0 [] w
              = Panicked "invalid memory address or nil pointer dereference").
  { apply (Plain_generate_loop_reader_fails k); try assumption. lia. }
  destruct p; exact H.
Qed.

End GeneratorFails.

Lemma generator_panics_when_the_source_fails_witness :
  generateRandomNumbers_of
    TermboxProgram 19
    {| rand_Int_result := fun k => if (k <? 2)%nat then Some 50 else None;
       Scan_result := Scan_result sample_env;
       Now_result := Now_result sample_env;
       PollEvent_result := PollEvent_result sample_env;
       Flush_error := Flush_error sample_env;
       Init_error := false; Size := (80, 24); HOME := B "/home/user" |}
    10 99 3 (fresh_world [] NoFile)
  = Panicked "invalid memory address or nil pointer dereference".
Proof.
  apply (generator_panics_when_the_source_fails _ 10 99 3 TermboxProgram 2 19
                                                (fresh_world [] NoFile)).
  - lia.
  - intros j Hj. do 2 (destruct j as [|j]; [discriminate|]). lia.
  - reflexivity.
  - vm_compute. reflexivity.
  - lia.
Defined.
